(** * supla_exporter: the poll / fetch / extract pipeline of [parser/parser.go]

    A shallow embedding of the Go package [parser] (with the parts of
    [config] and [main] it is tied to) and the properties of it that the
    specification states.

    Conventions of the embedding.
    - A Go [string] is a sequence of bytes: Rocq's [string] of [ascii].
    - A Go call returns, returns with a non-nil [error], or panics: the
      three constructors of [outcome].
    - The process-wide [deviceCount] and the requests put on the wire live
      in an explicit [World] that every effectful function threads.
    - Library code outside the repository ([strings], [regexp], [strconv],
      [goquery], [net/http]) is modelled from its documented behaviour, one
      module per package; the network itself is an oracle [Env].
    - The goroutines of [FetchAndParseWithPool] are an interleaving step
      relation over the two channels. *)

From Stdlib Require Import String Ascii List ZArith QArith Bool Arith Lia.
From Stdlib Require Import Permutation DecimalString.
Import ListNotations.

Close Scope Q_scope.
Close Scope Z_scope.
Open Scope nat_scope.
Open Scope list_scope.
Open Scope string_scope.

(** ** Byte-string helpers *)

Definition bytes (l : list nat) : string :=
  string_of_list_ascii (map ascii_of_nat l).

Fixpoint drop (n : nat) (s : string) : string :=
  match n, s with
  | O, _ => s
  | S n', String _ s' => drop n' s'
  | S _, EmptyString => EmptyString
  end.

Fixpoint take (n : nat) (s : string) : string :=
  match n, s with
  | O, _ => EmptyString
  | S n', String c s' => String c (take n' s')
  | S _, EmptyString => EmptyString
  end.

Definition reverse (s : string) : string :=
  string_of_list_ascii (rev (list_ascii_of_string s)).

(** ** Results of a Go call *)

Inductive outcome (A : Type) : Type :=
| Return (a : A)          (* normal return, [err == nil] *)
| Error (msg : string)    (* return with a non-nil [error]; [msg] is [err.Error()] *)
| Panic (msg : string).   (* run-time panic *)
Arguments Return {A} a.
Arguments Error {A} msg.
Arguments Panic {A} msg.

Definition obind {A B} (x : outcome A) (f : A -> outcome B) : outcome B :=
  match x with
  | Return a => f a
  | Error m => Error m
  | Panic m => Panic m
  end.

(** [l[i]] on a slice: a run-time panic when [i] is out of range. *)
Definition index {A} (l : list A) (i : nat) : outcome A :=
  match nth_error l i with
  | Some a => Return a
  | None => Panic "index out of range"
  end.

(** ** Package [strings] *)
Module Strings.

(** [strings.Index]: byte offset of the first occurrence of [substr]. *)
Fixpoint Index (s substr : string) : option nat :=
  if prefix substr s then Some O
  else match s with
       | EmptyString => None
       | String _ s' => option_map S (Index s' substr)
       end.

Definition Contains (s substr : string) : bool :=
  match Index s substr with Some _ => true | None => false end.

(** [strings.Split] for a non-empty separator (every call site passes a
    literal one): the loop of [genSplit], which cuts at the first
    occurrence of [sep] and goes on in the rest.  Each round consumes at
    least one byte, so [length s] rounds are enough. *)
Fixpoint genSplit (fuel : nat) (s sep : string) : list string :=
  match fuel with
  | O => [s]
  | S fuel' =>
      match Index s sep with
      | None => [s]
      | Some m => take m s :: genSplit fuel' (drop (m + String.length sep) s) sep
      end
  end.

Definition Split (s sep : string) : list string :=
  genSplit (String.length s) s sep.

(** The code points with Unicode's White_Space property
    ([unicode.IsSpace]), in UTF-8. *)
Definition whiteSpace : list string :=
  [ bytes [9]; bytes [10]; bytes [11]; bytes [12]; bytes [13]; bytes [32];
    bytes [194; 133]; bytes [194; 160]; bytes [225; 154; 128];
    bytes [226; 128; 128]; bytes [226; 128; 129]; bytes [226; 128; 130];
    bytes [226; 128; 131]; bytes [226; 128; 132]; bytes [226; 128; 133];
    bytes [226; 128; 134]; bytes [226; 128; 135]; bytes [226; 128; 136];
    bytes [226; 128; 137]; bytes [226; 128; 138]; bytes [226; 128; 168];
    bytes [226; 128; 169]; bytes [226; 128; 175]; bytes [226; 129; 159];
    bytes [227; 128; 128] ].

(** Drops leading runes taken from [runes], at most [fuel] of them. *)
Fixpoint trimLeft (runes : list string) (fuel : nat) (s : string) : string :=
  match fuel with
  | O => s
  | S fuel' =>
      match find (fun w => prefix w s) runes with
      | Some w => trimLeft runes fuel' (drop (String.length w) s)
      | None => s
      end
  end.

(** [strings.TrimSpace]: leading and trailing white space removed. *)
Definition TrimSpace (s : string) : string :=
  let l := trimLeft whiteSpace (String.length s) s in
  reverse (trimLeft (map reverse whiteSpace) (String.length l) (reverse l)).

End Strings.

(** ** Package [regexp]

    The three patterns of the program use literals, classes, optional and
    counted repetition and the end-of-text assertion; [re] is that fragment
    of RE2 syntax and [run] its leftmost-first (Perl-like, greedy) matcher.
    Go matches rune by rune; every pattern here starts with an ASCII byte or
    with the lead byte of a three-byte rune, which can only sit on a rune
    boundary, so scanning byte by byte finds the same matches. *)
Module Regexp.

Inductive re : Type :=
| Class (p : ascii -> bool)      (* one byte of a class *)
| Lit (w : string)               (* a literal byte sequence *)
| Seq (r1 r2 : re)
| Alt (r1 r2 : re)               (* r1|r2, r1 preferred *)
| Opt (r : re)                   (* r?, greedy *)
| Rep (n : nat) (r : re)         (* r{n} *)
| EndText.                       (* $ without the m flag *)

(** [run r s k]: the first way, in preference order, to match [r] at the
    start of [s] such that the continuation [k] accepts what is left. *)
Fixpoint run (r : re) (s : string) (k : string -> option string) : option string :=
  match r with
  | Class p =>
      match s with
      | String c s' => if p c then k s' else None
      | EmptyString => None
      end
  | Lit w => if prefix w s then k (drop (String.length w) s) else None
  | Seq r1 r2 => run r1 s (fun s1 => run r2 s1 k)
  | Alt r1 r2 =>
      match run r1 s k with
      | Some rest => Some rest
      | None => run r2 s k
      end
  | Opt r1 =>
      match run r1 s k with
      | Some rest => Some rest
      | None => k s
      end
  | Rep n r1 =>
      (fix rep (n : nat) (s : string) (k : string -> option string) : option string :=
         match n with
         | O => k s
         | S n' => run r1 s (fun s1 => rep n' s1 k)
         end) n s k
  | EndText =>
      match s with
      | EmptyString => k s
      | String _ _ => None
      end
  end.

(** Length of the match of [r] anchored at the start of [s]. *)
Definition matchHere (r : re) (s : string) : option nat :=
  match run r s Some with
  | Some rest => Some (String.length s - String.length rest)
  | None => None
  end.

(** Leftmost match in [s], whose first byte has offset [i] in the text. *)
Fixpoint findFrom (r : re) (i : nat) (s : string) : option (nat * nat) :=
  match matchHere r s with
  | Some n => Some (i, i + n)
  | None =>
      match s with
      | EmptyString => None
      | String _ s' => findFrom r (S i) s'
      end
  end.

(** [Regexp.FindStringIndex]: [loc[0]], [loc[1]] of the leftmost match. *)
Definition FindStringIndex (r : re) (s : string) : option (nat * nat) :=
  findFrom r 0 s.

(** [Regexp.FindString]: the text of the leftmost match, or [""]. *)
Definition FindString (r : re) (s : string) : string :=
  match FindStringIndex r s with
  | Some (a, b) => substring a (b - a) s
  | None => EmptyString
  end.

(** The loop of [Regexp.replaceAll]: [lastMatchEnd] and [searchPos] as
    in the library; a match of the empty string right after another match
    is not replaced, and the search always advances. *)
Fixpoint replaceAll (fuel : nat) (r : re) (src repl : string)
         (lastMatchEnd searchPos : nat) : string :=
  match fuel with
  | O => drop lastMatchEnd src
  | S fuel' =>
      if (String.length src <? searchPos)%nat then drop lastMatchEnd src
      else
        match findFrom r searchPos (drop searchPos src) with
        | None => drop lastMatchEnd src
        | Some (a0, a1) =>
            substring lastMatchEnd (a0 - lastMatchEnd) src
            ++ (if (lastMatchEnd <? a1)%nat || (a0 =? 0)%nat then repl else EmptyString)
            ++ replaceAll fuel' r src repl a1
                 (if (a1 <? searchPos + 1)%nat then searchPos + 1 else a1)
        end
  end.

Definition ReplaceAllString (r : re) (src repl : string) : string :=
  replaceAll (S (String.length src)) r src repl 0 0.

(** Character classes. *)
Definition inRange (lo hi : nat) (c : ascii) : bool :=
  (lo <=? nat_of_ascii c)%nat && (nat_of_ascii c <=? hi)%nat.

(** [\d]: in RE2 the ASCII digits only. *)
Definition digit (c : ascii) : bool := inRange 48 57 c.

(** [[0-9A-Fa-f]] *)
Definition hexDigit (c : ascii) : bool :=
  inRange 48 57 c || inRange 65 70 c || inRange 97 102 c.

(** [[:-]] *)
Definition colonOrHyphen (c : ascii) : bool :=
  Ascii.eqb c ":" || Ascii.eqb c "-".

(** A literal letter under the [i] flag matches its whole orbit of
    simple case folding: for [k] that is [k], [K] and U+212A KELVIN SIGN. *)
Definition foldK : re := Alt (Lit "k") (Alt (Lit "K") (Lit (bytes [226; 132; 170]))).
Definition foldB : re := Alt (Lit "b") (Lit "B").

(** [regexp.MustCompile(`v\d`)] *)
Definition firmwareVersion : re := Seq (Lit "v") (Class digit).

(** [regexp.MustCompile(`([0-9A-Fa-f]{2}[:-]){5}([0-9A-Fa-f]{2})`)] *)
Definition macRegex : re :=
  Seq (Rep 5 (Seq (Rep 2 (Class hexDigit)) (Class colonOrHyphen)))
      (Rep 2 (Class hexDigit)).

(** [regexp.MustCompile(`(?i)kb?$`)] *)
Definition kbSuffix : re := Seq foldK (Seq (Opt foldB) EndText).

End Regexp.

(** ** Package [strconv]: [ParseFloat(s, 64)]

    The accepted syntax follows [special], [readFloat] and [underscoreOK]
    of the library.  A finite result is kept as the exact rational the
    text denotes (in lowest terms): the library returns the float64 nearest
    to it, and that rounding is the one thing left abstract. *)
Module Strconv.

Inductive float64 : Type :=
| Finite (q : Q)
| Inf (neg : bool)
| NaN.

Definition code (c : ascii) : Z := Z.of_nat (nat_of_ascii c).

(** [lower(c)] of the library: [c | ('x' - 'X')]. *)
Definition lower (c : ascii) : Z := Z.lor (code c) 32.

Definition isDigit (c : ascii) : bool := ((48 <=? code c) && (code c <=? 57))%Z.
Definition isHexLetter (c : ascii) : bool := ((97 <=? lower c) && (lower c <=? 102))%Z.

(** ASCII upper case letters mapped to lower case, others kept. *)
Definition toLower (c : ascii) : ascii :=
  if ((65 <=? code c) && (code c <=? 90))%Z
  then ascii_of_nat (nat_of_ascii c + 32) else c.

Fixpoint commonPrefixLenIgnoreCase (s pre : string) : nat :=
  match s, pre with
  | String c s', String p pre' =>
      if Ascii.eqb (toLower c) p then S (commonPrefixLenIgnoreCase s' pre') else O
  | _, _ => O
  end.

(** [special]: the value and how many bytes of [s] it takes. *)
Definition infinity (neg : bool) (nsign : nat) (s : string) : option (float64 * nat) :=
  let n := commonPrefixLenIgnoreCase s "infinity" in
  let n := if (3 <? n)%nat && (n <? 8)%nat then 3 else n in
  if (n =? 3)%nat || (n =? 8)%nat then Some (Inf neg, nsign + n) else None.

Definition special (s : string) : option (float64 * nat) :=
  match s with
  | EmptyString => None
  | String c s' =>
      if Ascii.eqb c "+" then infinity false 1 s'
      else if Ascii.eqb c "-" then infinity true 1 s'
      else if Ascii.eqb c "i" || Ascii.eqb c "I" then infinity false 0 s
      else if Ascii.eqb c "n" || Ascii.eqb c "N" then
        if (commonPrefixLenIgnoreCase s "nan" =? 3)%nat then Some (NaN, 3) else None
      else None
  end.

(** [underscoreOK]: underscores only between digits, or between a base
    prefix and a digit.  [saw] is the last byte class seen. *)
Inductive seen : Type := SawStart | SawDigit | SawUnderscore | SawOther.

Fixpoint underscoreLoop (hex : bool) (saw : seen) (s : string) : bool :=
  match s with
  | EmptyString => match saw with SawUnderscore => false | _ => true end
  | String c s' =>
      if isDigit c || (hex && isHexLetter c) then underscoreLoop hex SawDigit s'
      else if Ascii.eqb c "_" then
        match saw with
        | SawDigit => underscoreLoop hex SawUnderscore s'
        | _ => false
        end
      else
        match saw with
        | SawUnderscore => false
        | _ => underscoreLoop hex SawOther s'
        end
  end.

Definition underscoreOK (s : string) : bool :=
  let s := match s with
           | String c s' => if Ascii.eqb c "-" || Ascii.eqb c "+" then s' else s
           | EmptyString => s
           end in
  match s with
  | String c0 (String c1 s') =>
      if Ascii.eqb c0 "0" && ((lower c1 =? 98) || (lower c1 =? 111) || (lower c1 =? 120))%Z
      then underscoreLoop (lower c1 =? 120)%Z SawDigit s'
      else underscoreLoop false SawStart s
  | _ => underscoreLoop false SawStart s
  end.

(** The digits loop of [readFloat].  [mantissa] keeps every digit (the
    library keeps 19 and a truncation flag, and rounds from the full
    text): [nd] digits after the leading zeros, decimal point after the
    first [dp] of them. *)
Record digits : Type := mkDigits {
  mantissa : Z;
  nd : Z;
  dp : Z;
  sawdot : bool;
  sawdigits : bool;
  underscores : bool
}.

Fixpoint readDigits (hex : bool) (st : digits) (s : string) : digits * string :=
  match s with
  | EmptyString => (st, s)
  | String c s' =>
      if Ascii.eqb c "_" then
        readDigits hex (mkDigits (mantissa st) (nd st) (dp st) (sawdot st) (sawdigits st) true) s'
      else if Ascii.eqb c "." then
        if sawdot st then (st, s)
        else readDigits hex (mkDigits (mantissa st) (nd st) (nd st) true (sawdigits st) (underscores st)) s'
      else if isDigit c then
        if Ascii.eqb c "0" && (nd st =? 0)%Z then
          readDigits hex (mkDigits (mantissa st) (nd st) (dp st - 1) (sawdot st) true (underscores st)) s'
        else
          readDigits hex (mkDigits (mantissa st * (if hex then 16 else 10) + (code c - 48))
                                   (nd st + 1) (dp st) (sawdot st) true (underscores st)) s'
      else if hex && isHexLetter c then
        readDigits hex (mkDigits (mantissa st * 16 + (lower c - 97 + 10))
                                 (nd st + 1) (dp st) (sawdot st) true (underscores st)) s'
      else (st, s)
  end%Z.

(** The digits of the exponent: [e] stops growing at 10000. *)
Fixpoint readExponent (e : Z) (us : bool) (s : string) : Z * bool * string :=
  match s with
  | EmptyString => (e, us, s)
  | String c s' =>
      if Ascii.eqb c "_" then readExponent e true s'
      else if isDigit c then
        readExponent (if e <? 10000 then e * 10 + (code c - 48) else e)%Z us s'
      else (e, us, s)
  end.

(** [m * b^e] in lowest terms. *)
Definition scale (m b e : Z) : Q :=
  Qred (if (0 <=? e)%Z then Qmake (m * b ^ e) 1
        else Qmake m (Z.to_pos (b ^ (- e)))).

(** What [readFloat] returns for the whole of [s]: sign, exact value, and
    the rest of the text it did not read; [None] when [ok] is false. *)
Definition readFloat (s : string) : option (bool * Q * string) :=
  match s with
  | EmptyString => None
  | String c0 s0 =>
      let neg := Ascii.eqb c0 "-" in
      let body := if Ascii.eqb c0 "+" || Ascii.eqb c0 "-" then s0 else s in
      let hex := match body with
                 | String z (String x (String _ _)) =>
                     Ascii.eqb z "0" && (lower x =? 120)%Z
                 | _ => false
                 end in
      let '(st, rest) := readDigits hex (mkDigits 0 0 0 false false false)
                           (if hex then drop 2 body else body) in
      if negb (sawdigits st) then None
      else
        let dp0 := if sawdot st then dp st else nd st in
        let dp1 := (if hex then dp0 * 4 else dp0)%Z in
        let nd1 := (if hex then nd st * 4 else nd st)%Z in
        let finish (dp2 : Z) (us : bool) (rest : string) :=
          if us && negb (underscoreOK (take (String.length s - String.length rest) s))
          then None
          else Some (neg, scale (mantissa st) (if hex then 2 else 10) (dp2 - nd1), rest) in
        match rest with
        | String e rest1 =>
            if (lower e =? (if hex then 112 else 101))%Z then
              match rest1 with
              | EmptyString => None
              | String sg rest2 =>
                  let esign := (if Ascii.eqb sg "-" then -1 else 1)%Z in
                  let rest3 := if Ascii.eqb sg "+" || Ascii.eqb sg "-" then rest2 else rest1 in
                  match rest3 with
                  | EmptyString => None
                  | String d _ =>
                      if isDigit d then
                        let '(e, us, rest4) := readExponent 0 (underscores st) rest3 in
                        finish (dp1 + e * esign)%Z us rest4
                      else None
                  end
              end
            else if hex then None
            else finish dp1 (underscores st) rest
        | EmptyString =>
            if hex then None else finish dp1 (underscores st) rest
        end
  end.

(** A value at or above this bound rounds to infinity: midway between the
    largest float64 and [2^1024]. *)
Definition overflowBound : Q := Qmake (2 ^ 1024 - 2 ^ 970) 1.

(** [strconv.ParseFloat(s, 64)]: the whole of [s] has to be consumed; a
    value out of range is an error too ([ErrRange]). *)
Definition ParseFloat (s : string) : outcome float64 :=
  let syntaxError := Error ("strconv.ParseFloat: parsing " ++ s ++ ": invalid syntax") in
  match special s with
  | Some (f, n) => if (n =? String.length s)%nat then Return f else syntaxError
  | None =>
      match readFloat s with
      | None => syntaxError
      | Some (neg, q, rest) =>
          match rest with
          | String _ _ => syntaxError
          | EmptyString =>
              if Qle_bool overflowBound q
              then Error ("strconv.ParseFloat: parsing " ++ s ++ ": value out of range")
              else Return (Finite (if neg then Qred (Qopp q) else q))
          end
      end
  end.

End Strconv.

(** ** Package [goquery] over [html.Node]

    A page enters the program through [goquery.NewDocumentFromReader]; the
    embedding starts from the node tree that call builds (tag names are
    lower case, as the HTML parser leaves them). *)
Module Goquery.

#[warnings="-register-all"]
Inductive Node : Type :=
| TextNode (data : string)
| CommentNode (data : string)
| ElementNode (tag : string) (children : list Node).

(** The children of the document node. *)
Definition Document : Type := list Node.

(** A [Selection] is the slice of matched nodes. *)
Definition Selection : Type := list Node.

(** [Selector.MatchAll] for a type selector: the node itself when it is
    an element of that name, then the matches below it, in document
    order. *)
Fixpoint MatchAll (tag : string) (n : Node) : list Node :=
  match n with
  | ElementNode t children =>
      ((if String.eqb t tag then [n] else []) ++ flat_map (MatchAll tag) children)%list
  | _ => []
  end.

(** [doc.Find(tag)] *)
Definition Find (doc : Document) (tag : string) : Selection :=
  flat_map (MatchAll tag) doc.

(** The text of one node: its text nodes and those of its descendants. *)
Fixpoint nodeText (n : Node) : string :=
  match n with
  | TextNode data => data
  | CommentNode _ => EmptyString
  | ElementNode _ children => String.concat EmptyString (map nodeText children)
  end.

(** [Selection.Text]: the combined text of every node of the selection. *)
Definition Text (s : Selection) : string :=
  String.concat EmptyString (map nodeText s).

End Goquery.

(** ** Package [config] *)
Module Config.

Record Device : Type := mkDevice {
  URL : string;
  Username : string;
  Password : string
}.

End Config.

(** ** Package [net/http], as far as the program looks at it *)
Module Http.

Record Request : Type := mkRequest {
  Method : string;
  Target : string;
  BasicAuth : option (string * string);
  Header : list (string * string)
}.

(** [Header.Set]: replaces the values of the key. *)
Definition HeaderSet (r : Request) (key value : string) : Request :=
  mkRequest (Method r) (Target r) (BasicAuth r)
    ((key, value) :: filter (fun kv => negb (String.eqb (fst kv) key)) (Header r)).

Definition SetBasicAuth (r : Request) (username password : string) : Request :=
  mkRequest (Method r) (Target r) (Some (username, password)) (Header r).

(** What [goquery.NewDocumentFromReader] makes of a body. *)
Inductive Page : Type :=
| Parsed (doc : Goquery.Document)
| Unparsable (err : string).

(** [io.ReadAll(resp.Body)] *)
Inductive Body : Type :=
| ReadOK (content : Page)
| ReadError (err : string).

(** [client.Do(req)] *)
Inductive Response : Type :=
| DoError (err : string)
| DoOK (StatusCode : Z) (body : Body).

(** The world outside the process, for one call of [FetchAndParse]:
    whether [http.NewRequest] accepts a url, and what the device answers
    to a request. *)
Record Env : Type := mkEnv {
  urlError : string -> option string;
  answer : Request -> Response
}.

Definition NewRequest (env : Env) (method url : string) : outcome Request :=
  match urlError env url with
  | Some err => Error err
  | None => Return (mkRequest method url None [])
  end.

Definition StatusOK : Z := 200.
Definition StatusUnauthorized : Z := 401.
Definition StatusForbidden : Z := 403.
Definition StatusNotFound : Z := 404.
Definition StatusInternalServerError : Z := 500.

End Http.

(** ** Package [parser] *)
Module Parser.
Import Strings Regexp Goquery Http.

Notation "'let!' x ':=' e 'in' k" := (obind e (fun x => k))
  (at level 10, x name, e at level 100, k at level 200).

Record SuplaInfo : Type := mkSuplaInfo {
  Name : string;
  State : string;
  Firmware : string;
  GUID : string;
  MAC : string;
  Mode : string;
  FreeMem : Strconv.float64;
  Up : bool;
  URL : string
}.

(** [&SuplaInfo{}] *)
Definition zero : SuplaInfo :=
  mkSuplaInfo "" "" "" "" "" "" (Strconv.Finite 0%Q) false "".

Definition setName (v : string) (i : SuplaInfo) : SuplaInfo :=
  mkSuplaInfo v (State i) (Firmware i) (GUID i) (MAC i) (Mode i) (FreeMem i) (Up i) (URL i).
Definition setState (v : string) (i : SuplaInfo) : SuplaInfo :=
  mkSuplaInfo (Name i) v (Firmware i) (GUID i) (MAC i) (Mode i) (FreeMem i) (Up i) (URL i).
Definition setFirmware (v : string) (i : SuplaInfo) : SuplaInfo :=
  mkSuplaInfo (Name i) (State i) v (GUID i) (MAC i) (Mode i) (FreeMem i) (Up i) (URL i).
Definition setGUID (v : string) (i : SuplaInfo) : SuplaInfo :=
  mkSuplaInfo (Name i) (State i) (Firmware i) v (MAC i) (Mode i) (FreeMem i) (Up i) (URL i).
Definition setMAC (v : string) (i : SuplaInfo) : SuplaInfo :=
  mkSuplaInfo (Name i) (State i) (Firmware i) (GUID i) v (Mode i) (FreeMem i) (Up i) (URL i).
Definition setMode (v : string) (i : SuplaInfo) : SuplaInfo :=
  mkSuplaInfo (Name i) (State i) (Firmware i) (GUID i) (MAC i) v (FreeMem i) (Up i) (URL i).
Definition setFreeMem (v : Strconv.float64) (i : SuplaInfo) : SuplaInfo :=
  mkSuplaInfo (Name i) (State i) (Firmware i) (GUID i) (MAC i) (Mode i) v (Up i) (URL i).
Definition setUp (v : bool) (i : SuplaInfo) : SuplaInfo :=
  mkSuplaInfo (Name i) (State i) (Firmware i) (GUID i) (MAC i) (Mode i) (FreeMem i) v (URL i).
Definition setURL (v : string) (i : SuplaInfo) : SuplaInfo :=
  mkSuplaInfo (Name i) (State i) (Firmware i) (GUID i) (MAC i) (Mode i) (FreeMem i) (Up i) v.

(** [for i, a := range l { body }] with a body that may panic. *)
Fixpoint rangeLoop {A T : Type} (body : nat -> A -> T -> outcome T)
         (i : nat) (l : list A) (s : T) : outcome T :=
  match l with
  | [] => Return s
  | a :: l' => let! s' := body i a s in rangeLoop body (S i) l' s'
  end.

(** *** ParseHTML *)

Definition sections : list string := ["LAST STATE:"; "Firmware:"; "GUID:"; "MAC:"].

(** [case "Firmware:"]: the value, cut to start at the first [v<digit>]. *)
Definition firmwareCase (value : string) (info : SuplaInfo) : SuplaInfo :=
  let info := setFirmware value info in
  match FindStringIndex firmwareVersion (Firmware info) with
  | Some loc => setFirmware (drop (fst loc) (Firmware info)) info
  | None => info
  end.

(** The [else] branch of the sections loop: the last section (MAC). *)
Definition macCase (text section : string) (info : SuplaInfo) : outcome SuplaInfo :=
  let parts := Split text section in
  if (1 <? List.length parts)%nat then
    let! part := index parts 1 in
    let macPart := TrimSpace part in
    let match_ := FindString macRegex macPart in
    Return (if negb (String.eqb match_ "") then setMAC match_ info else info)
  else Return info.

(** One round of [for i, section := range sections]. *)
Definition sectionBody (text : string) (i : nat) (section : string)
           (info : SuplaInfo) : outcome SuplaInfo :=
  if (i <? List.length sections - 1)%nat then
    let! nextSection := index sections (i + 1) in
    let! afterSection := index (Split text section) 1 in
    let! value := index (Split afterSection nextSection) 0 in
    let value := TrimSpace value in
    Return (if String.eqb section "LAST STATE:" then setState value info
            else if String.eqb section "Firmware:" then firmwareCase value info
            else if String.eqb section "GUID:" then setGUID value info
            else info)
  else macCase text section info.

(** [if strings.Contains(text, "Free Mem:") { ... }] *)
Definition freeMemBlock (text : string) (info : SuplaInfo) : outcome SuplaInfo :=
  if Contains text "Free Mem:" then
    let! parts := index (Split text "Free Mem:") 1 in
    let memAndMode := Split parts "Mode:" in
    let! mem := index memAndMode 0 in
    let memStr := ReplaceAllString kbSuffix (TrimSpace mem) "" in
    let info := match Strconv.ParseFloat memStr with
                | Return freeMem => setFreeMem freeMem info
                | _ => info
                end in
    if (1 <? List.length memAndMode)%nat then
      let! mode := index memAndMode 1 in
      Return (setMode (TrimSpace mode) info)
    else Return info
  else Return info.

(** The function passed to [Each], on the text of one [span]. *)
Definition eachSpan (text : string) (info : SuplaInfo) : outcome SuplaInfo :=
  let! info :=
    (if Contains text "LAST STATE:"
     then rangeLoop (sectionBody text) 0 sections info
     else Return info) in
  freeMemBlock text info.

Definition ParseHTML (content : Page) : outcome SuplaInfo :=
  match content with
  | Unparsable err => Error ("error parsing HTML: " ++ err)
  | Parsed doc =>
      let info := setName (Text (Find doc "h1")) zero in
      rangeLoop (fun _ s info => eachSpan (nodeText s) info) 0 (Find doc "span") info
  end.

(** *** The shared state and the calls that touch it *)

Record World : Type := mkWorld {
  deviceCount : Z;               (* var deviceCount int64 *)
  wire : list Request            (* requests handed to client.Do so far *)
}.

(** A call that may read and write the world. *)
Definition M (A : Type) : Type := World -> outcome A * World.

Definition ret {A} (a : A) : M A := fun w => (Return a, w).
Definition fail {A} (msg : string) : M A := fun w => (Error msg, w).
Definition bind {A B} (m : M A) (f : A -> M B) : M B :=
  fun w => match m w with
           | (Return a, w') => f a w'
           | (Error msg, w') => (Error msg, w')
           | (Panic msg, w') => (Panic msg, w')
           end.
Definition lift {A} (o : outcome A) : M A := fun w => (o, w).

Notation "x <- m ;; k" := (bind m (fun x => k))
  (at level 61, m at next level, right associativity).

(** Two's complement wrap-around of an int64. *)
Definition wrap64 (z : Z) : Z := ((z + 2 ^ 63) mod 2 ^ 64 - 2 ^ 63)%Z.

(** [atomic.AddInt64(&deviceCount, delta)] *)
Definition AddInt64 (delta : Z) : M Z :=
  fun w => let n := wrap64 (deviceCount w + delta) in (Return n, mkWorld n (wire w)).

(** [atomic.SwapInt64(&deviceCount, new)] *)
Definition SwapInt64 (new : Z) : M Z :=
  fun w => (Return (deviceCount w), mkWorld new (wire w)).

(** [atomic.LoadInt64(&deviceCount)] *)
Definition LoadInt64 : M Z := fun w => (Return (deviceCount w), w).

(** [client.Do(req)] *)
Definition Do (env : Env) (req : Request) : M Response :=
  fun w => (Return (answer env req), mkWorld (deviceCount w) (wire w ++ [req])%list).

(** [fmt.Sprintf("%d", n)] *)
Definition formatInt (n : Z) : string := NilZero.string_of_int (Z.to_int n).

(** [&SuplaInfo{URL: url, Up: false, State: state}] *)
Definition down (url state : string) : SuplaInfo := setState state (setURL url zero).

(** [&SuplaInfo{URL: url, Up: false, State: "Timeout", Mode: "ERROR"}] *)
Definition timedOut (url : string) : SuplaInfo := setMode "ERROR" (down url "Timeout").

(** The tail of [FetchAndParse], from [ParseHTML(string(body))] on. *)
Definition parseBody (device : Config.Device) (content : Page) : M SuplaInfo :=
  match ParseHTML content with
  | Error err => ret (down (Config.URL device) ("Error parsing HTML: " ++ err))
  | Panic msg => lift (Panic msg)
  | Return info => ret (setUp true (setURL (Config.URL device) info))
  end.

(** *** FetchAndParse *)
Definition FetchAndParse (env : Env) (device : Config.Device) : M SuplaInfo :=
  _ <- AddInt64 1 ;;
  match NewRequest env "GET" (Config.URL device) with
  | Error err => fail ("error creating request: " ++ err)
  | Panic msg => lift (Panic msg)
  | Return req =>
      let req := SetBasicAuth req (Config.Username device) (Config.Password device) in
      resp <- Do env req ;;
      match resp with
      | DoError _ => ret (setURL (Config.URL device) zero)
      | DoOK StatusCode body =>
          if (StatusCode =? StatusOK)%Z then
            match body with
            | ReadOK content => parseBody device content
            | ReadError err =>
                if Contains err "malformed chunked encoding" then
                  let req := HeaderSet req "Accept-Encoding" "identity" in
                  resp <- Do env req ;;
                  match resp with
                  | DoError _ => ret (timedOut (Config.URL device))
                  | DoOK _ (ReadError _) => ret (timedOut (Config.URL device))
                  | DoOK _ (ReadOK content) => parseBody device content
                  end
                else ret (timedOut (Config.URL device))
            end
          else if (StatusCode =? StatusUnauthorized)%Z then
            ret (down (Config.URL device) "Unauthorized - check credentials")
          else if (StatusCode =? StatusForbidden)%Z then
            ret (down (Config.URL device) "Forbidden - access denied")
          else if (StatusCode =? StatusNotFound)%Z then
            ret (down (Config.URL device) "Not found - check URL")
          else if (StatusCode =? StatusInternalServerError)%Z then
            ret (down (Config.URL device) "Internal server error")
          else
            ret (setName (Config.URL device)
                   (down (Config.URL device) ("HTTP error " ++ formatInt StatusCode)))
      end
  end.

(** [GetAndResetDeviceCount] *)
Definition GetAndResetDeviceCount : M Z := SwapInt64 0.

(** [GetDeviceCount] *)
Definition GetDeviceCount : M Z := count <- LoadInt64 ;; ret count.

(** The body of [for device := range jobs] in [worker]: the record that
    goes to the results channel. *)
Definition workerBody (env : Env) (device : Config.Device) : M SuplaInfo :=
  fun w => match FetchAndParse env device w with
           | (Error err, w') => (Return (down (Config.URL device) ("Error: " ++ err)), w')
           | r => r
           end.

End Parser.

(** ** FetchAndParseWithPool and worker: the goroutines

    The main goroutine and the workers it starts, interleaved one atomic
    action at a time.  Both channels are buffered with capacity
    [len(devices)]; a send is enabled while the buffer has room, a receive
    while it is not empty (with no targets the channels are unbuffered and
    nothing is ever sent).  The call of [FetchAndParse] is one action: the
    only shared variable it touches is [deviceCount], by a single atomic
    add.  The network picks any [Env] for each call. *)
Module Pool.
Import Parser.
Local Open Scope list_scope.

(** Where the main goroutine stands in [FetchAndParseWithPool]. *)
Inductive MainPC : Type :=
| Spawning (w : Z)                            (* for w := 0; w < numWorkers; w++ *)
| Sending (rest : list Config.Device)         (* for _, device := range devices *)
| Collecting (i : nat) (infos : list SuplaInfo)  (* for i := 0; i < len(devices); i++ *)
| Returned (infos : list SuplaInfo).          (* return infos *)

(** Where a worker goroutine stands in [worker]. *)
Inductive WorkerPC : Type :=
| Receiving                                   (* for device := range jobs *)
| Fetching (device : Config.Device)           (* FetchAndParse(device) *)
| Delivering (info : SuplaInfo)               (* results <- ... *)
| Exited                                      (* jobs closed and drained *)
| Panicked (device : Config.Device).          (* unrecovered panic: the process dies *)

Record PoolState : Type := mkState {
  main : MainPC;
  workers : list WorkerPC;
  jobs : list Config.Device;      (* buffer of the jobs channel *)
  closed : bool;                  (* close(jobs) has run *)
  results : list SuplaInfo;       (* buffer of the results channel *)
  world : World
}.

Definition isPanicked (w : WorkerPC) : bool :=
  match w with Panicked _ => true | _ => false end.

(** A panic in any goroutine ends the whole process. *)
Definition crashed (s : PoolState) : bool := existsb isPanicked (workers s).

Definition init (w0 : World) : PoolState :=
  mkState (Spawning 0) [] [] false [] w0.

Section Run.
Variable devices : list Config.Device.
Variable numWorkers : Z.

Inductive step : PoolState -> PoolState -> Prop :=
| step_go : forall s w,
    crashed s = false -> main s = Spawning w -> (w < numWorkers)%Z ->
    step s (mkState (Spawning (w + 1)) (workers s ++ [Receiving])
                    (jobs s) (closed s) (results s) (world s))
| step_spawned : forall s w,
    crashed s = false -> main s = Spawning w -> (numWorkers <= w)%Z ->
    step s (mkState (Sending devices) (workers s)
                    (jobs s) (closed s) (results s) (world s))
| step_send : forall s device rest,
    crashed s = false -> main s = Sending (device :: rest) ->
    List.length (jobs s) < List.length devices ->
    step s (mkState (Sending rest) (workers s)
                    (jobs s ++ [device]) (closed s) (results s) (world s))
| step_close : forall s,
    crashed s = false -> main s = Sending [] ->
    step s (mkState (Collecting 0 []) (workers s)
                    (jobs s) true (results s) (world s))
| step_collect : forall s i infos info rest,
    crashed s = false -> main s = Collecting i infos ->
    i < List.length devices -> results s = info :: rest ->
    step s (mkState (Collecting (S i) (infos ++ [info])) (workers s)
                    (jobs s) (closed s) rest (world s))
| step_return : forall s i infos,
    crashed s = false -> main s = Collecting i infos ->
    List.length devices <= i ->
    step s (mkState (Returned infos) (workers s)
                    (jobs s) (closed s) (results s) (world s))
| step_receive : forall s ws1 ws2 device rest,
    crashed s = false -> workers s = ws1 ++ Receiving :: ws2 ->
    jobs s = device :: rest ->
    step s (mkState (main s) (ws1 ++ Fetching device :: ws2)
                    rest (closed s) (results s) (world s))
| step_drained : forall s ws1 ws2,
    crashed s = false -> workers s = ws1 ++ Receiving :: ws2 ->
    jobs s = [] -> closed s = true ->
    step s (mkState (main s) (ws1 ++ Exited :: ws2)
                    (jobs s) (closed s) (results s) (world s))
| step_fetch : forall s ws1 ws2 device env info w',
    crashed s = false -> workers s = ws1 ++ Fetching device :: ws2 ->
    workerBody env device (world s) = (Return info, w') ->
    step s (mkState (main s) (ws1 ++ Delivering info :: ws2)
                    (jobs s) (closed s) (results s) w')
| step_panic : forall s ws1 ws2 device env msg w',
    crashed s = false -> workers s = ws1 ++ Fetching device :: ws2 ->
    workerBody env device (world s) = (Panic msg, w') ->
    step s (mkState (main s) (ws1 ++ Panicked device :: ws2)
                    (jobs s) (closed s) (results s) w')
| step_deliver : forall s ws1 ws2 info,
    crashed s = false -> workers s = ws1 ++ Delivering info :: ws2 ->
    List.length (results s) < List.length devices ->
    step s (mkState (main s) (ws1 ++ Receiving :: ws2)
                    (jobs s) (closed s) (results s ++ [info]) (world s)).

(** Runs: any number of steps. *)
Inductive steps : PoolState -> PoolState -> Prop :=
| steps_refl : forall s, steps s s
| steps_snoc : forall s1 s2 s3, steps s1 s2 -> step s2 s3 -> steps s1 s3.

(** The urls of the targets and records a state holds, stage by stage. *)
Definition pendingOf (m : MainPC) : list Config.Device :=
  match m with
  | Spawning _ => devices
  | Sending rest => rest
  | _ => []
  end.

Definition infosOf (m : MainPC) : list SuplaInfo :=
  match m with
  | Collecting _ infos => infos
  | Returned infos => infos
  | _ => []
  end.

Definition heldBy (w : WorkerPC) : list string :=
  match w with
  | Fetching device => [Config.URL device]
  | Delivering info => [URL info]
  | Panicked device => [Config.URL device]
  | _ => []
  end.

Definition urls (s : PoolState) : list string :=
  (map Config.URL (pendingOf (main s)) ++ map Config.URL (jobs s)
   ++ flat_map heldBy (workers s)
   ++ map URL (results s) ++ map URL (infosOf (main s)))%list.

(** How many calls of [FetchAndParse] have finished. *)
Definition attemptOf (w : WorkerPC) : nat :=
  match w with
  | Delivering _ => 1
  | Panicked _ => 1
  | _ => 0
  end.

Definition attempts (s : PoolState) : nat :=
  list_sum (map attemptOf (workers s)) + List.length (results s)
  + List.length (infosOf (main s)).

(** A bound on the number of steps still possible. *)
Definition mainWeight (m : MainPC) : nat :=
  match m with
  | Spawning w => 2 * Z.to_nat (numWorkers - w) + 3 + 5 * List.length devices
  | Sending rest => 2 + 5 * List.length rest
  | Collecting _ _ => 1
  | Returned _ => 0
  end.

Definition workerWeight (w : WorkerPC) : nat :=
  match w with
  | Receiving => 1
  | Fetching _ => 4
  | Delivering _ => 3
  | Exited => 0
  | Panicked _ => 0
  end.

Definition measure (s : PoolState) : nat :=
  mainWeight (main s) + 4 * List.length (jobs s)
  + list_sum (map workerWeight (workers s)) + List.length (results s).

End Run.

End Pool.

(** ** [updateMetrics] of package [main], as far as the counter goes: the
    reset before the cycle.  The cycle itself is a run of [Pool.step] from
    [Pool.init] of the world this leaves. *)
Definition resetBeforeCycle (w : Parser.World) : Parser.World :=
  snd (Parser.GetAndResetDeviceCount w).

(** ** Names for the statements below *)

Import Strings Regexp Goquery Http Parser.

(** The request [FetchAndParse] sends first for a device. *)
Definition firstRequest (device : Config.Device) : Request :=
  SetBasicAuth (mkRequest "GET" (Config.URL device) None [])
               (Config.Username device) (Config.Password device).

(** The request of the retry. *)
Definition retryRequest (device : Config.Device) : Request :=
  HeaderSet (firstRequest device) "Accept-Encoding" "identity".

(** A page made of one [span] around one text node. *)
Definition spanPage (text : string) : Page :=
  Parsed [ElementNode "span" [TextNode text]].

(** Sample inputs. *)
Definition kitchen : Config.Device := Config.mkDevice "http://10.0.0.7" "admin" "secret".
Definition world0 : World := mkWorld 0 [].

(** A device that answers every request with status [code] and body [body]. *)
Definition answering (code : Z) (body : Body) : Env :=
  mkEnv (fun _ => None) (fun _ => DoOK code body).

(** A device that cannot be reached. *)
Definition unreachable : Env :=
  mkEnv (fun _ => None) (fun _ => DoError "connection refused").

(** A target whose url [http.NewRequest] rejects. *)
Definition malformedURL (reason : string) : Env :=
  mkEnv (fun _ => Some reason) (fun _ => DoError "unused").

(** A device whose first answer breaks off with [err] and whose answer to
    the retry is [second]. *)
Definition flaky (err : string) (second : Response) : Env :=
  mkEnv (fun _ => None)
        (fun req => match Header req with
                    | [] => DoOK 200 (ReadError err)
                    | _ => second
                    end).

(** The message of the one run-time panic the extractor can raise. *)
Definition indexPanic : string := "index out of range".

(** An outcome that is a value or that panic, never an [error]. *)
Definition noError {A} (o : outcome A) : Prop :=
  (exists a, o = Return a) \/ o = Panic indexPanic.

(** The text has [v<digit>] at byte offset [i]. *)
Definition versionAt (s : string) (i : nat) : bool :=
  match drop i s with
  | String c (String d _) => Ascii.eqb c "v" && digit d
  | _ => false
  end.

(** The value of a section: the trimmed text between the first [section]
    and the next [next] after it, as the sections loop computes it. *)
Definition between (text section next : string) : outcome string :=
  let! afterSection := index (Split text section) 1 in
  let! value := index (Split afterSection next) 0 in
  Return (TrimSpace value).

(** The name as the specification words it: the trimmed text of the first
    [h1] element, empty when the page has none. *)
Definition firstHeadingTrimmed (doc : Document) : string :=
  match Find doc "h1" with
  | [] => ""
  | h :: _ => TrimSpace (nodeText h)
  end.

(** The fields a marker block leaves alone. *)
Definition sameIdentity (a b : SuplaInfo) : Prop :=
  Name a = Name b /\ Up a = Up b /\ URL a = URL b.

(** The text the MAC pattern is searched in: the trimmed text between the
    first "MAC:" and the next one (or the end); none without the marker. *)
Definition macText (text : string) : option string :=
  match Split text "MAC:" with
  | _ :: part :: _ => Some (TrimSpace part)
  | _ => None
  end.

(** The text handed to [strconv.ParseFloat]: what follows the first
    "Free Mem:" up to the next "Free Mem:" or "Mode:", trimmed, then cut by
    the pattern [(?i)kb?$]. *)
Definition memText (text : string) : option string :=
  match Split text "Free Mem:" with
  | _ :: parts :: _ =>
      match Split parts "Mode:" with
      | mem :: _ => Some (ReplaceAllString kbSuffix (TrimSpace mem) "")
      | [] => None
      end
  | _ => None
  end.

(** The endings the pattern [(?i)kb?$] cuts: a letter k of either case (or
    the Kelvin sign, which folds to it), alone or followed by a letter b of
    either case. *)
Definition kLetters : list string := ["k"; "K"; bytes [226; 132; 170]].

Definition kbEndings : list string :=
  flat_map (fun k => [k ++ "b"; k ++ "B"; k]) kLetters.

(** Membership test on strings. *)
Definition inb (s : string) (l : list string) : bool := existsb (String.eqb s) l.

(** Some proper suffix of [t] is one of the endings. *)
Definition endingInside (t : string) : bool :=
  existsb (fun j => inb (drop j t) kbEndings) (seq 1 (String.length t - 1)).

(** ** Invariants of the pool *)

Import Pool.

Section PoolInvariants.
Variable devices : list Config.Device.
Variable numWorkers : Z.

(** What the program counter of the main goroutine says about the rest
    of the state. *)
Definition phaseOK (s : PoolState) : Prop :=
  match main s with
  | Spawning w =>
      (0 <= w <= Z.max 0 numWorkers)%Z /\ jobs s = [] /\ closed s = false
      /\ results s = [] /\ workers s = repeat Receiving (Z.to_nat w)
  | Sending _ =>
      closed s = false /\ Z.of_nat (List.length (workers s)) = Z.max 0 numWorkers
  | Collecting i infos =>
      closed s = true /\ i = List.length infos
      /\ Z.of_nat (List.length (workers s)) = Z.max 0 numWorkers
  | Returned infos =>
      closed s = true /\ List.length devices <= List.length infos
  end.

(** A worker leaves its loop only once the jobs channel is closed and
    empty. *)
Definition exitedOK (s : PoolState) : Prop :=
  In Exited (workers s) -> jobs s = [] /\ closed s = true.

(** Every target is at exactly one stage, under its own url. *)
Definition conserved (s : PoolState) : Prop :=
  Permutation (urls devices s) (map Config.URL devices).

Definition invariant (s : PoolState) : Prop :=
  conserved s /\ phaseOK s /\ exitedOK s.

(** The counter, started from 0, has counted the finished calls. *)
Definition counted (s : PoolState) : Prop :=
  deviceCount (world s) = wrap64 (Z.of_nat (attempts s)).

(** A worker that holds neither a target nor a record. *)
Definition idle (w : WorkerPC) : bool :=
  match w with
  | Receiving | Exited | Panicked _ => true
  | _ => false
  end.

End PoolInvariants.

(** A run of the pool on one target with one worker, the device out of
    reach: the record that comes back and the states on the way. *)
Definition sampleRecord : SuplaInfo := setURL "http://10.0.0.7" zero.
Definition sampleWorld : World := mkWorld 1 [firstRequest kitchen].

Definition sampleRun : list PoolState :=
  [ mkState (Spawning 0) [] [] false [] world0;
    mkState (Spawning 1) [Receiving] [] false [] world0;
    mkState (Sending [kitchen]) [Receiving] [] false [] world0;
    mkState (Sending []) [Receiving] [kitchen] false [] world0;
    mkState (Collecting 0 []) [Receiving] [kitchen] true [] world0;
    mkState (Collecting 0 []) [Fetching kitchen] [] true [] world0;
    mkState (Collecting 0 []) [Delivering sampleRecord] [] true [] sampleWorld;
    mkState (Collecting 0 []) [Receiving] [] true [sampleRecord] sampleWorld;
    mkState (Collecting 1 [sampleRecord]) [Receiving] [] true [] sampleWorld;
    mkState (Returned [sampleRecord]) [Receiving] [] true [] sampleWorld ].

Definition sampleEnd : PoolState :=
  mkState (Returned [sampleRecord]) [Receiving] [] true [] sampleWorld.

(** One target and no worker: where the main goroutine waits for ever. *)
Definition stuck : PoolState :=
  mkState (Collecting 0 []) [] [kitchen] true [] world0.

(** What stays true of a run without workers. *)
Definition workerless (s : PoolState) : Prop :=
  workers s = [] /\ results s = []
  /\ match main s with
     | Spawning w => w = 0%Z
     | Sending _ => True
     | Collecting i infos => i = 0 /\ infos = []
     | Returned _ => False
     end.

(** Consecutive states of a list are steps. *)
Fixpoint chained (devices : list Config.Device) (numWorkers : Z)
         (s : PoolState) (l : list PoolState) : Prop :=
  match l with
  | [] => True
  | s' :: l' => step devices numWorkers s s' /\ chained devices numWorkers s' l'
  end.

(** ** Package [config], the rest of it

    [url.Parse] is the oracle [urlError] that [Http.NewRequest] consults
    too; [os.ReadFile] and [yaml.Unmarshal] are oracles of their own. *)
Module Settings.

Record GlobalConfig : Type := mkGlobalConfig {
  Interval : Z;
  Port : Z;
  LogLevel : string;
  Timeout : Z;
  Workers : Z
}.

Record Config : Type := mkConfig {
  Global : GlobalConfig;
  Devices : list Config.Device
}.

(** [var defaultGlobal] *)
Definition defaultGlobal : GlobalConfig := mkGlobalConfig 60 2112 "info" 5 5.

(** The loop over the devices in [validate]; [i] is the index. *)
Fixpoint validateDevices (urlError : string -> option string) (i : Z)
         (devices : list Config.Device) : option string :=
  match devices with
  | [] => None
  | dev :: rest =>
      if String.eqb (Config.URL dev) "" then
        Some ("device " ++ formatInt i ++ ": URL is required")
      else
        match urlError (Config.URL dev) with
        | Some err => Some ("device " ++ formatInt i ++ ": invalid URL: " ++ err)
        | None =>
            if String.eqb (Config.Username dev) "" then
              Some ("device " ++ formatInt i ++ ": username is required")
            else if String.eqb (Config.Password dev) "" then
              Some ("device " ++ formatInt i ++ ": password is required")
            else validateDevices urlError (i + 1) rest
        end
  end.

(** [validate]: [None] is the nil error. *)
Definition validate (urlError : string -> option string) (cfg : Config) : option string :=
  if (Interval (Global cfg) <? 1)%Z then
    Some "global.interval must be greater than 0"
  else if ((Port (Global cfg) <? 1) || (65535 <? Port (Global cfg)))%Z then
    Some "global.port must be between 1 and 65535"
  else if negb (String.eqb (LogLevel (Global cfg)) "debug"
                || String.eqb (LogLevel (Global cfg)) "info"
                || String.eqb (LogLevel (Global cfg)) "warn"
                || String.eqb (LogLevel (Global cfg)) "error") then
    Some "global.log_level must be one of: debug, info, warn, error"
  else if ((Timeout (Global cfg) <? 1) || (30 <? Timeout (Global cfg)))%Z then
    Some ("global.timeout must be between 1 and 30 seconds, got "
          ++ formatInt (Timeout (Global cfg)))
  else if ((Workers (Global cfg) <? 1) || (100 <? Workers (Global cfg)))%Z then
    Some "global.workers must be between 1 and 100"
  else if (List.length (Devices cfg) =? 0)%nat then
    Some "no devices configured"
  else validateDevices urlError 0 (Devices cfg).

(** The file system and the YAML decoder, as [LoadConfig] sees them:
    [Unmarshal data cfg] is the value [yaml.Unmarshal(data, &cfg)] leaves in
    [cfg]. *)
Record Outside : Type := mkOutside {
  ReadFile : string -> outcome string;
  Unmarshal : string -> Config -> outcome Config;
  parseURL : string -> option string
}.

(** [LoadConfig] *)
Definition LoadConfig (out : Outside) (filename : string) : outcome Config :=
  match ReadFile out filename with
  | Error err => Error ("error reading config file: " ++ err)
  | Panic msg => Panic msg
  | Return data =>
      let cfg := mkConfig defaultGlobal [] in
      match Unmarshal out data cfg with
      | Error err => Error ("error parsing config: " ++ err)
      | Panic msg => Panic msg
      | Return cfg =>
          match validate (parseURL out) cfg with
          | Some err => Error ("invalid config: " ++ err)
          | None => Return cfg
          end
      end
  end.

(** [var globalConfig *Config]: [None] is the nil pointer. *)
Definition Set_ (cfg : option Config) (globalConfig : option Config) : option Config :=
  cfg.

(** [Get] *)
Definition Get (globalConfig : option Config) : Config :=
  match globalConfig with
  | None => mkConfig defaultGlobal []
  | Some cfg => cfg
  end.

(** [time.Second], in nanoseconds. *)
Definition Second : Z := 1000000000.

(** [GetTimeout]: a [time.Duration], an int64 of nanoseconds. *)
Definition GetTimeout (globalConfig : option Config) : Z :=
  wrap64 (wrap64 (Timeout (Global (Get globalConfig))) * Second).

(** [GetWorkers] *)
Definition GetWorkers (globalConfig : option Config) : Z :=
  Workers (Global (Get globalConfig)).

End Settings.

(** ** Package [unicode/utf8] *)
Module Utf8.

Definition inRange (lo hi : nat) (c : ascii) : bool :=
  ((lo <=? nat_of_ascii c) && (nat_of_ascii c <=? hi))%nat.

(** A continuation byte, [locb] to [hicb]. *)
Definition continuation (c : ascii) : bool := inRange 128 191 c.

(** The table [first] with [acceptRanges]: the size of the sequence a
    byte starts and the range its second byte has to be in; [None] for a
    byte that starts none. *)
Definition first (c : ascii) : option (nat * (nat * nat)) :=
  let n := nat_of_ascii c in
  if (n <? 128)%nat then Some (1, (0, 0))
  else if (n <? 194)%nat then None
  else if (n <? 224)%nat then Some (2, (128, 191))
  else if (n =? 224)%nat then Some (3, (160, 191))
  else if (n =? 237)%nat then Some (3, (128, 159))
  else if (n <? 240)%nat then Some (3, (128, 191))
  else if (n =? 240)%nat then Some (4, (144, 191))
  else if (n <? 244)%nat then Some (4, (128, 191))
  else if (n =? 244)%nat then Some (4, (128, 143))
  else None.

(** [utf8.ValidString] *)
Fixpoint ValidString (s : string) : bool :=
  match s with
  | EmptyString => true
  | String c rest =>
      match first c with
      | Some (1, _) => ValidString rest
      | Some (2, (lo, hi)) =>
          match rest with
          | String c1 r => inRange lo hi c1 && ValidString r
          | _ => false
          end
      | Some (3, (lo, hi)) =>
          match rest with
          | String c1 (String c2 r) =>
              inRange lo hi c1 && continuation c2 && ValidString r
          | _ => false
          end
      | Some (4, (lo, hi)) =>
          match rest with
          | String c1 (String c2 (String c3 r)) =>
              inRange lo hi c1 && continuation c2 && continuation c3 && ValidString r
          | _ => false
          end
      | _ => false
      end
  end.

End Utf8.

(** ** Package [metrics]

    A gauge vector is the list of its series, each the values of its
    labels and the value of the gauge; label values identify a series. *)
Module Metrics.
Import Strconv.

Definition ErrorValue : string := "ERROR".
Definition UnknownValue : string := "UNKNOWN".

Definition Series : Type := list (list string * float64).

(** The variable labels each vector is declared with. *)
Definition infoLabels : list string := ["url"; "name"].
Definition stateLabels : list string := ["url"; "state"].
Definition networkLabels : list string := ["url"; "mac"].
Definition firmwareLabels : list string := ["url"; "firmware"; "name"].
Definition memoryLabels : list string := ["url"; "name"].
Definition upLabels : list string := ["url"].

Record Registry : Type := mkRegistry {
  SuplaDeviceInfo : Series;
  SuplaDeviceState : Series;
  SuplaDeviceNetwork : Series;
  SuplaDeviceFirmware : Series;
  SuplaDeviceMemory : Series;
  SuplaDeviceUp : Series;
  SuplaDeviceCount : float64
}.

(** Nothing registered yet; a gauge starts at 0. *)
Definition empty : Registry := mkRegistry [] [] [] [] [] [] (Finite 0%Q).

Definition sameValues (a b : list string) : bool :=
  if list_eq_dec string_dec a b then true else false.

(** [Gauge.Set] on the series of the given label values, which is created
    when it is not there. *)
Fixpoint setSeries (series : Series) (values : list string) (v : float64) : Series :=
  match series with
  | [] => [(values, v)]
  | (values', v') :: rest =>
      if sameValues values' values then (values, v) :: rest
      else (values', v') :: setSeries rest values v
  end.

(** [vec.WithLabelValues(values...).Set(v)]: [WithLabelValues] panics when
    the number of values is not the number of labels, and when a value is
    not valid UTF-8. *)
Definition WithLabelValuesSet (labels : list string) (series : Series)
           (values : list string) (v : float64) : outcome Series :=
  if negb (List.length values =? List.length labels)%nat
  then Panic "inconsistent label cardinality"
  else if forallb Utf8.ValidString values
  then Return (setSeries series values v)
  else Panic "label value is not valid UTF-8".

(** Position of a label among the labels of a vector. *)
Fixpoint labelIndex (labels : list string) (name : string) : option nat :=
  match labels with
  | [] => None
  | l :: rest =>
      if String.eqb l name then Some 0
      else option_map S (labelIndex rest name)
  end.

(** The series carries every one of the given label values. *)
Definition matchesAll (labels : list string) (wanted : list (string * string))
           (values : list string) : bool :=
  forallb (fun nv =>
             match labelIndex labels (fst nv) with
             | Some i =>
                 match nth_error values i with
                 | Some x => String.eqb x (snd nv)
                 | None => false
                 end
             | None => false
             end) wanted.

(** [vec.DeletePartialMatch(prometheus.Labels{...})] *)
Definition DeletePartialMatch (labels : list string) (series : Series)
           (wanted : list (string * string)) : Series :=
  filter (fun s => negb (matchesAll labels wanted (fst s))) series.

(** [getOrDefault] *)
Definition getOrDefault (value defaultValue : string) : string :=
  if String.eqb value "" then defaultValue else value.

(** A float64 kept as the rational [q] is 0 when [q] rounds to 0. *)
Definition tiny : Q := Qmake 1 (2 ^ 1075).

Definition isZero (f : float64) : bool :=
  match f with
  | Finite q => Qle_bool (Qopp tiny) q && Qle_bool q tiny
  | _ => false
  end.

(** [f > 0] *)
Definition isPositive (f : float64) : bool :=
  match f with
  | Finite q => negb (Qle_bool q tiny)
  | Inf neg => negb neg
  | NaN => false
  end.

(** [float64(n)] for an int64, up to rounding. *)
Definition ofInt64 (n : Z) : float64 := Finite (inject_Z n).

(** [UpdateMetrics] *)
Definition UpdateMetrics (info : SuplaInfo) (w : World) (r : Registry) : outcome Registry :=
  let upValue := if Up info then Finite 1%Q else Finite 0%Q in
  let! up := WithLabelValuesSet upLabels (SuplaDeviceUp r) [URL info] upValue in
  if isZero upValue then
    Return (mkRegistry (SuplaDeviceInfo r) (SuplaDeviceState r) (SuplaDeviceNetwork r)
                       (SuplaDeviceFirmware r) (SuplaDeviceMemory r) up (SuplaDeviceCount r))
  else
    let info0 := DeletePartialMatch infoLabels (SuplaDeviceInfo r) [("url", URL info)] in
    let state0 := DeletePartialMatch stateLabels (SuplaDeviceState r) [("url", URL info)] in
    let network0 := DeletePartialMatch networkLabels (SuplaDeviceNetwork r) [("url", URL info)] in
    let firmware0 := DeletePartialMatch firmwareLabels (SuplaDeviceFirmware r) [("url", URL info)] in
    let memory0 := DeletePartialMatch memoryLabels (SuplaDeviceMemory r) [("url", URL info)] in
    let! info1 := WithLabelValuesSet infoLabels info0
                    [URL info; getOrDefault (Name info) UnknownValue] (Finite 1%Q) in
    let! state1 := WithLabelValuesSet stateLabels state0
                     [URL info; getOrDefault (State info) UnknownValue] (Finite 1%Q) in
    let! network1 := WithLabelValuesSet networkLabels network0
                       [URL info; getOrDefault (MAC info) UnknownValue] (Finite 1%Q) in
    let! firmware1 := WithLabelValuesSet firmwareLabels firmware0
                        [URL info; getOrDefault (Firmware info) UnknownValue;
                         getOrDefault (Name info) UnknownValue] (Finite 1%Q) in
    let! memory1 :=
      (if isPositive (FreeMem info)
       then WithLabelValuesSet memoryLabels memory0
              [URL info; getOrDefault (Name info) UnknownValue] (FreeMem info)
       else Return memory0) in
    let count := match GetDeviceCount w with
                 | (Return n, _) => ofInt64 n
                 | _ => SuplaDeviceCount r
                 end in
    Return (mkRegistry info1 state1 network1 firmware1 memory1 up count).

(** The value of the series with exactly these label values. *)
Fixpoint lookup (series : Series) (values : list string) : option float64 :=
  match series with
  | [] => None
  | (values', v) :: rest =>
      if sameValues values' values then Some v else lookup rest values
  end.

(** The series of a vector whose first label, the url, is [url]. *)
Definition ofURL (series : Series) (url : string) : Series :=
  filter (fun s => match fst s with
                   | u :: _ => String.eqb u url
                   | [] => false
                   end) series.

End Metrics.

(** ** Package [strings], continued *)
Module Lower.

Definition isASCII (s : string) : bool :=
  forallb (fun c => (nat_of_ascii c <? 128)%nat) (list_ascii_of_string s).

Definition lowerByte (c : ascii) : ascii :=
  if ((65 <=? nat_of_ascii c) && (nat_of_ascii c <=? 90))%nat
  then ascii_of_nat (nat_of_ascii c + 32) else c.

Fixpoint lowerBytes (s : string) : string :=
  match s with
  | EmptyString => EmptyString
  | String c s' => String (lowerByte c) (lowerBytes s')
  end.

(** [strings.ToLower]: byte by byte on ASCII text; text with other runes
    goes through [unicode.ToLower], here [mapLower]. *)
Definition ToLower (mapLower : string -> string) (s : string) : string :=
  if isASCII s then lowerBytes s else mapLower s.

End Lower.

(** ** Package [main] *)
Module Main.
Import Settings Metrics.

(** [slog.Level] *)
Inductive Level : Type := LevelDebug | LevelInfo | LevelWarn | LevelError.

(** [getLogLevel] *)
Definition getLogLevel (mapLower : string -> string) (level : string) : Level :=
  let l := Lower.ToLower mapLower level in
  if String.eqb l "debug" then LevelDebug
  else if String.eqb l "info" then LevelInfo
  else if String.eqb l "warn" then LevelWarn
  else if String.eqb l "error" then LevelError
  else LevelInfo.

(** How the start of [main] ends. *)
Inductive Startup : Type :=
| Loaded (cfg : Config) (globalConfig : option Config)   (* goes on with [cfg] *)
| ExitStatus (code : Z)                                   (* os.Exit(code) *)
| NilDereference                                          (* cfg.Global with cfg == nil *)
| Panicking (msg : string).                               (* a panic below [LoadConfig] *)

(** [configPaths] *)
Definition configPaths (configFile : string) : list string :=
  [configFile; "config/config.yaml"; "./config.yaml"; "../config.yaml"].

(** The loop [for _, path := range configPaths]: [cfg] and [globalConfig]
    as they stand, [stat path] whether [os.Stat] finds the file. *)
Fixpoint loadLoop (out : Outside) (stat : string -> bool) (paths : list string)
         (cfg globalConfig : option Config) : Startup :=
  match paths with
  | [] =>
      match cfg with
      | Some c => Loaded c globalConfig
      | None => NilDereference
      end
  | path :: rest =>
      if stat path then
        match LoadConfig out path with
        | Return c => loadLoop out stat rest (Some c) (Set_ (Some c) globalConfig)
        | Error _ => ExitStatus 1
        | Panic msg => Panicking msg
        end
      else loadLoop out stat rest cfg globalConfig
  end.

(** [main] up to the first use of [cfg]. *)
Definition loadConfiguration (out : Outside) (stat : string -> bool)
           (configFile : string) : Startup :=
  loadLoop out stat (configPaths configFile) None None.

(** [for _, info := range results { metrics.UpdateMetrics(info) }]; the
    records are never nil. *)
Fixpoint updateAll (infos : list SuplaInfo) (w : World) (r : Registry) : outcome Registry :=
  match infos with
  | [] => Return r
  | info :: rest => let! r' := UpdateMetrics info w r in updateAll rest w r'
  end.

(** [updateMetrics]: one cycle.  The pool's run is any run of [Pool.step]
    to the return of the main goroutine. *)
Inductive updateMetrics (devices : list Config.Device) (cfg : Config) :
  World * Registry -> World * Registry -> Prop :=
| cycle : forall w r s infos r',
    Pool.steps devices (Workers (Global cfg))
               (Pool.init (snd (GetAndResetDeviceCount w))) s ->
    Pool.main s = Pool.Returned infos ->
    updateAll infos (Pool.world s) r = Return r' ->
    updateMetrics devices cfg (w, r) (snd (GetAndResetDeviceCount (Pool.world s)), r').

End Main.

(** ** Vocabulary of the further properties *)

(** A device entry that [validate] lets through. *)
Definition deviceOK (urlError : string -> option string) (dev : Config.Device) : Prop :=
  Config.URL dev <> "" /\ urlError (Config.URL dev) = None
  /\ Config.Username dev <> "" /\ Config.Password dev <> "".

(** Global settings that [validate] lets through. *)
Definition globalOK (g : Settings.GlobalConfig) : Prop :=
  (1 <= Settings.Interval g)%Z
  /\ (1 <= Settings.Port g <= 65535)%Z
  /\ In (Settings.LogLevel g) ["debug"; "info"; "warn"; "error"]
  /\ (1 <= Settings.Timeout g <= 30)%Z
  /\ (1 <= Settings.Workers g <= 100)%Z.

(** Sample settings. *)
Definition sampleConfig : Settings.Config :=
  Settings.mkConfig Settings.defaultGlobal [kitchen].

Definition allParse : string -> option string := fun _ => None.

(** A file system with one file, which decodes to [sampleConfig]. *)
Definition sampleOutside : Settings.Outside :=
  Settings.mkOutside
    (fun path => if String.eqb path "config/config.yaml"
                 then Return "devices: ..." else Error "no such file or directory")
    (fun _ _ => Return sampleConfig)
    allParse.

(** The credentials and the address every request of a call has to carry. *)
Definition addressedTo (device : Config.Device) (req : Request) : Prop :=
  Method req = "GET" /\ Target req = Config.URL device
  /\ BasicAuth req = Some (Config.Username device, Config.Password device).

(** A span text that starts the four-marker block without "Firmware:" or
    without "GUID:". *)
Definition partialBlock (text : string) : bool :=
  Contains text "LAST STATE:"
  && negb (Contains text "Firmware:" && Contains text "GUID:").

(** The texts of the spans of a page, in document order. *)
Definition spanTexts (doc : Document) : list string :=
  map nodeText (Find doc "span").

(** A text without a colon. *)
Fixpoint noColon (s : string) : bool :=
  match s with
  | EmptyString => true
  | String c s' => negb (Ascii.eqb c ":") && noColon s'
  end.

(** A marker: some text without a colon, then one colon. *)
Fixpoint isMarker (s : string) : bool :=
  match s with
  | EmptyString => false
  | String c EmptyString => Ascii.eqb c ":"
  | String c s' => negb (Ascii.eqb c ":") && isMarker s'
  end.

(** [x] is what is left of [y] from some offset on. *)
Definition isSuffixOf (x y : string) : bool :=
  existsb (fun j => String.eqb (drop j y) x) (seq 0 (S (String.length y))).

(** Two markers neither of which ends with the other. *)
Definition apart (m1 m2 : string) : bool :=
  negb (isSuffixOf m1 m2) && negb (isSuffixOf m2 m1).

(** The firmware value after the cut at the first [v<digit>]. *)
Definition versionOf (value : string) : string :=
  match FindStringIndex firmwareVersion value with
  | Some loc => drop (fst loc) value
  | None => value
  end.

(** In [x ++ m ++ t] the marker [m] is first found at the end of [x],
    whatever [t] is. *)
Definition firstAt (x m : string) : Prop :=
  forall t, Index (x ++ m ++ t) m = Some (String.length x).

(** The number [ParseHTML] makes of a memory portion: trimmed, cut by
    [(?i)kb?$], parsed; [previous] when it does not parse. *)
Definition memoryOf (mem : string) (previous : Strconv.float64) : Strconv.float64 :=
  match Strconv.ParseFloat (ReplaceAllString kbSuffix (TrimSpace mem) "") with
  | Return freeMem => freeMem
  | _ => previous
  end.

(** The label values [UpdateMetrics] gives the series of a record. *)
Definition nameLabel (info : SuplaInfo) : string :=
  Metrics.getOrDefault (Name info) Metrics.UnknownValue.
Definition stateLabel (info : SuplaInfo) : string :=
  Metrics.getOrDefault (State info) Metrics.UnknownValue.
Definition macLabel (info : SuplaInfo) : string :=
  Metrics.getOrDefault (MAC info) Metrics.UnknownValue.
Definition firmwareLabel (info : SuplaInfo) : string :=
  Metrics.getOrDefault (Firmware info) Metrics.UnknownValue.

(** The fields of a record that [UpdateMetrics] hands to
    [WithLabelValues]: the url alone when the device is down. *)
Definition labelsOf (info : SuplaInfo) : list string :=
  if Up info
  then [URL info; Name info; State info; MAC info; Firmware info]
  else [URL info].

(** A vector whose first label is the url. *)
Definition urlFirst (labels : list string) : Prop :=
  Metrics.labelIndex labels "url" = Some 0.

(** The value 0 or 1 of a series of [supla_device_up]. *)
Definition isFlag (v : option Strconv.float64) : Prop :=
  v = Some (Strconv.Finite 1%Q) \/ v = Some (Strconv.Finite 0%Q).

(** Settings with one worker, and a registry as one cycle with them
    leaves it. *)
Definition oneWorker : Settings.Config :=
  Settings.mkConfig (Settings.mkGlobalConfig 60 2112 "info" 5 1) [kitchen].

(** A device that is up, with a page of which only the name was found. *)
Definition upRecord : SuplaInfo :=
  setUp true (setURL "http://10.0.0.7" (setName "SUPLA-GATE" zero)).

(** The urls a state of the pool holds, from the records collected back
    to the targets not sent yet. *)
Definition inLine (devices : list Config.Device) (s : PoolState) : list string :=
  (map URL (infosOf (main s)) ++ map URL (results s)
   ++ flat_map heldBy (workers s)
   ++ map Config.URL (jobs s) ++ map Config.URL (pendingOf devices (main s)))%list.

(** The state of [sampleRun] in which the one target is about to be sent,
    and the one in which its record is about to be delivered. *)
Definition aboutToSend : PoolState :=
  mkState (Sending [kitchen]) [Receiving] [] false [] world0.
Definition aboutToDeliver : PoolState :=
  mkState (Collecting 0 []) [Delivering sampleRecord] [] true [] sampleWorld.

(** The end of [sampleRun] once the worker has left its loop. *)
Definition sampleQuiet : PoolState :=
  mkState (Returned [sampleRecord]) [Exited] [] true [] sampleWorld.

(** * Properties *)

(** ** The fetcher: classification of outcomes *)

Lemma NewRequest_ok (env : Env) (device : Config.Device) :
  urlError env (Config.URL device) = None ->
  NewRequest env "GET" (Config.URL device)
  = Return (mkRequest "GET" (Config.URL device) None []).
Proof. intros H. unfold NewRequest. now rewrite H. Qed.

(** Every call adds one to the counter, whatever happens next. *)
Lemma FetchAndParse_counts_once (env : Env) (device : Config.Device) (w : World) :
  deviceCount (snd (FetchAndParse env device w)) = wrap64 (deviceCount w + 1).
Proof.
  unfold FetchAndParse, bind, AddInt64, Do, parseBody, ret, fail, lift.
  destruct (NewRequest env "GET" (Config.URL device)); cbn; try reflexivity.
  destruct (answer env _) as [e | code [content | e]]; cbn; try reflexivity.
  - destruct (code =? StatusOK)%Z.
    + destruct (ParseHTML content); reflexivity.
    + repeat match goal with |- context [if ?b then _ else _] => destruct b end; reflexivity.
  - destruct (code =? StatusOK)%Z.
    + destruct (Contains e "malformed chunked encoding"); cbn; try reflexivity.
      destruct (answer env _) as [e' | code' [content' | e']]; cbn; try reflexivity.
      destruct (ParseHTML content'); reflexivity.
    + repeat match goal with |- context [if ?b then _ else _] => destruct b end; reflexivity.
Qed.

Lemma workerBody_counts_once (env : Env) (device : Config.Device) (w : World) :
  deviceCount (snd (workerBody env device w)) = wrap64 (deviceCount w + 1).
Proof.
  unfold workerBody. rewrite <- (FetchAndParse_counts_once env device w).
  destruct (FetchAndParse env device w) as [[info | err | msg] w']; reflexivity.
Qed.

(** A record that comes back carries the url of the device it was fetched for. *)
Lemma FetchAndParse_url (env : Env) (device : Config.Device) (w w' : World) (info : SuplaInfo) :
  FetchAndParse env device w = (Return info, w') -> URL info = Config.URL device.
Proof.
  unfold FetchAndParse, bind, AddInt64, Do, parseBody, ret, fail, lift.
  destruct (NewRequest env "GET" (Config.URL device)); cbn; try discriminate.
  destruct (answer env _) as [e | code [content | e]]; cbn.
  - intros H; inversion H; reflexivity.
  - destruct (code =? StatusOK)%Z.
    + destruct (ParseHTML content); intros H; inversion H; reflexivity.
    + repeat match goal with |- context [if ?b then _ else _] => destruct b end;
        intros H; inversion H; reflexivity.
  - destruct (code =? StatusOK)%Z.
    + destruct (Contains e "malformed chunked encoding"); cbn.
      * destruct (answer env _) as [e' | code' [content' | e']]; cbn;
          try (intros H; inversion H; reflexivity).
        destruct (ParseHTML content'); intros H; inversion H; reflexivity.
      * intros H; inversion H; reflexivity.
    + repeat match goal with |- context [if ?b then _ else _] => destruct b end;
        intros H; inversion H; reflexivity.
Qed.

Lemma workerBody_url (env : Env) (device : Config.Device) (w w' : World) (info : SuplaInfo) :
  workerBody env device w = (Return info, w') -> URL info = Config.URL device.
Proof.
  unfold workerBody.
  destruct (FetchAndParse env device w) as [[i | err | msg] w1] eqn:E; intros H; inversion H; subst.
  - eapply FetchAndParse_url; eauto.
  - reflexivity.
Qed.

(** The worker never hands an error on: it sends a record or the call panicked. *)
Lemma workerBody_no_error (env : Env) (device : Config.Device) (w w' : World) (err : string) :
  workerBody env device w <> (Error err, w').
Proof.
  unfold workerBody.
  destruct (FetchAndParse env device w) as [[i | e | msg] w1]; intros H; inversion H.
Qed.




(** C8: when the body of a 200 response cannot be read, a "malformed chunked
    encoding" error is answered by exactly one more request, the same with
    [Accept-Encoding: identity]; if that request or its body read fails, or
    the first error was of another kind (then nothing more is sent), the
    record is [up = false], state "Timeout", mode "ERROR".  No call sends
    more than two requests. *)
Theorem body_read_failure_retries_once
        (env : Env) (device : Config.Device) (w : World) (err : string)
        (Hurl : urlError env (Config.URL device) = None)
        (Hans : answer env (firstRequest device) = DoOK 200 (ReadError err)) :
  (Contains err "malformed chunked encoding" = true ->
     wire (snd (FetchAndParse env device w))
     = (wire w ++ [firstRequest device; retryRequest device])%list
     /\ Header (retryRequest device) = [("Accept-Encoding", "identity")]
     /\ ((forall e, answer env (retryRequest device) = DoError e ->
            fst (FetchAndParse env device w) = Return (timedOut (Config.URL device)))
         /\ (forall code e, answer env (retryRequest device) = DoOK code (ReadError e) ->
            fst (FetchAndParse env device w) = Return (timedOut (Config.URL device)))))
  /\
  (Contains err "malformed chunked encoding" = false ->
     wire (snd (FetchAndParse env device w)) = (wire w ++ [firstRequest device])%list
     /\ fst (FetchAndParse env device w) = Return (timedOut (Config.URL device)))
  /\ Up (timedOut (Config.URL device)) = false
  /\ State (timedOut (Config.URL device)) = "Timeout"
  /\ Mode (timedOut (Config.URL device)) = "ERROR"
  /\ (forall env' device' w',
        List.length (wire (snd (FetchAndParse env' device' w')))
        <= List.length (wire w') + 2).
Proof.
  assert (Hrun : FetchAndParse env device w
                 = if Contains err "malformed chunked encoding"
                   then (resp <- Do env (retryRequest device) ;;
                         match resp with
                         | DoError _ => ret (timedOut (Config.URL device))
                         | DoOK _ (ReadError _) => ret (timedOut (Config.URL device))
                         | DoOK _ (ReadOK content) => parseBody device content
                         end)
                          (mkWorld (wrap64 (deviceCount w + 1)) (wire w ++ [firstRequest device]))
                   else (Return (timedOut (Config.URL device)),
                         mkWorld (wrap64 (deviceCount w + 1)) (wire w ++ [firstRequest device]))).
  { unfold FetchAndParse at 1, bind at 1, AddInt64.
    rewrite (NewRequest_ok env device Hurl).
    unfold bind at 1, Do at 1. fold (firstRequest device). rewrite Hans.
    change (200 =? StatusOK)%Z with true. cbv iota.
    destruct (Contains err "malformed chunked encoding"); reflexivity. }
  split; [|split; [|split; [|split; [|split]]]]; try reflexivity.
  - intros Hc. rewrite Hrun, Hc. unfold bind, Do, ret, parseBody, lift. cbn.
    split; [|split; [reflexivity|split]].
    + destruct (answer env (retryRequest device)) as [e | code [content | e]]; cbn.
      * now rewrite <- app_assoc.
      * destruct (ParseHTML content); cbn; now rewrite <- app_assoc.
      * now rewrite <- app_assoc.
    + intros e He. now rewrite He.
    + intros code e He. now rewrite He.
  - intros Hc. rewrite Hrun, Hc. split; reflexivity.
  - clear. intros env device w.
    unfold FetchAndParse, bind, AddInt64, Do, parseBody, ret, fail, lift.
    destruct (NewRequest env "GET" (Config.URL device)); cbn; try lia.
    destruct (answer env _) as [e | code [content | e]]; cbn;
      try (rewrite length_app; cbn; lia).
    + destruct (code =? StatusOK)%Z.
      * destruct (ParseHTML content); cbn; rewrite length_app; cbn; lia.
      * repeat match goal with |- context [if ?b then _ else _] => destruct b end;
          cbn; rewrite length_app; cbn; lia.
    + destruct (code =? StatusOK)%Z.
      * destruct (Contains e "malformed chunked encoding"); cbn.
        -- destruct (answer env _) as [e' | code' [content' | e']]; cbn;
             try (rewrite !length_app; cbn; lia).
           destruct (ParseHTML content'); cbn; rewrite !length_app; cbn; lia.
        -- rewrite length_app; cbn; lia.
      * repeat match goal with |- context [if ?b then _ else _] => destruct b end;
          cbn; rewrite length_app; cbn; lia.
Qed.

Lemma body_read_failure_retries_once_witness :
  wire (snd (FetchAndParse (flaky "http: malformed chunked encoding" (DoError "timeout"))
                           kitchen world0))
  = [firstRequest kitchen; retryRequest kitchen]
  /\ fst (FetchAndParse (flaky "http: malformed chunked encoding" (DoError "timeout"))
                        kitchen world0)
     = Return (timedOut "http://10.0.0.7").
Proof.
  destruct (body_read_failure_retries_once
              (flaky "http: malformed chunked encoding" (DoError "timeout"))
              kitchen world0 "http: malformed chunked encoding" eq_refl eq_refl)
    as [H _].
  destruct (H eq_refl) as (Hw & _ & Hdo & _).
  split; [exact Hw | exact (Hdo "timeout" eq_refl)].
Defined.

(** C10: when the request for a target cannot be built, [FetchAndParse]
    returns an error and no record; the worker turns it into the record
    with the target's url, [up = false] and state "Error: <reason>", which
    it then delivers like any other; the counter has gone up by one and
    nothing was sent. *)
Theorem unbuildable_request_still_yields_a_record
        (env : Env) (device : Config.Device) (w : World) (reason : string)
        (Hurl : urlError env (Config.URL device) = Some reason) :
  fst (FetchAndParse env device w) = Error ("error creating request: " ++ reason)
  /\ (exists info, fst (workerBody env device w) = Return info
        /\ URL info = Config.URL device /\ Up info = false
        /\ State info = "Error: " ++ "error creating request: " ++ reason)
  /\ deviceCount (snd (workerBody env device w)) = wrap64 (deviceCount w + 1)
  /\ wire (snd (workerBody env device w)) = wire w
  /\ (forall devices numWorkers s ws1 ws2,
        Pool.crashed s = false ->
        Pool.workers s = (ws1 ++ Pool.Fetching device :: ws2)%list ->
        Pool.world s = w ->
        exists info w',
          Pool.step devices numWorkers s
            (Pool.mkState (Pool.main s) (ws1 ++ Pool.Delivering info :: ws2)
                          (Pool.jobs s) (Pool.closed s) (Pool.results s) w')
          /\ URL info = Config.URL device /\ Up info = false).
Proof.
  assert (Hrun : FetchAndParse env device w
                 = (Error ("error creating request: " ++ reason),
                    mkWorld (wrap64 (deviceCount w + 1)) (wire w))).
  { unfold FetchAndParse, bind, AddInt64, NewRequest, fail. now rewrite Hurl. }
  assert (Hbody : workerBody env device w
                  = (Return (down (Config.URL device)
                               ("Error: " ++ "error creating request: " ++ reason)),
                     mkWorld (wrap64 (deviceCount w + 1)) (wire w))).
  { unfold workerBody. now rewrite Hrun. }
  split; [now rewrite Hrun|].
  split; [rewrite Hbody; eexists; repeat split|].
  split; [now rewrite Hbody|].
  split; [now rewrite Hbody|].
  intros devices numWorkers s ws1 ws2 Hc Hws Hw.
  do 2 eexists. split; [|split].
  - eapply Pool.step_fetch; eauto. rewrite Hw. exact Hbody.
  - reflexivity.
  - reflexivity.
Qed.

Lemma unbuildable_request_still_yields_a_record_witness :
  fst (FetchAndParse (malformedURL "invalid control character in URL") kitchen world0)
  = Error "error creating request: invalid control character in URL"
  /\ deviceCount (snd (workerBody (malformedURL "invalid control character in URL")
                                  kitchen world0)) = 1%Z.
Proof.
  destruct (unbuildable_request_still_yields_a_record
              (malformedURL "invalid control character in URL") kitchen world0
              "invalid control character in URL" eq_refl) as (H1 & _ & H3 & _).
  split; [exact H1 | exact H3].
Defined.

(** ** Facts about the library models *)

Lemma Index_in_empty (sep : string) (m : nat) : Index "" sep = Some m -> sep = "".
Proof.
  destruct sep; [reflexivity | cbn; discriminate].
Qed.

(** A separator that does not occur leaves the text in one piece. *)
Lemma Split_absent (s sep : string) :
  Contains s sep = false -> Split s sep = [s].
Proof.
  unfold Contains, Split. intros H.
  destruct (String.length s); [reflexivity|].
  cbn. destruct (Index s sep); [discriminate | reflexivity].
Qed.

Lemma genSplit_nonempty (fuel : nat) (s sep : string) :
  exists a rest, genSplit fuel s sep = a :: rest.
Proof.
  destruct fuel; cbn; [now eauto|].
  destruct (Index s sep); eauto.
Qed.

Lemma Split_nonempty (s sep : string) : exists a rest, Split s sep = a :: rest.
Proof. apply genSplit_nonempty. Qed.

(** A separator that occurs cuts the text in two pieces at least. *)
Lemma Split_present (s sep : string) :
  sep <> "" -> Contains s sep = true ->
  exists a b rest, Split s sep = a :: b :: rest.
Proof.
  unfold Contains, Split. intros Hsep H.
  destruct (Index s sep) as [m|] eqn:E; [|discriminate].
  destruct s as [|c s].
  - apply Index_in_empty in E. contradiction.
  - cbn [String.length genSplit]. rewrite E.
    destruct (genSplit_nonempty (String.length s) (drop (m + String.length sep) (String c s)) sep)
      as (b & rest & Hb).
    rewrite Hb. eauto.
Qed.

(** More fuel than the length of the text changes nothing. *)
Lemma drop_length (n : nat) (s : string) :
  String.length (drop n s) = String.length s - n.
Proof.
  revert s. induction n as [|n IH]; intros s; cbn.
  - lia.
  - destruct s; cbn; [reflexivity | apply IH].
Qed.

Lemma genSplit_fuel (sep : string) :
  sep <> "" ->
  forall fuel1 fuel2 s, String.length s <= fuel1 -> String.length s <= fuel2 ->
    genSplit fuel1 s sep = genSplit fuel2 s sep.
Proof.
  intros Hsep. induction fuel1 as [|fuel1 IH]; intros fuel2 s H1 H2.
  - destruct s; cbn in H1; [|lia].
    destruct fuel2; [reflexivity|].
    destruct sep; [contradiction | reflexivity].
  - destruct fuel2 as [|fuel2].
    + destruct s; cbn in H2; [|lia].
      destruct sep; [contradiction | reflexivity].
    + cbn [genSplit].
      destruct (Index s sep) as [m|] eqn:E; [|reflexivity].
      f_equal.
      assert (Hd : String.length (drop (m + String.length sep) s) < String.length s).
      { rewrite drop_length.
        destruct s; [apply Index_in_empty in E; contradiction|].
        destruct sep; [contradiction|]. cbn [String.length]. lia. }
      apply IH; lia.
Qed.

(** [Split] does not depend on the bound of its loop. *)
Lemma Split_fuel (s sep : string) (fuel : nat) :
  sep <> "" -> String.length s <= fuel -> genSplit fuel s sep = Split s sep.
Proof. intros Hsep H. unfold Split. apply genSplit_fuel; auto. Qed.

(** The same for the loops of [TrimSpace]: every round takes a rune off. *)
Lemma trimLeft_fuel (runes : list string) :
  (forall w, In w runes -> w <> "") ->
  forall fuel1 fuel2 s, String.length s <= fuel1 -> String.length s <= fuel2 ->
    trimLeft runes fuel1 s = trimLeft runes fuel2 s.
Proof.
intros Hrunes.
assert (Hstop : forall fuel, trimLeft runes fuel "" = "").
{ intros [|fuel]; [reflexivity|]. cbn [trimLeft].
  destruct (find (fun w => prefix w "") runes) as [w|] eqn:E; [|reflexivity].
  apply find_some in E. destruct E as [Hin Hp].
  destruct w; [exfalso; now apply (Hrunes "") | discriminate]. }
induction fuel1 as [|fuel1 IH]; intros fuel2 s H1 H2.
- destruct s; cbn in H1; [|lia]. now rewrite Hstop.
- destruct fuel2 as [|fuel2].
  + destruct s; cbn in H2; [|lia]. now rewrite Hstop.
  + cbn [trimLeft].
    destruct (find (fun w => prefix w s) runes) as [w|] eqn:E; [|reflexivity].
    apply find_some in E. destruct E as [Hin Hp].
    assert (Hd : String.length (drop (String.length w) s) < String.length s).
    { rewrite drop_length. specialize (Hrunes w Hin).
      destruct w; [contradiction|]. destruct s; [discriminate|].
      cbn [String.length]. lia. }
    apply IH; lia.
Qed.

(** ** The extractor *)

Lemma noError_Return {A} (a : A) : noError (Return a).
Proof. left. eauto. Qed.

Lemma noError_index {A} (l : list A) (i : nat) : noError (index l i).
Proof. unfold index. destruct (nth_error l i); [left; eauto | right; reflexivity]. Qed.

Lemma noError_obind {A B} (x : outcome A) (f : A -> outcome B) :
  noError x -> (forall a, noError (f a)) -> noError (obind x f).
Proof.
  intros [[a ->] | ->] Hf; cbn; [apply Hf | right; reflexivity].
Qed.

Lemma noError_rangeLoop {A T} (body : nat -> A -> T -> outcome T) (l : list A) :
  (forall i a s, noError (body i a s)) ->
  forall i s, noError (rangeLoop body i l s).
Proof.
  intros Hbody. induction l as [|a l IH]; intros i s; cbn.
  - apply noError_Return.
  - apply noError_obind; auto.
Qed.

Ltac no_error :=
  repeat first
    [ apply noError_Return | apply noError_index
    | apply noError_obind; [|intros ?]
    | match goal with |- noError (if ?b then _ else _) => destruct b end ].

Lemma noError_macCase (text section : string) (info : SuplaInfo) :
  noError (macCase text section info).
Proof. unfold macCase. no_error. Qed.

Lemma noError_sectionBody (text : string) (i : nat) (section : string) (info : SuplaInfo) :
  noError (sectionBody text i section info).
Proof.
  unfold sectionBody.
  destruct (i <? List.length sections - 1)%nat; [no_error | apply noError_macCase].
Qed.

Lemma noError_freeMemBlock (text : string) (info : SuplaInfo) :
  noError (freeMemBlock text info).
Proof. unfold freeMemBlock. no_error. Qed.

Lemma noError_eachSpan (text : string) (info : SuplaInfo) :
  noError (eachSpan text info).
Proof.
  unfold eachSpan. apply noError_obind.
  - destruct (Contains text "LAST STATE:"); [|apply noError_Return].
    apply noError_rangeLoop. intros. apply noError_sectionBody.
  - intros. apply noError_freeMemBlock.
Qed.

(** A loop one of whose rounds panics whatever the state panics. *)
Lemma rangeLoop_panics {A T} (body : nat -> A -> T -> outcome T) (l : list A) (a : A) :
  (forall i x s, noError (body i x s)) ->
  In a l ->
  (forall i s, body i a s = Panic indexPanic) ->
  forall i s, rangeLoop body i l s = Panic indexPanic.
Proof.
  intros Hbody Hin Ha. induction l as [|x l IH]; intros i s; [destruct Hin|].
  cbn. destruct Hin as [-> | Hin].
  - rewrite Ha. reflexivity.
  - destruct (Hbody i x s) as [[s' ->] | ->]; cbn; [apply IH; assumption | reflexivity].
Qed.

(** *** The sections loop, round by round *)

Lemma sectionBody_state (text : string) (info : SuplaInfo) :
  sectionBody text 0 "LAST STATE:" info
  = let! value := between text "LAST STATE:" "Firmware:" in Return (setState value info).
Proof.
  unfold sectionBody, between.
  change ((0 <? List.length sections - 1)%nat) with true. cbv iota.
  change (index sections (0 + 1)) with (@Return string "Firmware:"). cbn [obind].
  destruct (index (Split text "LAST STATE:") 1) as [a| |]; cbn [obind]; try reflexivity.
  destruct (index (Split a "Firmware:") 0); reflexivity.
Qed.

Lemma sectionBody_firmware (text : string) (info : SuplaInfo) :
  sectionBody text 1 "Firmware:" info
  = let! value := between text "Firmware:" "GUID:" in Return (firmwareCase value info).
Proof.
  unfold sectionBody, between.
  change ((1 <? List.length sections - 1)%nat) with true. cbv iota.
  change (index sections (1 + 1)) with (@Return string "GUID:"). cbn [obind].
  destruct (index (Split text "Firmware:") 1) as [a| |]; cbn [obind]; try reflexivity.
  destruct (index (Split a "GUID:") 0); reflexivity.
Qed.

Lemma sectionBody_guid (text : string) (info : SuplaInfo) :
  sectionBody text 2 "GUID:" info
  = let! value := between text "GUID:" "MAC:" in Return (setGUID value info).
Proof.
  unfold sectionBody, between.
  change ((2 <? List.length sections - 1)%nat) with true. cbv iota.
  change (index sections (2 + 1)) with (@Return string "MAC:"). cbn [obind].
  destruct (index (Split text "GUID:") 1) as [a| |]; cbn [obind]; try reflexivity.
  destruct (index (Split a "MAC:") 0); reflexivity.
Qed.

Lemma sectionBody_mac (text : string) (info : SuplaInfo) :
  sectionBody text 3 "MAC:" info = macCase text "MAC:" info.
Proof. reflexivity. Qed.

Lemma sections_loop (text : string) (info : SuplaInfo) :
  rangeLoop (sectionBody text) 0 sections info
  = let! i1 := (let! value := between text "LAST STATE:" "Firmware:" in
                Return (setState value info)) in
    let! i2 := (let! value := between text "Firmware:" "GUID:" in
                Return (firmwareCase value i1)) in
    let! i3 := (let! value := between text "GUID:" "MAC:" in
                Return (setGUID value i2)) in
    macCase text "MAC:" i3.
Proof.
  change (rangeLoop (sectionBody text) 0 sections info)
    with (let! s1 := sectionBody text 0 "LAST STATE:" info in
          let! s2 := sectionBody text 1 "Firmware:" s1 in
          let! s3 := sectionBody text 2 "GUID:" s2 in
          let! s4 := sectionBody text 3 "MAC:" s3 in
          Return s4).
  rewrite sectionBody_state.
  destruct (between text "LAST STATE:" "Firmware:") as [v1| |]; cbn [obind]; try reflexivity.
  rewrite sectionBody_firmware.
  destruct (between text "Firmware:" "GUID:") as [v2| |]; cbn [obind]; try reflexivity.
  rewrite sectionBody_guid.
  destruct (between text "GUID:" "MAC:") as [v3| |]; cbn [obind]; try reflexivity.
  rewrite sectionBody_mac.
  destruct (macCase text "MAC:" _); reflexivity.
Qed.

Lemma between_absent (text section next : string) :
  Contains text section = false -> between text section next = Panic indexPanic.
Proof.
  intros H. unfold between. rewrite (Split_absent _ _ H). reflexivity.
Qed.

Lemma between_present (text section next : string) :
  section <> "" -> Contains text section = true ->
  exists value, between text section next = Return value.
Proof.
  intros Hs H. unfold between.
  destruct (Split_present _ _ Hs H) as (a & b & rest & ->). cbn.
  destruct (Split_nonempty b next) as (v & rest' & ->). cbn. eauto.
Qed.

(** The block of the four markers panics as soon as "Firmware:" or "GUID:"
    is missing. *)
Lemma sections_loop_panics (text : string) (info : SuplaInfo) :
  Contains text "LAST STATE:" = true ->
  Contains text "Firmware:" = false \/ Contains text "GUID:" = false ->
  rangeLoop (sectionBody text) 0 sections info = Panic indexPanic.
Proof.
  intros Hstate Hpartial. rewrite sections_loop.
  destruct (between_present text "LAST STATE:" "Firmware:" ltac:(discriminate) Hstate)
    as (v1 & ->). cbn [obind].
  destruct (Contains text "Firmware:") eqn:Hfw.
  - destruct (between_present text "Firmware:" "GUID:" ltac:(discriminate) Hfw)
      as (v2 & ->). cbn [obind].
    destruct Hpartial as [Hp | Hp]; [discriminate|].
    rewrite (between_absent _ _ _ Hp). reflexivity.
  - rewrite (between_absent _ _ _ Hfw). reflexivity.
Qed.

Lemma eachSpan_panics (text : string) (info : SuplaInfo) :
  Contains text "LAST STATE:" = true ->
  Contains text "Firmware:" = false \/ Contains text "GUID:" = false ->
  eachSpan text info = Panic indexPanic.
Proof.
  intros Hstate Hpartial. unfold eachSpan. rewrite Hstate.
  rewrite (sections_loop_panics text info Hstate Hpartial). reflexivity.
Qed.

(** C2 (the code does the opposite): a page with a [span] whose text has
    "LAST STATE:" but lacks "Firmware:" or "GUID:" makes [ParseHTML] panic
    with an index out of range, and with it [FetchAndParse] on a 200
    response carrying that page: no record is produced. *)
Theorem page_with_partial_markers_panics
        (doc : Document) (n : Node)
        (Hspan : In n (Find doc "span"))
        (Hstate : Contains (nodeText n) "LAST STATE:" = true)
        (Hpartial : Contains (nodeText n) "Firmware:" = false
                    \/ Contains (nodeText n) "GUID:" = false) :
  ParseHTML (Parsed doc) = Panic indexPanic
  /\ forall env device w,
       urlError env (Config.URL device) = None ->
       answer env (firstRequest device) = DoOK 200 (ReadOK (Parsed doc)) ->
       fst (FetchAndParse env device w) = Panic indexPanic.
Proof.
  assert (Hparse : ParseHTML (Parsed doc) = Panic indexPanic).
  { unfold ParseHTML.
    apply (rangeLoop_panics (fun _ s info => eachSpan (nodeText s) info) _ n).
    - intros. apply noError_eachSpan.
    - exact Hspan.
    - intros _ s. apply eachSpan_panics; assumption. }
  split; [exact Hparse|].
  intros env device w Hurl Hans.
  unfold FetchAndParse, bind, AddInt64.
  rewrite (NewRequest_ok env device Hurl).
  unfold Do. fold (firstRequest device). rewrite Hans.
  change (200 =? StatusOK)%Z with true. cbv iota.
  unfold parseBody. rewrite Hparse. reflexivity.
Qed.

Lemma page_with_partial_markers_panics_witness :
  ParseHTML (spanPage "LAST STATE:Ready") = Panic "index out of range"
  /\ fst (FetchAndParse (answering 200 (ReadOK (spanPage "LAST STATE:Ready")))
                        kitchen world0)
     = Panic "index out of range".
Proof.
  destruct (page_with_partial_markers_panics
              [ElementNode "span" [TextNode "LAST STATE:Ready"]]
              (ElementNode "span" [TextNode "LAST STATE:Ready"])
              (or_introl eq_refl) eq_refl (or_introl eq_refl)) as [H1 H2].
  split; [exact H1|].
  exact (H2 (answering 200 (ReadOK (spanPage "LAST STATE:Ready"))) kitchen world0
            eq_refl eq_refl).
Defined.

(** ** Firmware: the pattern [v\d] *)

Lemma prefix_v (c : ascii) (s : string) :
  prefix "v" (String c s) = Ascii.eqb c "v".
Proof.
  cbn [prefix]. destruct (ascii_dec "v" c) as [<- | Hne].
  - rewrite Ascii.eqb_refl. destruct s; reflexivity.
  - symmetry. apply Ascii.eqb_neq. congruence.
Qed.

Lemma matchHere_firmwareVersion (s : string) :
  matchHere firmwareVersion s = if versionAt s 0 then Some 2 else None.
Proof.
  unfold matchHere, firmwareVersion, versionAt. cbn [run drop].
  destruct s as [|c s]; [reflexivity|].
  rewrite prefix_v. destruct (Ascii.eqb c "v"); [|destruct s; reflexivity].
  cbn [String.length drop]. destruct s as [|d s]; [reflexivity|].
  cbn [andb]. destruct (digit d); [|reflexivity].
  cbn [String.length]. f_equal. lia.
Qed.

Lemma versionAt_S (c : ascii) (s : string) (i : nat) :
  versionAt (String c s) (S i) = versionAt s i.
Proof. reflexivity. Qed.

(** The search stops at the first offset that has the pattern. *)
Lemma findFrom_firmwareVersion_first (s : string) (i k : nat) :
  versionAt s i = true ->
  (forall j, j < i -> versionAt s j = false) ->
  findFrom firmwareVersion k s = Some (k + i, k + i + 2).
Proof.
  revert s k. induction i as [|i IH]; intros s k Hat Hfirst.
  - destruct s; cbn [findFrom]; rewrite matchHere_firmwareVersion, Hat;
      do 2 f_equal; lia.
  - destruct s as [|c s]; [discriminate|].
    cbn [findFrom]. rewrite matchHere_firmwareVersion.
    rewrite (Hfirst 0) by lia.
    rewrite (IH s (S k)).
    + do 2 f_equal; lia.
    + exact Hat.
    + intros j Hj. rewrite <- (versionAt_S c). apply Hfirst. lia.
Qed.

Lemma findFrom_firmwareVersion_none (s : string) (k : nat) :
  (forall i, versionAt s i = false) ->
  findFrom firmwareVersion k s = None.
Proof.
  revert k. induction s as [|c s IH]; intros k Hnone.
  - cbn [findFrom]. rewrite matchHere_firmwareVersion, (Hnone 0). reflexivity.
  - cbn [findFrom]. rewrite matchHere_firmwareVersion, (Hnone 0).
    apply IH. intros i. rewrite <- (versionAt_S c). apply Hnone.
Qed.

(** C5: the firmware value is cut to start at the first [v<digit>] it
    contains, and kept as it is when it contains none; "GG v24.09.24a"
    becomes "v24.09.24a". *)
Theorem firmware_starts_at_first_version (value : string) (info : SuplaInfo) :
  (forall i,
      versionAt value i = true ->
      (forall j, j < i -> versionAt value j = false) ->
      Firmware (firmwareCase value info) = drop i value)
  /\ ((forall i, versionAt value i = false) ->
      Firmware (firmwareCase value info) = value)
  /\ Firmware (firmwareCase "GG v24.09.24a" info) = "v24.09.24a"
  /\ Firmware (firmwareCase "Vx 2.0" info) = "Vx 2.0".
Proof.
  split; [|split; [|split]]; try reflexivity.
  - intros i Hat Hfirst. unfold firmwareCase, FindStringIndex. cbn [Firmware setFirmware].
    rewrite (findFrom_firmwareVersion_first value i 0 Hat Hfirst). reflexivity.
  - intros Hnone. unfold firmwareCase, FindStringIndex. cbn [Firmware setFirmware].
    rewrite (findFrom_firmwareVersion_none value 0 Hnone). reflexivity.
Qed.

Lemma firmware_starts_at_first_version_witness :
  versionAt "GG v24.09.24a" 3 = true
  /\ Firmware (firmwareCase "GG v24.09.24a" zero) = drop 3 "GG v24.09.24a".
Proof.
split; [reflexivity|].
apply (proj1 (firmware_starts_at_first_version "GG v24.09.24a" zero) 3 eq_refl).
intros j Hj.
destruct j as [|[|[|j]]]; [reflexivity | reflexivity | reflexivity | lia].
Defined.

(** ** Which fields each block writes *)

Lemma macCase_frame (text section : string) (info info' : SuplaInfo) :
  macCase text section info = Return info' ->
  info' = setMAC (MAC info') info.
Proof.
  unfold macCase. destruct info.
  destruct (1 <? List.length (Split text section))%nat; [|intros H; inversion H; reflexivity].
  destruct (index (Split text section) 1); cbn [obind]; try discriminate.
  destruct (negb _); intros H; inversion H; reflexivity.
Qed.

Lemma sections_loop_frame (text : string) (info info' : SuplaInfo) :
  rangeLoop (sectionBody text) 0 sections info = Return info' ->
  Name info' = Name info /\ Mode info' = Mode info /\ FreeMem info' = FreeMem info
  /\ Up info' = Up info /\ URL info' = URL info.
Proof.
  rewrite sections_loop.
  destruct (between text "LAST STATE:" "Firmware:") as [v1| |]; cbn [obind]; try discriminate.
  destruct (between text "Firmware:" "GUID:") as [v2| |]; cbn [obind]; try discriminate.
  destruct (between text "GUID:" "MAC:") as [v3| |]; cbn [obind]; try discriminate.
  intros H. apply macCase_frame in H.
  pose proof (f_equal Name H) as HN. pose proof (f_equal Mode H) as HM.
  pose proof (f_equal FreeMem H) as HF. pose proof (f_equal Up H) as HU.
  pose proof (f_equal URL H) as HL. clear H.
  unfold firmwareCase in *. destruct info.
  cbn [Name Mode FreeMem Up URL Firmware setMAC setGUID setFirmware setState] in *.
  destruct (FindStringIndex firmwareVersion v2);
    cbn [Name Mode FreeMem Up URL Firmware setMAC setGUID setFirmware setState] in *;
    repeat split; assumption.
Qed.

Lemma freeMemBlock_frame (text : string) (info info' : SuplaInfo) :
  freeMemBlock text info = Return info' ->
  Name info' = Name info /\ State info' = State info /\ Firmware info' = Firmware info
  /\ GUID info' = GUID info /\ MAC info' = MAC info
  /\ Up info' = Up info /\ URL info' = URL info.
Proof.
  unfold freeMemBlock. destruct info.
  destruct (Contains text "Free Mem:"); [|intros H; inversion H; cbn; repeat split].
  destruct (index (Split text "Free Mem:") 1) as [parts| |]; cbn [obind]; try discriminate.
  destruct (index (Split parts "Mode:") 0) as [mem| |]; cbn [obind]; try discriminate.
  destruct (Strconv.ParseFloat _);
    (destruct (1 <? List.length (Split parts "Mode:"))%nat;
     [destruct (index (Split parts "Mode:") 1); cbn [obind]; try discriminate|];
     intros H; inversion H; cbn; repeat split).
Qed.

Lemma eachSpan_identity (text : string) (info info' : SuplaInfo) :
  eachSpan text info = Return info' -> sameIdentity info' info.
Proof.
  unfold eachSpan, sameIdentity.
  destruct (Contains text "LAST STATE:").
  - destruct (rangeLoop (sectionBody text) 0 sections info) as [i1| |] eqn:E;
      cbn [obind]; try discriminate.
    intros H. apply sections_loop_frame in E. apply freeMemBlock_frame in H.
    intuition congruence.
  - cbn [obind]. intros H. apply freeMemBlock_frame in H. intuition congruence.
Qed.

Lemma spans_identity (spans : list Node) (i : nat) (info info' : SuplaInfo) :
  rangeLoop (fun _ s info => eachSpan (nodeText s) info) i spans info = Return info' ->
  sameIdentity info' info.
Proof.
  revert i info. induction spans as [|s spans IH]; intros i info; cbn [rangeLoop].
  - intros H; inversion H; subst. repeat split.
  - destruct (eachSpan (nodeText s) info) as [i1| |] eqn:E; cbn [obind]; try discriminate.
    intros H. apply IH in H. apply eachSpan_identity in E.
    unfold sameIdentity in *. intuition congruence.
Qed.

(** ** The name *)

(** C6, as the code has it: the name is the text of all [h1] elements of
    the page joined in document order, not trimmed; it is empty when the
    page has no [h1], and for a single [h1] it is that element's text as it
    stands. *)
Theorem name_is_text_of_all_headings
        (doc : Document) (info : SuplaInfo)
        (Hparse : ParseHTML (Parsed doc) = Return info) :
  Name info = String.concat "" (map nodeText (Find doc "h1"))
  /\ (Find doc "h1" = [] -> Name info = "")
  /\ (forall h, Find doc "h1" = [h] -> Name info = nodeText h).
Proof.
  unfold ParseHTML in Hparse. apply spans_identity in Hparse.
  destruct Hparse as (Hname & _ & _). cbn [Name setName] in Hname.
  unfold Text in Hname.
  split; [exact Hname|]. split.
  - intros Hnone. rewrite Hname, Hnone. reflexivity.
  - intros h Hone. rewrite Hname, Hone. reflexivity.
Qed.

Lemma name_is_text_of_all_headings_witness :
  exists info,
    ParseHTML (Parsed [ElementNode "h1" [TextNode "Kitchen"];
                       ElementNode "span" [TextNode "Free Mem: 28.34kB Mode: NORMAL"]])
    = Return info
    /\ Name info = "Kitchen".
Proof.
  eexists. split; [reflexivity|].
  exact (proj1 (name_is_text_of_all_headings
                  [ElementNode "h1" [TextNode "Kitchen"];
                   ElementNode "span" [TextNode "Free Mem: 28.34kB Mode: NORMAL"]]
                  _ eq_refl)).
Defined.

(** C6 as stated fails: the blanks around the heading text are kept, and a
    second [h1] is joined to the first. *)
Lemma name_is_not_first_heading_trimmed :
  (exists info,
      ParseHTML (Parsed [ElementNode "h1" [TextNode " Kitchen "]]) = Return info
      /\ Name info = " Kitchen "
      /\ firstHeadingTrimmed [ElementNode "h1" [TextNode " Kitchen "]] = "Kitchen"
      /\ Name info <> firstHeadingTrimmed [ElementNode "h1" [TextNode " Kitchen "]])
  /\
  (exists info,
      ParseHTML (Parsed [ElementNode "h1" [TextNode "Kitchen"];
                         ElementNode "h1" [TextNode "Relay"]]) = Return info
      /\ Name info = "KitchenRelay"
      /\ Name info <> firstHeadingTrimmed [ElementNode "h1" [TextNode "Kitchen"];
                                           ElementNode "h1" [TextNode "Relay"]]).
Proof.
  split.
  - eexists. split; [reflexivity|]. repeat split. cbv. discriminate.
  - eexists. split; [reflexivity|]. repeat split. cbv. discriminate.
Qed.

(** ** MAC and free memory *)

Lemma index_in_range {A} (l : list A) (i : nat) :
  i < List.length l -> exists a, index l i = Return a.
Proof.
  intros H. unfold index. destruct (nth_error l i) as [a|] eqn:E; [eauto|].
  apply nth_error_None in E. lia.
Qed.

(** The free-memory block never panics. *)
Lemma freeMemBlock_returns (text : string) (info : SuplaInfo) :
  exists info', freeMemBlock text info = Return info'.
Proof.
  unfold freeMemBlock.
  destruct (Contains text "Free Mem:") eqn:Hc; [|eauto].
  destruct (Split_present text "Free Mem:" ltac:(discriminate) Hc) as (a & parts & rest & ->).
  cbn [index nth_error obind].
  destruct (Split_nonempty parts "Mode:") as (mem & rest' & ->).
  cbn [index nth_error obind].
  destruct (1 <? List.length (mem :: rest'))%nat eqn:Hlen; [|eauto].
  apply Nat.ltb_lt in Hlen.
  destruct (index_in_range (mem :: rest') 1 Hlen) as (mode & ->). cbn [obind]. eauto.
Qed.

Lemma append_length (a b : string) :
  String.length (a ++ b) = String.length a + String.length b.
Proof. induction a as [|x a IH]; cbn; [reflexivity | now rewrite IH]. Qed.

Lemma drop_app (a b : string) : drop (String.length a) (a ++ b) = b.
Proof. induction a as [|x a IH]; cbn; [reflexivity | exact IH]. Qed.

Lemma substring_middle (a m b : string) :
  substring (String.length a) (String.length m) (a ++ m ++ b) = m.
Proof.
  induction a as [|x a IH]; cbn [String.length append substring].
  - induction m as [|y m IHm]; cbn [String.length append substring].
    + destruct b; reflexivity.
    + now rewrite IHm.
  - exact IH.
Qed.

(** The search skips a stretch in which the pattern matches nowhere. *)
Lemma findFrom_skip (r : re) (pre rest : string) (i : nat) :
  (forall j, j < String.length pre -> matchHere r (drop j (pre ++ rest)) = None) ->
  findFrom r i (pre ++ rest) = findFrom r (i + String.length pre) rest.
Proof.
  revert i. induction pre as [|c pre IH]; intros i Hnone.
  - cbn. now rewrite Nat.add_0_r.
  - cbn [append findFrom].
    pose proof (Hnone 0 ltac:(cbn; lia)) as H0. cbn [drop append] in H0. rewrite H0.
    rewrite IH.
    + cbn [String.length]. f_equal. lia.
    + intros j Hj. apply (Hnone (S j)). cbn. lia.
Qed.

Lemma findFrom_here (r : re) (s : string) (i n : nat) :
  matchHere r s = Some n -> findFrom r i s = Some (i, i + n).
Proof. intros H. destruct s; cbn [findFrom]; now rewrite H. Qed.

(** Leftmost match: a match with nothing matching before it is the one
    [FindString] returns. *)
Lemma FindString_leftmost (r : re) (pre m post : string) :
  (forall j, j < String.length pre -> matchHere r (drop j (pre ++ m ++ post)) = None) ->
  matchHere r (m ++ post) = Some (String.length m) ->
  FindString r (pre ++ m ++ post) = m.
Proof.
  intros Hnone Hm. unfold FindString, FindStringIndex.
  rewrite (findFrom_skip r pre (m ++ post) 0 Hnone).
  rewrite (findFrom_here r (m ++ post) _ _ Hm).
  cbn [Nat.add].
  replace (String.length pre + String.length m - String.length pre)
    with (String.length m) by lia.
  apply substring_middle.
Qed.

Lemma matchHere_macRegex_example (post : string) :
  matchHere macRegex ("AA:BB:CC:DD:EE:FF" ++ post) = Some 17.
Proof.
  unfold matchHere.
  change (run macRegex ("AA:BB:CC:DD:EE:FF" ++ post) Some) with (Some post).
  rewrite append_length. f_equal. cbn [String.length]. lia.
Qed.

Lemma macCase_MAC (text : string) (info : SuplaInfo) :
  exists info',
    macCase text "MAC:" info = Return info'
    /\ MAC info' = match macText text with
                   | Some part =>
                       if String.eqb (FindString macRegex part) ""
                       then MAC info else FindString macRegex part
                   | None => MAC info
                   end.
Proof.
  unfold macCase, macText.
  destruct (Split text "MAC:") as [|a [|part rest]]; cbn [List.length Nat.ltb Nat.leb];
    try (eexists; split; reflexivity).
  cbn [index nth_error obind].
  destruct (String.eqb (FindString macRegex (TrimSpace part)) "");
    eexists; split; reflexivity.
Qed.

Lemma nodeText_span (text : string) :
  nodeText (ElementNode "span" [TextNode text]) = text.
Proof. reflexivity. Qed.

(** A page of one span: [ParseHTML] is [eachSpan] on its text. *)
Lemma ParseHTML_spanPage (text : string) :
  ParseHTML (spanPage text) = eachSpan text zero.
Proof.
  unfold ParseHTML, spanPage.
  change (Find [ElementNode "span" [TextNode text]] "h1") with (@nil Node).
  change (Find [ElementNode "span" [TextNode text]] "span")
    with [ElementNode "span" [TextNode text]].
  cbn [rangeLoop]. rewrite nodeText_span.
  change (setName (Text []) zero) with zero.
  destruct (eachSpan text zero); reflexivity.
Qed.

Lemma firmwareCase_MAC (value : string) (info : SuplaInfo) :
  MAC (firmwareCase value info) = MAC info.
Proof.
  unfold firmwareCase.
  destruct (FindStringIndex firmwareVersion (Firmware (setFirmware value info)));
    reflexivity.
Qed.

(** With the first three markers present the block returns, and the MAC is
    decided by [macCase]. *)
Lemma eachSpan_MAC (text : string) (info0 : SuplaInfo) :
  Contains text "LAST STATE:" = true ->
  Contains text "Firmware:" = true ->
  Contains text "GUID:" = true ->
  exists info,
    eachSpan text info0 = Return info
    /\ MAC info = match macText text with
                  | Some part =>
                      if String.eqb (FindString macRegex part) ""
                      then MAC info0 else FindString macRegex part
                  | None => MAC info0
                  end.
Proof.
  intros Hstate Hfw Hguid. unfold eachSpan. rewrite Hstate, sections_loop.
  destruct (between_present text "LAST STATE:" "Firmware:" ltac:(discriminate) Hstate)
    as (v1 & ->). cbn [obind].
  destruct (between_present text "Firmware:" "GUID:" ltac:(discriminate) Hfw)
    as (v2 & ->). cbn [obind].
  destruct (between_present text "GUID:" "MAC:" ltac:(discriminate) Hguid)
    as (v3 & ->). cbn [obind].
  destruct (macCase_MAC text (setGUID v3 (firmwareCase v2 (setState v1 info0))))
    as (i4 & -> & Hmac). cbn [obind].
  destruct (freeMemBlock_returns text i4) as (info & Hfree).
  exists info. split; [exact Hfree|].
  apply freeMemBlock_frame in Hfree. destruct Hfree as (_ & _ & _ & _ & -> & _).
  rewrite Hmac.
  cbn [MAC setGUID]. rewrite firmwareCase_MAC. reflexivity.
Qed.

(** C7, as the code has it: in a span that has "LAST STATE:", "Firmware:"
    and "GUID:", the MAC is the leftmost match of the six-group pattern in
    the trimmed text between the first "MAC:" and the next one (or the
    end); when that text holds AA:BB:CC:DD:EE:FF and no match starts
    before it, the field is exactly that string; without a match, or
    without the marker, the field is left as it was, which is empty on a
    page of a single span. *)
Theorem mac_is_leftmost_match_after_marker
        (text : string) (info0 : SuplaInfo)
        (Hstate : Contains text "LAST STATE:" = true)
        (Hfw : Contains text "Firmware:" = true)
        (Hguid : Contains text "GUID:" = true) :
  (exists info,
      eachSpan text info0 = Return info
      /\ MAC info = match macText text with
                    | Some part =>
                        if String.eqb (FindString macRegex part) ""
                        then MAC info0 else FindString macRegex part
                    | None => MAC info0
                    end
      /\ (forall pre post,
             macText text = Some (pre ++ "AA:BB:CC:DD:EE:FF" ++ post) ->
             (forall j, j < String.length pre ->
                        matchHere macRegex (drop j (pre ++ "AA:BB:CC:DD:EE:FF" ++ post)) = None) ->
             MAC info = "AA:BB:CC:DD:EE:FF"))
  /\
  (exists info,
      ParseHTML (spanPage text) = Return info
      /\ MAC info = match macText text with
                    | Some part => FindString macRegex part
                    | None => ""
                    end).
Proof.
  split.
  - destruct (eachSpan_MAC text info0 Hstate Hfw Hguid) as (info & Hrun & Hmac).
    exists info. split; [exact Hrun|]. split; [exact Hmac|].
    intros pre post Hpart Hnone. rewrite Hmac, Hpart.
    rewrite (FindString_leftmost macRegex pre "AA:BB:CC:DD:EE:FF" post Hnone
               (matchHere_macRegex_example post)).
    reflexivity.
  - destruct (eachSpan_MAC text zero Hstate Hfw Hguid) as (info & Hrun & Hmac).
    exists info. rewrite ParseHTML_spanPage. split; [exact Hrun|].
    rewrite Hmac. destruct (macText text) as [part|]; [|reflexivity].
    destruct (String.eqb_spec (FindString macRegex part) "") as [-> | _]; reflexivity.
Qed.

Lemma mac_is_leftmost_match_after_marker_witness :
  exists info,
    ParseHTML (spanPage "LAST STATE:Ready Firmware:GG v1.2.3 GUID:ABC123 MAC: AA:BB:CC:DD:EE:FF")
    = Return info
    /\ MAC info = "AA:BB:CC:DD:EE:FF".
Proof.
  destruct (mac_is_leftmost_match_after_marker
              "LAST STATE:Ready Firmware:GG v1.2.3 GUID:ABC123 MAC: AA:BB:CC:DD:EE:FF"
              zero eq_refl eq_refl eq_refl) as [_ (info & Hrun & Hmac)].
  exists info. split; [exact Hrun | exact Hmac].
Defined.

(** C7 as stated fails: an address after the marker is not the field when
    another one stands before it, when the span lacks "LAST STATE:", or
    when it only follows a second "MAC:". *)
Lemma mac_is_not_any_address_after_marker :
  (exists info part,
      ParseHTML (spanPage
        "LAST STATE:Ready Firmware:v1 GUID:G1 MAC: 00:11:22:33:44:55 AA:BB:CC:DD:EE:FF")
      = Return info
      /\ macText "LAST STATE:Ready Firmware:v1 GUID:G1 MAC: 00:11:22:33:44:55 AA:BB:CC:DD:EE:FF"
         = Some part
      /\ Contains part "AA:BB:CC:DD:EE:FF" = true
      /\ MAC info = "00:11:22:33:44:55"
      /\ MAC info <> "AA:BB:CC:DD:EE:FF")
  /\
  (exists info part,
      ParseHTML (spanPage "MAC: AA:BB:CC:DD:EE:FF") = Return info
      /\ macText "MAC: AA:BB:CC:DD:EE:FF" = Some part
      /\ Contains part "AA:BB:CC:DD:EE:FF" = true
      /\ MAC info = ""
      /\ MAC info <> "AA:BB:CC:DD:EE:FF")
  /\
  (exists info,
      ParseHTML (spanPage "LAST STATE:Ready Firmware:v1 GUID:G1 MAC: n/a MAC: AA:BB:CC:DD:EE:FF")
      = Return info
      /\ MAC info = ""
      /\ MAC info <> "AA:BB:CC:DD:EE:FF").
Proof.
  split; [|split].
  - do 2 eexists. split; [reflexivity|]. split; [reflexivity|].
    split; [reflexivity|]. split; [reflexivity|]. cbv. discriminate.
  - do 2 eexists. split; [reflexivity|]. split; [reflexivity|].
    split; [reflexivity|]. split; [reflexivity|]. cbv. discriminate.
  - eexists. split; [reflexivity|]. split; [reflexivity|]. cbv. discriminate.
Qed.

(** ** The pattern [(?i)kb?$] *)

Lemma prefix_split (w s : string) :
  prefix w s = true -> s = w ++ drop (String.length w) s.
Proof.
  revert s. induction w as [|a w IH]; intros s H; [reflexivity|].
  destruct s as [|b s]; [discriminate|].
  cbn [prefix] in H. destruct (ascii_dec a b) as [<- | ]; [|discriminate].
  cbn. f_equal. now apply IH.
Qed.

Lemma run_Lit_inv (w s : string) (k : string -> option string) (rest : string) :
  run (Lit w) s k = Some rest ->
  s = w ++ drop (String.length w) s /\ k (drop (String.length w) s) = Some rest.
Proof.
  cbn [run]. destruct (prefix w s) eqn:E; [|discriminate].
  intros H. split; [now apply prefix_split | exact H].
Qed.

Lemma run_Alt_inv (a b : re) (s : string) (k : string -> option string) (rest : string) :
  run (Alt a b) s k = Some rest -> run a s k = Some rest \/ run b s k = Some rest.
Proof.
  cbn [run]. destruct (run a s k); intros H; [left | right]; assumption.
Qed.

Lemma run_Opt_inv (a : re) (s : string) (k : string -> option string) (rest : string) :
  run (Opt a) s k = Some rest -> run a s k = Some rest \/ k s = Some rest.
Proof.
  cbn [run]. destruct (run a s k); intros H; [left | right]; assumption.
Qed.

Lemma run_EndText_inv (s : string) (k : string -> option string) (rest : string) :
  run EndText s k = Some rest -> s = "" /\ k "" = Some rest.
Proof.
  cbn [run]. destruct s; [auto | discriminate].
Qed.

(** What may follow the letter k: nothing, or one letter b, then the end. *)
Lemma run_kb_tail_inv (t rest : string) :
  run (Seq (Opt foldB) EndText) t Some = Some rest ->
  rest = "" /\ (t = "b" \/ t = "B" \/ t = "").
Proof.
  cbn [run]. fold (run (Opt foldB) t (fun s1 => run EndText s1 Some)).
  intros H. apply run_Opt_inv in H. destruct H as [H | H].
  - unfold foldB in H. apply run_Alt_inv in H. destruct H as [H | H];
      apply run_Lit_inv in H; destruct H as [Ht H];
      apply run_EndText_inv in H; destruct H as [Hd H];
      rewrite Hd in Ht; inversion H; subst rest; cbn in Ht; auto.
  - apply run_EndText_inv in H. destruct H as [-> H]. inversion H. auto.
Qed.

(** An anchored match of the pattern is the whole of what is left, and
    what is left is one of the nine endings. *)
Lemma matchHere_kbSuffix_inv (s : string) (n : nat) :
  matchHere kbSuffix s = Some n -> In s kbEndings /\ n = String.length s.
Proof.
  unfold matchHere. destruct (run kbSuffix s Some) as [rest|] eqn:E; [|discriminate].
  intros H. inversion H; subst n; clear H.
  unfold kbSuffix in E. cbn [run] in E.
  fold (run (Seq (Opt foldB) EndText)) in E.
  change (run foldK s (fun s1 => run (Seq (Opt foldB) EndText) s1 Some) = Some rest) in E.
  unfold foldK in E.
  apply run_Alt_inv in E. destruct E as [E | E]; [|apply run_Alt_inv in E; destruct E as [E | E]];
    apply run_Lit_inv in E; destruct E as [Hs E];
    apply run_kb_tail_inv in E; destruct E as [-> [Ht | [Ht | Ht]]];
    rewrite Ht in Hs; rewrite Hs; cbn; split; auto 10; lia.
Qed.

Lemma matchHere_kbEndings (suf : string) :
  In suf kbEndings -> matchHere kbSuffix suf = Some (String.length suf).
Proof.
  intros H. cbn in H.
  repeat (destruct H as [<- | H]; [reflexivity|]). destruct H.
Qed.

Lemma inb_In (s : string) (l : list string) : In s l -> inb s l = true.
Proof.
  intros H. unfold inb. apply existsb_exists. exists s. split; [exact H|].
  apply String.eqb_refl.
Qed.

Lemma kbEndings_nonempty (suf : string) : In suf kbEndings -> 1 <= String.length suf.
Proof.
  intros H. cbn in H.
  repeat (destruct H as [<- | H]; [cbn; lia|]). destruct H.
Qed.

(** An ending has no longer ending around it. *)
Lemma kbEndings_no_overlap (pre suf : string) :
  pre <> "" -> In suf kbEndings -> ~ In (pre ++ suf) kbEndings.
Proof.
  intros Hpre Hsuf Hin.
  assert (Hcheck : forallb (fun t => negb (endingInside t)) kbEndings = true)
    by reflexivity.
  rewrite forallb_forall in Hcheck. specialize (Hcheck _ Hin).
  apply negb_true_iff in Hcheck.
  assert (Hinside : endingInside (pre ++ suf) = true).
  { unfold endingInside. apply existsb_exists. exists (String.length pre). split.
    - apply in_seq. rewrite append_length.
      pose proof (kbEndings_nonempty suf Hsuf).
      destruct pre; [contradiction|]. cbn [String.length]. lia.
    - rewrite drop_app. now apply inb_In. }
  congruence.
Qed.

Lemma take_app (a b : string) : take (String.length a) (a ++ b) = a.
Proof. induction a as [|x a IH]; cbn; [reflexivity | now rewrite IH]. Qed.

Lemma substring_take (n : nat) (s : string) : substring 0 n s = take n s.
Proof.
  revert s. induction n as [|n IH]; intros s; destruct s; cbn; try reflexivity.
  now rewrite IH.
Qed.

Lemma append_empty_r (s : string) : s ++ "" = s.
Proof. induction s as [|c s IH]; cbn; [reflexivity | now rewrite IH]. Qed.

Lemma drop_all (s : string) : drop (String.length s) s = "".
Proof. induction s as [|c s IH]; cbn; [reflexivity | exact IH]. Qed.

Lemma drop_0 (s : string) : drop 0 s = s.
Proof. destruct s; reflexivity. Qed.

Lemma findFrom_none (r : re) (s : string) (i : nat) :
  (forall j, matchHere r (drop j s) = None) -> findFrom r i s = None.
Proof.
  revert i. induction s as [|c s IH]; intros i Hnone.
  - cbn [findFrom]. pose proof (Hnone 0) as H0. cbn [drop] in H0. now rewrite H0.
  - cbn [findFrom]. pose proof (Hnone 0) as H0. cbn [drop] in H0. rewrite H0.
    apply IH. intros j. exact (Hnone (S j)).
Qed.

(** Cutting with the pattern: one match at most, at the end of the text. *)
Lemma ReplaceAllString_kbSuffix_found (src : string) (a0 : nat) :
  findFrom kbSuffix 0 src = Some (a0, String.length src) ->
  src <> "" ->
  ReplaceAllString kbSuffix src "" = take a0 src.
Proof.
  intros Hfind Hne. unfold ReplaceAllString. cbn [replaceAll].
  change (String.length src <? 0)%nat with false. cbv iota.
  rewrite drop_0, Hfind.
  rewrite Nat.sub_0_r, substring_take.
  assert (Hpos : (if (String.length src <? 0 + 1)%nat then 0 + 1 else String.length src)
                 = String.length src).
  { destruct src; [contradiction|]. reflexivity. }
  rewrite Hpos.
  assert (Hrest : replaceAll (String.length src) kbSuffix src ""
                    (String.length src) (String.length src) = "").
  { destruct (String.length src) eqn:El; cbn [replaceAll].
    - rewrite <- El. apply drop_all.
    - rewrite <- El, Nat.ltb_irrefl, drop_all. reflexivity. }
  rewrite Hrest.
  destruct ((0 <? String.length src)%nat || (a0 =? 0)%nat); cbn [append];
    apply append_empty_r.
Qed.

Lemma ReplaceAllString_not_found (r : re) (src repl : string) :
  findFrom r 0 src = None -> ReplaceAllString r src repl = src.
Proof.
  intros Hfind. unfold ReplaceAllString. cbn [replaceAll].
  change (String.length src <? 0)%nat with false. cbv iota.
  rewrite drop_0, Hfind. reflexivity.
Qed.

(** The pattern cuts an ending off, and only that. *)
Lemma ReplaceAllString_kbSuffix (pre suf : string) :
  In suf kbEndings -> ReplaceAllString kbSuffix (pre ++ suf) "" = pre.
Proof.
  intros Hsuf.
  rewrite (ReplaceAllString_kbSuffix_found (pre ++ suf) (String.length pre)).
  - apply take_app.
  - rewrite (findFrom_skip kbSuffix pre suf 0).
    + rewrite (findFrom_here kbSuffix suf _ _ (matchHere_kbEndings suf Hsuf)).
      rewrite append_length. reflexivity.
    + intros j Hj.
      destruct (matchHere kbSuffix (drop j (pre ++ suf))) as [n|] eqn:E; [|reflexivity].
      apply matchHere_kbSuffix_inv in E. destruct E as [Hin _].
      exfalso.
      assert (Hsplit : drop j (pre ++ suf) = drop j pre ++ suf).
      { clear -Hj. revert j Hj. induction pre as [|c pre IH]; intros j Hj; [cbn in Hj; lia|].
        destruct j; [reflexivity|]. cbn. apply IH. cbn in Hj. lia. }
      rewrite Hsplit in Hin.
      apply (kbEndings_no_overlap (drop j pre) suf); auto.
      intros Hd. pose proof (drop_length j pre) as Hl. rewrite Hd in Hl. cbn in Hl. lia.
  - pose proof (kbEndings_nonempty suf Hsuf). intros H0.
    apply (f_equal String.length) in H0. rewrite append_length in H0. cbn in H0. lia.
Qed.

Lemma take_drop (n : nat) (s : string) : take n s ++ drop n s = s.
Proof.
  revert s. induction n as [|n IH]; intros s; destruct s; cbn; try reflexivity.
  now rewrite IH.
Qed.

Lemma ReplaceAllString_kbSuffix_none (s : string) :
  (forall pre suf, In suf kbEndings -> s <> pre ++ suf) ->
  ReplaceAllString kbSuffix s "" = s.
Proof.
  intros Hnone. apply ReplaceAllString_not_found. apply findFrom_none.
  intros j. destruct (matchHere kbSuffix (drop j s)) as [n|] eqn:E; [|reflexivity].
  apply matchHere_kbSuffix_inv in E. destruct E as [Hin _].
  exfalso. apply (Hnone (take j s) (drop j s) Hin). symmetry. apply take_drop.
Qed.

(** ** Free memory *)

Lemma freeMemBlock_FreeMem (text : string) (info0 : SuplaInfo) :
  Contains text "Free Mem:" = true ->
  exists info mem,
    memText text = Some mem
    /\ freeMemBlock text info0 = Return info
    /\ FreeMem info = match Strconv.ParseFloat mem with
                      | Return freeMem => freeMem
                      | _ => FreeMem info0
                      end.
Proof.
  intros Hc. unfold freeMemBlock, memText. rewrite Hc.
  destruct (Split_present text "Free Mem:" ltac:(discriminate) Hc) as (a & parts & rest & ->).
  cbn [index nth_error obind].
  destruct (Split_nonempty parts "Mode:") as (mem & rest' & ->).
  cbn [index nth_error obind].
  destruct (1 <? List.length (mem :: rest'))%nat eqn:Hlen.
  - apply Nat.ltb_lt in Hlen.
    destruct (index_in_range (mem :: rest') 1 Hlen) as (mode & ->). cbn [obind].
    do 2 eexists. split; [reflexivity|]. split; [reflexivity|].
    destruct (Strconv.ParseFloat _); reflexivity.
  - do 2 eexists. split; [reflexivity|]. split; [reflexivity|].
    destruct (Strconv.ParseFloat _); reflexivity.
Qed.

(** C4, as the code has it: the memory portion (what follows "Free Mem:",
    up to "Mode:") is trimmed, a trailing k or kb of either case is cut off
    it and nothing is trimmed after the cut; what is left is parsed as a
    number.  So "28.34kB" gives 28.34 and "15KB" gives 15, while "15 KB"
    leaves "15 " and gives 0.  A text that does not parse leaves the field
    as it was (0 on a page of one span), and the block never fails. *)
Theorem free_memory_is_parsed_after_the_cut
        (text : string) (info0 : SuplaInfo)
        (Hmem : Contains text "Free Mem:" = true) :
  (exists info mem,
      memText text = Some mem
      /\ freeMemBlock text info0 = Return info
      /\ FreeMem info = match Strconv.ParseFloat mem with
                        | Return freeMem => freeMem
                        | _ => FreeMem info0
                        end)
  /\ (forall pre suf, In suf kbEndings -> ReplaceAllString kbSuffix (pre ++ suf) "" = pre)
  /\ (forall s, (forall pre suf, In suf kbEndings -> s <> pre ++ suf) ->
                ReplaceAllString kbSuffix s "" = s)
  /\ (exists info,
         ParseHTML (spanPage "Free Mem: 28.34kB Mode: NORMAL") = Return info
         /\ FreeMem info = Strconv.Finite (Qred 28.34%Q) /\ Mode info = "NORMAL")
  /\ (exists info,
         ParseHTML (spanPage "Free Mem: 15KB") = Return info
         /\ FreeMem info = Strconv.Finite 15%Q)
  /\ (exists info,
         memText "Free Mem: 15 KB" = Some "15 "
         /\ ParseHTML (spanPage "Free Mem: 15 KB") = Return info
         /\ FreeMem info = Strconv.Finite 0%Q)
  /\ (exists info,
         ParseHTML (spanPage "Free Mem: n/a") = Return info
         /\ FreeMem info = Strconv.Finite 0%Q).
Proof.
  split; [exact (freeMemBlock_FreeMem text info0 Hmem)|].
  split; [exact ReplaceAllString_kbSuffix|].
  split; [exact ReplaceAllString_kbSuffix_none|].
  repeat split; eexists; repeat split; reflexivity.
Qed.

Lemma free_memory_is_parsed_after_the_cut_witness :
  exists info,
    freeMemBlock "Free Mem: 28.34kB Mode: NORMAL" zero = Return info
    /\ FreeMem info = Strconv.Finite (Qred 28.34%Q).
Proof.
  destruct (free_memory_is_parsed_after_the_cut "Free Mem: 28.34kB Mode: NORMAL" zero eq_refl)
    as [(info & mem & Hmemtext & Hrun & Hfree) _].
  exists info. split; [exact Hrun|].
  rewrite Hfree. vm_compute in Hmemtext. inversion Hmemtext. reflexivity.
Defined.

(** C4 as stated fails: with a blank before the unit the cut leaves "15 ",
    which is not a number, and the field stays 0. *)
Lemma free_memory_15_blank_KB_is_not_15 :
  exists info,
    ParseHTML (spanPage "Free Mem: 15 KB") = Return info
    /\ FreeMem info = Strconv.Finite 0%Q
    /\ FreeMem info <> Strconv.Finite 15%Q.
Proof.
  eexists. split; [reflexivity|]. split; [reflexivity|]. cbv. discriminate.
Qed.

(** ** The worker pool *)

Section PoolFacts.
Variable devices : list Config.Device.
Variable numWorkers : Z.

Local Open Scope list_scope.

Local Abbreviation step := (Pool.step devices numWorkers).
Local Abbreviation steps := (Pool.steps devices numWorkers).
Local Abbreviation urls := (Pool.urls devices).
Local Abbreviation measure := (Pool.measure devices numWorkers).

Lemma steps_trans (s1 s2 s3 : PoolState) : steps s1 s2 -> steps s2 s3 -> steps s1 s3.
Proof.
intros H12 H23. induction H23 as [s | a b c Hab IH Hbc].
- exact H12.
- eapply steps_snoc; [apply IH; exact H12 | exact Hbc].
Qed.

Lemma steps_one (s1 s2 : PoolState) : step s1 s2 -> steps s1 s2.
Proof. intros H. eapply steps_snoc; [apply steps_refl | exact H]. Qed.

Lemma steps_cons (s1 s2 s3 : PoolState) : step s1 s2 -> steps s2 s3 -> steps s1 s3.
Proof. intros H12 H23. eapply steps_trans; [apply steps_one; exact H12 | exact H23]. Qed.

(** Replacing one worker by another that did not panic keeps the process
    alive. *)
Lemma crashed_replace (ws1 ws2 : list WorkerPC) (w w' : WorkerPC) :
  existsb isPanicked (ws1 ++ w :: ws2) = false ->
  isPanicked w' = false ->
  existsb isPanicked (ws1 ++ w' :: ws2) = false.
Proof.
rewrite !existsb_app. cbn [existsb].
intros H Hw'. rewrite Hw'.
apply orb_false_iff in H. destruct H as [H1 H2].
apply orb_false_iff in H2. destruct H2 as [_ H2].
now rewrite H1, H2.
Qed.

(** *** Each step moves one target one stage on *)

Ltac by_counting :=
  apply (Permutation_count_occ string_dec); intros u;
  repeat rewrite ?map_app, ?flat_map_app, ?count_occ_app;
  cbn [map flat_map heldBy count_occ app];
  repeat rewrite ?count_occ_app;
  cbn [count_occ];
  repeat match goal with |- context [string_dec ?a ?b] => destruct (string_dec a b) end;
  try lia; try congruence.

Lemma step_conserved (s s' : PoolState) :
  step s s' -> Permutation (urls s') (urls s).
Proof.
intros Hstep.
destruct Hstep; destruct s as [m ws js cl rs w0];
  cbn [main workers jobs closed results world] in *; subst;
  unfold Pool.urls; cbn [main workers jobs results pendingOf infosOf];
  try match goal with
      | H : workerBody _ _ _ = (Return _, _) |- _ => apply workerBody_url in H
      end;
  first [reflexivity | solve [by_counting]].
Qed.

(** *** Every step uses up some of the measure *)

Lemma step_measure (s s' : PoolState) : step s s' -> measure s' < measure s.
Proof.
intros Hstep.
destruct Hstep; destruct s as [m ws js cl rs w0];
  cbn [main workers jobs closed results world] in *; subst;
  unfold Pool.measure; cbn [main workers jobs results mainWeight];
  repeat rewrite ?map_app, ?list_sum_app, ?length_app;
  cbn [map list_sum fold_right workerWeight List.length]; lia.
Qed.

(** *** The counter *)

Lemma wrap64_add (a b : Z) : wrap64 (wrap64 a + b) = wrap64 (a + b).
Proof.
unfold wrap64. f_equal.
replace ((a + 2 ^ 63) mod 2 ^ 64 - 2 ^ 63 + b + 2 ^ 63)%Z
  with ((a + 2 ^ 63) mod 2 ^ 64 + b)%Z by lia.
rewrite Zplus_mod_idemp_l. f_equal. lia.
Qed.

Lemma wrap64_small (a : Z) : (- 2 ^ 63 <= a < 2 ^ 63)%Z -> wrap64 a = a.
Proof.
intros H. unfold wrap64. rewrite Z.mod_small; lia.
Qed.

Lemma list_sum_cons (a : nat) (l : list nat) : list_sum (a :: l) = a + list_sum l.
Proof. reflexivity. Qed.

Lemma step_counted (s s' : PoolState) : counted s -> step s s' -> counted s'.
Proof.
unfold counted, attempts. intros Hc Hstep.
destruct Hstep; destruct s as [m ws js cl rs w0];
  cbn [main workers jobs closed results world infosOf] in *; subst;
  cbn [main workers jobs results infosOf] in *;
  repeat rewrite ?map_app, ?list_sum_app, ?length_app in *;
  cbn [map attemptOf List.length] in *;
  rewrite ?list_sum_cons in *;
  change (list_sum []) with 0 in *;
  try (rewrite Hc; f_equal; lia).
all: match goal with
     | H : workerBody ?env ?d ?w = (_, _) |- _ =>
         pose proof (workerBody_counts_once env d w) as Hw; rewrite H in Hw;
         cbn [snd] in Hw; rewrite Hw, Hc, wrap64_add; f_equal; lia
     end.
Qed.

(** *** The phases of the main goroutine *)

Lemma not_in_repeat_Receiving (n : nat) (ws1 ws2 : list WorkerPC) (w : WorkerPC) :
  repeat Receiving n = ws1 ++ w :: ws2 -> w = Receiving.
Proof.
intros H. apply (repeat_spec n Receiving w).
rewrite H. apply in_or_app. right. left. reflexivity.
Qed.

Lemma step_phaseOK (s s' : PoolState) :
  phaseOK devices numWorkers s -> step s s' -> phaseOK devices numWorkers s'.
Proof.
unfold phaseOK. intros Hp Hstep.
destruct Hstep; destruct s as [m ws js cl rs w0];
  cbn [main workers jobs closed results world] in *; subst;
  cbn [main workers jobs closed results world] in *.
- (* go *)
  destruct Hp as (Hw & -> & -> & -> & ->).
  repeat split; try lia.
  replace (Z.to_nat (w + 1)) with (S (Z.to_nat w)) by lia.
  cbn [repeat]. symmetry. apply repeat_cons.
- (* spawned *)
  destruct Hp as (Hw & -> & -> & -> & ->).
  split; [reflexivity|]. rewrite repeat_length. lia.
- (* send *) exact Hp.
- (* close *) destruct Hp as (_ & Hn). repeat split. exact Hn.
- (* collect *)
  destruct Hp as (Hc & -> & Hn). repeat split; auto.
  rewrite length_app. cbn. lia.
- (* return *)
  destruct Hp as (Hc & -> & Hn). split; [exact Hc | lia].
- (* receive *)
  destruct m; try (rewrite ?length_app in *; cbn [List.length] in *; exact Hp).
  destruct Hp as (_ & Hj & _). discriminate.
- (* drained *)
  destruct m; try (rewrite ?length_app in *; cbn [List.length] in *; exact Hp).
  destruct Hp as (_ & _ & Hc & _). congruence.
- (* fetch *)
  destruct m; try (rewrite ?length_app in *; cbn [List.length] in *; exact Hp).
  destruct Hp as (_ & _ & _ & _ & Hws).
  symmetry in Hws. apply not_in_repeat_Receiving in Hws. discriminate.
- (* panic *)
  destruct m; try (rewrite ?length_app in *; cbn [List.length] in *; exact Hp).
  destruct Hp as (_ & _ & _ & _ & Hws).
  symmetry in Hws. apply not_in_repeat_Receiving in Hws. discriminate.
- (* deliver *)
  destruct m; try (rewrite ?length_app in *; cbn [List.length] in *; exact Hp).
  destruct Hp as (_ & _ & _ & _ & Hws).
  symmetry in Hws. apply not_in_repeat_Receiving in Hws. discriminate.
Qed.

Lemma in_replaced (ws1 ws2 : list WorkerPC) (w w' x : WorkerPC) :
  In x (ws1 ++ w' :: ws2) -> x <> w' -> In x (ws1 ++ w :: ws2).
Proof.
intros Hin Hne. apply in_app_or in Hin. apply in_or_app.
destruct Hin as [Hin | [Heq | Hin]]; [left; assumption | congruence | right; right; assumption].
Qed.

Lemma step_exitedOK (s s' : PoolState) :
  phaseOK devices numWorkers s -> exitedOK s -> step s s' -> exitedOK s'.
Proof.
unfold phaseOK, exitedOK. intros Hp He Hstep.
destruct Hstep; destruct s as [m ws js cl rs w0];
  cbn [main workers jobs closed results world] in *; subst;
  cbn [main workers jobs closed results world] in *; intros Hin.
- (* go *)
  apply He. apply in_app_or in Hin. destruct Hin as [Hin | [Hin | []]];
    [assumption | discriminate].
- (* spawned *) auto.
- (* send *) destruct (He Hin) as [_ Hc]. destruct Hp as [Hcl _]. congruence.
- (* close *) destruct (He Hin) as [Hj _]. auto.
- (* collect *) auto.
- (* return *) auto.
- (* receive *)
  assert (Hin' : In Exited (ws1 ++ Receiving :: ws2))
    by (eapply in_replaced; [exact Hin | discriminate]).
  destruct (He Hin') as [Hj _]. discriminate.
- (* drained *) auto.
- (* fetch *)
  apply He. eapply in_replaced; [exact Hin | discriminate].
- (* panic *)
  apply He. eapply in_replaced; [exact Hin | discriminate].
- (* deliver *)
  apply He. eapply in_replaced; [exact Hin | discriminate].
Qed.

(** *** The invariants hold all along a run *)

Lemma invariant_init (w0 : World) : invariant devices numWorkers (Pool.init w0).
Proof.
split; [|split].
- unfold conserved, Pool.urls. cbn. rewrite app_nil_r. reflexivity.
- unfold phaseOK. cbn. repeat split; lia.
- intros [].
Qed.

Lemma invariant_step (s s' : PoolState) :
  invariant devices numWorkers s -> step s s' -> invariant devices numWorkers s'.
Proof.
intros (Hc & Hp & He) Hstep. split; [|split].
- unfold conserved in *. rewrite (step_conserved s s' Hstep). exact Hc.
- eapply step_phaseOK; eauto.
- eapply step_exitedOK; eauto.
Qed.

Lemma invariant_steps (s s' : PoolState) :
  invariant devices numWorkers s -> steps s s' -> invariant devices numWorkers s'.
Proof.
intros Hinv Hrun. induction Hrun as [s | a b c Hab IH Hbc]; [exact Hinv|].
eapply invariant_step; [apply IH; exact Hinv | exact Hbc].
Qed.

Lemma counted_steps (s s' : PoolState) : counted s -> steps s s' -> counted s'.
Proof.
intros Hc Hrun. induction Hrun as [s | a b c Hab IH Hbc]; [exact Hc|].
eapply step_counted; [apply IH; exact Hc | exact Hbc].
Qed.

(** *** No reachable state is stuck before the return *)

Lemma workerBody_unreachable (device : Config.Device) (w : World) :
  workerBody unreachable device w
  = (Return (setURL (Config.URL device) zero),
     mkWorld (wrap64 (deviceCount w + 1)) (wire w ++ [firstRequest device])).
Proof. reflexivity. Qed.

Lemma find_busy (ws : list WorkerPC) :
  (exists ws1 device ws2, ws = ws1 ++ Fetching device :: ws2)
  \/ (exists ws1 info ws2, ws = ws1 ++ Delivering info :: ws2)
  \/ forallb idle ws = true.
Proof.
induction ws as [|w ws IH]; [right; right; reflexivity|].
destruct w.
- destruct IH as [(ws1 & d & ws2 & ->) | [(ws1 & i & ws2 & ->) | Hidle]].
  + left. exists (Receiving :: ws1), d, ws2. reflexivity.
  + right. left. exists (Receiving :: ws1), i, ws2. reflexivity.
  + right. right. exact Hidle.
- left. exists [], device, ws. reflexivity.
- right. left. exists [], info, ws. reflexivity.
- destruct IH as [(ws1 & d & ws2 & ->) | [(ws1 & i & ws2 & ->) | Hidle]].
  + left. exists (Exited :: ws1), d, ws2. reflexivity.
  + right. left. exists (Exited :: ws1), i, ws2. reflexivity.
  + right. right. exact Hidle.
- destruct IH as [(ws1 & d & ws2 & ->) | [(ws1 & i & ws2 & ->) | Hidle]].
  + left. exists (Panicked device :: ws1), d, ws2. reflexivity.
  + right. left. exists (Panicked device :: ws1), i, ws2. reflexivity.
  + right. right. exact Hidle.
Qed.

Lemma idle_workers (ws : list WorkerPC) :
  forallb idle ws = true -> existsb isPanicked ws = false ->
  flat_map heldBy ws = [] /\ (forall w, In w ws -> w = Receiving \/ w = Exited).
Proof.
induction ws as [|w ws IH]; intros Hidle Hlive; [split; [reflexivity | intros ? []]|].
cbn [forallb existsb] in *.
apply andb_true_iff in Hidle. destruct Hidle as [Hw Hidle].
apply orb_false_iff in Hlive. destruct Hlive as [Hp Hlive].
destruct (IH Hidle Hlive) as [Hheld Hall].
destruct w; try discriminate; cbn [flat_map heldBy app]; (split; [exact Hheld|]);
  intros x [<- | Hx]; auto.
Qed.

Lemma urls_length (s : PoolState) :
  List.length (urls s)
  = List.length (pendingOf devices (main s)) + List.length (jobs s)
    + List.length (flat_map heldBy (workers s)) + List.length (results s)
    + List.length (infosOf (main s)).
Proof.
unfold Pool.urls. rewrite !length_app, !length_map. lia.
Qed.

Lemma conserved_length (s : PoolState) :
  conserved devices s ->
  List.length (pendingOf devices (main s)) + List.length (jobs s)
  + List.length (flat_map heldBy (workers s)) + List.length (results s)
  + List.length (infosOf (main s))
  = List.length devices.
Proof.
intros Hc. rewrite <- urls_length.
rewrite (Permutation_length Hc). apply length_map.
Qed.

Lemma progress (s : PoolState) :
  (1 <= numWorkers)%Z ->
  invariant devices numWorkers s ->
  crashed s = false ->
  (forall infos, main s <> Returned infos) ->
  exists s', step s s' /\ crashed s' = false.
Proof.
intros Hn (Hc & Hp & He) Hlive Hrun.
pose proof (conserved_length s Hc) as Hlen.
destruct s as [m ws js cl rs w0]. unfold phaseOK, exitedOK in *.
cbn [main workers jobs closed results world] in *.
assert (Hlive' : existsb isPanicked ws = false) by exact Hlive.
destruct m as [w | pending | i infos | infos].
- (* spawning *)
  destruct (Z_lt_le_dec w numWorkers) as [Hlt | Hge].
  + eexists. split; [apply (step_go devices numWorkers _ w Hlive eq_refl Hlt)|].
    unfold crashed. cbn [workers]. rewrite existsb_app, Hlive'. reflexivity.
  + eexists. split; [apply (step_spawned devices numWorkers _ w Hlive eq_refl Hge)|].
    exact Hlive.
- (* sending *)
  destruct pending as [|device rest].
  + eexists. split; [apply (step_close devices numWorkers _ Hlive eq_refl)|]. exact Hlive.
  + assert (Hroom : List.length js < List.length devices)
      by (cbn [main jobs pendingOf List.length] in *; lia).
    eexists. split; [apply (step_send devices numWorkers _ device rest Hlive eq_refl Hroom)|].
    exact Hlive.
- (* collecting *)
  destruct Hp as (Hcl & Hi & Hws). cbn [pendingOf infosOf List.length] in Hlen.
  destruct (le_lt_dec (List.length devices) i) as [Hdone | Hmore].
  + eexists. split; [apply (step_return devices numWorkers _ i infos Hlive eq_refl Hdone)|].
    exact Hlive.
  + destruct rs as [|info rest].
    * destruct (find_busy ws) as [(ws1 & d & ws2 & ->) | [(ws1 & info & ws2 & ->) | Hidle]].
      -- eexists. split.
         ++ apply (step_fetch devices numWorkers _ ws1 ws2 d unreachable _ _ Hlive eq_refl
                     (workerBody_unreachable d w0)).
         ++ unfold crashed. cbn [workers].
            eapply crashed_replace; [exact Hlive' | reflexivity].
      -- assert (Hroom : List.length (@nil SuplaInfo) < List.length devices)
           by (cbn [List.length]; lia).
         eexists. split.
         ++ apply (step_deliver devices numWorkers _ ws1 ws2 info Hlive eq_refl Hroom).
         ++ unfold crashed. cbn [workers].
            eapply crashed_replace; [exact Hlive' | reflexivity].
      -- destruct (idle_workers ws Hidle Hlive') as [Hheld Hall].
         rewrite Hheld in Hlen. cbn [List.length] in Hlen.
         destruct js as [|device rest]; [cbn [List.length] in Hlen; lia|].
         destruct ws as [|w ws]; [cbn [List.length] in Hws; lia|].
         destruct (Hall w (or_introl eq_refl)) as [-> | ->].
         ++ eexists. split.
            ** apply (step_receive devices numWorkers _ [] ws device rest Hlive eq_refl eq_refl).
            ** unfold crashed. cbn [workers app].
               apply (crashed_replace [] ws Receiving); [exact Hlive' | reflexivity].
         ++ destruct (He (or_introl eq_refl)) as [Hj _]. discriminate.
    * eexists. split;
        [apply (step_collect devices numWorkers _ i infos info rest Hlive eq_refl Hmore eq_refl)|].
      exact Hlive.
- (* returned *)
  exfalso. eapply Hrun. reflexivity.
Qed.

(** Whatever the device answers, a fetching worker moves on: it has a
    record with the url of its target to deliver, unless the call panicked. *)
Lemma fetching_moves (s : PoolState) (env : Env) (ws1 ws2 : list WorkerPC)
      (device : Config.Device) :
  crashed s = false ->
  workers s = ws1 ++ Fetching device :: ws2 ->
  (exists info w',
      workerBody env device (world s) = (Return info, w')
      /\ URL info = Config.URL device
      /\ step s (mkState (main s) (ws1 ++ Delivering info :: ws2)
                         (jobs s) (closed s) (results s) w'))
  \/ (exists msg w', workerBody env device (world s) = (Panic msg, w')).
Proof.
intros Hlive Hws.
destruct (workerBody env device (world s)) as [[info | err | msg] w'] eqn:E.
- left. exists info, w'. split; [reflexivity|]. split.
  + eapply workerBody_url. exact E.
  + eapply step_fetch; eauto.
- exfalso. eapply workerBody_no_error. exact E.
- right. eauto.
Qed.

(** From every reachable state that is alive, some run goes on to the
    return of the main goroutine. *)
Lemma can_return (n : nat) :
  (1 <= numWorkers)%Z ->
  forall s, measure s <= n ->
    invariant devices numWorkers s -> crashed s = false ->
    exists s' infos, steps s s' /\ crashed s' = false /\ main s' = Returned infos.
Proof.
intros Hn. induction n as [|n IH]; intros s Hm Hinv Hlive.
- destruct (main s) as [w | pending | i infos | infos] eqn:Em.
  1-3: destruct (progress s Hn Hinv Hlive ltac:(rewrite Em; discriminate)) as (s' & Hstep & _);
       apply step_measure in Hstep; lia.
  exists s, infos. split; [apply steps_refl | split; assumption].
- destruct (main s) as [w | pending | i infos | infos] eqn:Em.
  1-3: destruct (progress s Hn Hinv Hlive ltac:(rewrite Em; discriminate)) as (s' & Hstep & Hlive');
       pose proof (step_measure _ _ Hstep) as Hlt;
       destruct (IH s' ltac:(lia) (invariant_step _ _ Hinv Hstep) Hlive')
         as (s'' & out & Hrun & Hl & Hret);
       exists s'', out; (split; [eapply steps_cons; eauto | split; assumption]).
  exists s, infos. split; [apply steps_refl | split; assumption].
Qed.

(** At the return every target has become a record. *)
Lemma returned_all (s : PoolState) (infos : list SuplaInfo) :
  invariant devices numWorkers s ->
  main s = Returned infos ->
  List.length infos = List.length devices
  /\ Permutation (map URL infos) (map Config.URL devices)
  /\ jobs s = [] /\ flat_map heldBy (workers s) = [] /\ results s = [].
Proof.
intros (Hc & Hp & He) Hret.
pose proof (conserved_length s Hc) as Hlen.
unfold conserved, Pool.urls in Hc. unfold phaseOK in Hp.
rewrite Hret in *. cbn [pendingOf infosOf List.length] in *.
destruct Hp as [_ Hge].
assert (Hj : jobs s = []) by (destruct (jobs s); [reflexivity | cbn in Hlen; lia]).
assert (Hh : flat_map heldBy (workers s) = [])
  by (destruct (flat_map heldBy (workers s)); [reflexivity | cbn in Hlen; lia]).
assert (Hr : results s = []) by (destruct (results s); [reflexivity | cbn in Hlen; lia]).
rewrite Hj, Hh, Hr in *. cbn [map app List.length] in *.
repeat split; auto; lia.
Qed.
End PoolFacts.

(** *** The sample run *)

Lemma last_cons (l : list PoolState) (a d : PoolState) :
  last (a :: l) d = last l a.
Proof.
revert a d. induction l as [|x l IH]; intros a d; [reflexivity|].
change (last (a :: x :: l) d) with (last (x :: l) d).
now rewrite (IH x d), (IH x a).
Qed.

Lemma chained_steps (devices : list Config.Device) (numWorkers : Z)
      (l : list PoolState) (s : PoolState) :
  chained devices numWorkers s l -> steps devices numWorkers s (last l s).
Proof.
revert s. induction l as [|s' l IH]; intros s Hl; [apply steps_refl|].
destruct Hl as [Hstep Hl].
eapply steps_cons; [exact Hstep|].
rewrite last_cons. apply IH. exact Hl.
Qed.

Lemma sampleRun_chained : chained [kitchen] 1 (init world0) (tl sampleRun).
Proof.
cbn [sampleRun tl chained]. repeat split.
- exact (step_go [kitchen] 1 (init world0) 0 eq_refl eq_refl eq_refl).
- exact (step_spawned [kitchen] 1 (mkState (Spawning 1) [Receiving] [] false [] world0)
           1 eq_refl eq_refl (Z.le_refl 1)).
- exact (step_send [kitchen] 1 (mkState (Sending [kitchen]) [Receiving] [] false [] world0)
           kitchen [] eq_refl eq_refl (le_n 1)).
- exact (step_close [kitchen] 1 (mkState (Sending []) [Receiving] [kitchen] false [] world0)
           eq_refl eq_refl).
- exact (step_receive [kitchen] 1
           (mkState (Collecting 0 []) [Receiving] [kitchen] true [] world0)
           [] [] kitchen [] eq_refl eq_refl eq_refl).
- exact (step_fetch [kitchen] 1
           (mkState (Collecting 0 []) [Fetching kitchen] [] true [] world0)
           [] [] kitchen unreachable sampleRecord sampleWorld eq_refl eq_refl eq_refl).
- exact (step_deliver [kitchen] 1
           (mkState (Collecting 0 []) [Delivering sampleRecord] [] true [] sampleWorld)
           [] [] sampleRecord eq_refl eq_refl (le_n 1)).
- exact (step_collect [kitchen] 1
           (mkState (Collecting 0 []) [Receiving] [] true [sampleRecord] sampleWorld)
           0 [] sampleRecord [] eq_refl eq_refl (le_n 1) eq_refl).
- exact (step_return [kitchen] 1
           (mkState (Collecting 1 [sampleRecord]) [Receiving] [] true [] sampleWorld)
           1 [sampleRecord] eq_refl eq_refl (le_n 1)).
Qed.

Lemma sampleRun_steps : steps [kitchen] 1 (init world0) sampleEnd.
Proof. exact (chained_steps [kitchen] 1 (tl sampleRun) (init world0) sampleRun_chained). Qed.

(** ** The batch *)

(** C1, as the code has it: with at least one worker, and as long as no
    call of [FetchAndParse] has panicked, a run of the pool on N targets
    cannot get stuck before the main goroutine returns, cannot go on for
    ever, and what it returns are N records whose urls are, one for one,
    the urls of the targets; whatever a device answers, the worker that
    fetched it has a record with the url of its target to deliver. *)
Theorem pool_returns_one_record_per_target
        (devices : list Config.Device) (numWorkers : Z) (w0 : World) (s : PoolState)
        (Hworkers : (1 <= numWorkers)%Z)
        (Hrun : steps devices numWorkers (init w0) s)
        (Hlive : crashed s = false) :
  (forall infos, main s = Returned infos ->
     List.length infos = List.length devices
     /\ Permutation (map URL infos) (map Config.URL devices))
  /\ ((forall infos, main s <> Returned infos) ->
      exists s', step devices numWorkers s s' /\ crashed s' = false)
  /\ (forall s', step devices numWorkers s s' ->
                 measure devices numWorkers s' < measure devices numWorkers s)
  /\ (exists s' infos,
         steps devices numWorkers s s' /\ crashed s' = false /\ main s' = Returned infos)
  /\ (forall env ws1 ws2 device,
         workers s = (ws1 ++ Fetching device :: ws2)%list ->
         (exists info w',
             workerBody env device (world s) = (Return info, w')
             /\ URL info = Config.URL device
             /\ step devices numWorkers s
                      (mkState (main s) (ws1 ++ Delivering info :: ws2)
                               (jobs s) (closed s) (results s) w'))
         \/ (exists msg w', workerBody env device (world s) = (Panic msg, w'))).
Proof.
pose proof (invariant_steps devices numWorkers _ _ (invariant_init devices numWorkers w0) Hrun)
  as Hinv.
split; [|split; [|split; [|split]]].
- intros infos Hret.
  destruct (returned_all devices numWorkers s infos Hinv Hret) as (Hlen & Hperm & _).
  split; assumption.
- intros Hnot. apply progress; assumption.
- intros s' Hstep. apply step_measure. exact Hstep.
- apply (can_return devices numWorkers (measure devices numWorkers s) Hworkers s);
    [apply le_n | exact Hinv | exact Hlive].
- intros env ws1 ws2 device Hws. apply fetching_moves; assumption.
Qed.

Lemma pool_returns_one_record_per_target_witness :
  steps [kitchen] 1 (init world0) sampleEnd
  /\ List.length [sampleRecord] = 1
  /\ Permutation (map URL [sampleRecord]) (map Config.URL [kitchen]).
Proof.
split; [exact sampleRun_steps|].
exact (proj1 (pool_returns_one_record_per_target [kitchen] 1 world0 sampleEnd
                (Z.le_refl 1) sampleRun_steps eq_refl)
             [sampleRecord] eq_refl).
Defined.

(** *** Without a worker *)

Lemma workerless_step (s s' : PoolState) :
  workerless s -> step [kitchen] 0 s s' -> workerless s'.
Proof.
unfold workerless. intros (Hws & Hrs & Hm) Hstep.
destruct Hstep; destruct s as [m ws js cl rs w0];
  cbn [main workers jobs closed results world] in *; subst;
  cbn [main workers jobs closed results world] in *;
  try (match goal with
       | H : [] = (_ ++ _ :: _)%list |- _ => apply app_cons_not_nil in H; contradiction
       end);
  try discriminate;
  repeat split; auto; try lia.
cbn [List.length] in *. destruct Hm as [-> _]. lia.
Qed.

Lemma workerless_steps (s : PoolState) :
  steps [kitchen] 0 (init world0) s -> workerless s.
Proof.
intros Hrun. remember (init world0) as s0 eqn:E.
induction Hrun as [s | a b c Hab IH Hbc].
- subst. repeat split.
- eapply workerless_step; [apply IH; exact E | exact Hbc].
Qed.

(** C1 as stated fails: with no worker and one target the main goroutine
    never returns; it blocks on the results channel for ever. *)
Lemma pool_without_workers_never_returns :
  (forall s, steps [kitchen] 0 (init world0) s ->
             forall infos, main s <> Returned infos)
  /\ steps [kitchen] 0 (init world0) stuck
  /\ crashed stuck = false
  /\ (forall s', ~ step [kitchen] 0 stuck s').
Proof.
split; [|split; [|split]].
- intros s Hrun infos Hret. apply workerless_steps in Hrun.
  destruct Hrun as (_ & _ & Hm). rewrite Hret in Hm. exact Hm.
- apply (chained_steps [kitchen] 0
           [ mkState (Sending [kitchen]) [] [] false [] world0;
             mkState (Sending []) [] [kitchen] false [] world0;
             stuck ] (init world0)).
  cbn [chained]. repeat split.
  + exact (step_spawned [kitchen] 0 (init world0) 0 eq_refl eq_refl (Z.le_refl 0)).
  + exact (step_send [kitchen] 0 (mkState (Sending [kitchen]) [] [] false [] world0)
             kitchen [] eq_refl eq_refl (le_n 1)).
  + exact (step_close [kitchen] 0 (mkState (Sending []) [] [kitchen] false [] world0)
             eq_refl eq_refl).
- reflexivity.
- intros s' Hstep. inversion Hstep; subst; cbn [stuck main workers results] in *;
    try discriminate;
    try (match goal with
         | H : [] = (_ ++ _ :: _)%list |- _ => apply app_cons_not_nil in H; contradiction
         end).
  match goal with H : Collecting _ _ = Collecting _ _ |- _ => inversion H; subst end.
  cbn [List.length] in *. lia.
Qed.

(** ** The attempt counter *)

Lemma no_attempt_pending (ws : list WorkerPC) :
  flat_map heldBy ws = [] -> list_sum (map attemptOf ws) = 0.
Proof.
induction ws as [|w ws IH]; [reflexivity|].
destruct w; cbn [flat_map heldBy app map attemptOf]; try discriminate;
  intros H; rewrite list_sum_cons, (IH H); reflexivity.
Qed.

(** C9: every call of [FetchAndParse] adds one to the counter, whatever its
    outcome; after a cycle over N targets that started with the counter
    reset, [GetAndResetDeviceCount] returns N and leaves 0; [GetDeviceCount]
    returns the counter as it stands, so 0 right after the reset and again
    the number of calls made since; and [GetDeviceCount] never changes the
    counter. *)
Theorem counter_counts_one_per_attempt
        (devices : list Config.Device) (numWorkers : Z) (before : World)
        (s : PoolState) (infos : list SuplaInfo)
        (Hint : (Z.of_nat (List.length devices) < 2 ^ 63)%Z)
        (Hrun : steps devices numWorkers (init (resetBeforeCycle before)) s)
        (Hret : main s = Returned infos) :
  deviceCount (resetBeforeCycle before) = 0%Z
  /\ GetAndResetDeviceCount (world s)
     = (Return (Z.of_nat (List.length devices)), mkWorld 0 (wire (world s)))
  /\ GetDeviceCount (mkWorld 0 (wire (world s)))
     = (Return 0%Z, mkWorld 0 (wire (world s)))
  /\ (forall w, snd (GetDeviceCount w) = w)
  /\ (forall w, fst (GetDeviceCount w) = Return (deviceCount w))
  /\ (forall env device w,
         fst (GetDeviceCount (snd (FetchAndParse env device w)))
         = Return (wrap64 (deviceCount w + 1)))
  /\ (forall env device w,
         deviceCount (snd (FetchAndParse env device w)) = wrap64 (deviceCount w + 1))
  /\ (forall c, (- 2 ^ 63 <= c < 2 ^ 63 - 1)%Z -> wrap64 (c + 1) = (c + 1)%Z).
Proof.
split; [reflexivity|].
split; [|split; [reflexivity | split; [reflexivity | split; [reflexivity | split; [|split]]]]].
- pose proof (invariant_steps devices numWorkers _ _
                (invariant_init devices numWorkers (resetBeforeCycle before)) Hrun) as Hinv.
  assert (Hc0 : counted (init (resetBeforeCycle before))) by reflexivity.
  pose proof (counted_steps devices numWorkers _ _ Hc0 Hrun) as Hc.
  destruct (returned_all devices numWorkers s infos Hinv Hret)
    as (Hlen & _ & _ & Hheld & Hres).
  unfold counted, attempts in Hc.
  rewrite (no_attempt_pending _ Hheld), Hres, Hret in Hc.
  cbn [infosOf List.length Nat.add] in Hc. rewrite Hlen in Hc.
  rewrite wrap64_small in Hc by lia.
  unfold GetAndResetDeviceCount, SwapInt64. rewrite Hc. reflexivity.
- intros env device w. unfold GetDeviceCount, bind, LoadInt64, ret. cbn [fst].
  f_equal. apply FetchAndParse_counts_once.
- exact FetchAndParse_counts_once.
- intros c Hc. apply wrap64_small. lia.
Qed.

Lemma counter_counts_one_per_attempt_witness :
  GetAndResetDeviceCount (world sampleEnd) = (Return 1%Z, mkWorld 0 [firstRequest kitchen])
  /\ GetDeviceCount (mkWorld 0 [firstRequest kitchen])
     = (Return 0%Z, mkWorld 0 [firstRequest kitchen])
  /\ fst (GetDeviceCount (world sampleEnd)) = Return 1%Z.
Proof.
destruct (counter_counts_one_per_attempt [kitchen] 1 (mkWorld 7 []) sampleEnd [sampleRecord]
            eq_refl sampleRun_steps eq_refl) as (_ & Hswap & Hload & _ & Hread & _).
split; [exact Hswap | split; [exact Hload | exact (Hread (world sampleEnd))]].
Defined.

(** * Further properties *)

(** ** Configuration *)

Lemma validateDevices_accepts (urlError : string -> option string)
      (devices : list Config.Device) (i : Z) :
  Settings.validateDevices urlError i devices = None
  <-> Forall (deviceOK urlError) devices.
Proof.
revert i. induction devices as [|dev rest IH]; intros i; cbn [Settings.validateDevices].
- split; [constructor | reflexivity].
- unfold deviceOK at 1.
  destruct (String.eqb_spec (Config.URL dev) "") as [Hu | Hu].
  { split; [discriminate | intros H; inversion H; subst; unfold deviceOK in *; tauto]. }
  destruct (urlError (Config.URL dev)) as [err|] eqn:Eurl.
  { split; [discriminate|].
    intros H; inversion H as [|? ? Hd ?]; subst. unfold deviceOK in Hd.
    destruct Hd as (_ & Hd & _). congruence. }
  destruct (String.eqb_spec (Config.Username dev) "") as [Hn | Hn].
  { split; [discriminate | intros H; inversion H; subst; unfold deviceOK in *; tauto]. }
  destruct (String.eqb_spec (Config.Password dev) "") as [Hp | Hp].
  { split; [discriminate | intros H; inversion H; subst; unfold deviceOK in *; tauto]. }
  rewrite IH. split.
  + intros H. constructor; [unfold deviceOK; auto | exact H].
  + intros H. inversion H; assumption.
Qed.

Lemma validate_accepts (urlError : string -> option string)
      (cfg : Settings.Config) :
  Settings.validate urlError cfg = None
  <-> globalOK (Settings.Global cfg)
      /\ Settings.Devices cfg <> []
      /\ Forall (deviceOK urlError) (Settings.Devices cfg).
Proof.
unfold Settings.validate, globalOK.
destruct cfg as [[interval port level timeout nworkers] devices].
cbn [Settings.Global Settings.Devices Settings.Interval Settings.Port Settings.LogLevel
     Settings.Timeout Settings.Workers].
destruct (Z.ltb_spec interval 1); [split; [discriminate | intros; lia]|].
destruct (Z.ltb_spec port 1); [split; [discriminate | intros; lia]|].
destruct (Z.ltb_spec 65535 port); [split; [discriminate | intros; lia]|].
cbn [orb].
destruct (String.eqb_spec level "debug") as [Hd | Hd];
  destruct (String.eqb_spec level "info") as [Hi | Hi];
  destruct (String.eqb_spec level "warn") as [Hw | Hw];
  destruct (String.eqb_spec level "error") as [He | He];
  cbn [orb negb];
  try (split; [discriminate|];
       intros ((_ & _ & Hin & _) & _); cbn in Hin; intuition congruence).
all: destruct (Z.ltb_spec timeout 1); [split; [discriminate | intros; lia]|];
  destruct (Z.ltb_spec 30 timeout); [split; [discriminate | intros; lia]|];
  cbn [orb];
  destruct (Z.ltb_spec nworkers 1); [split; [discriminate | intros; lia]|];
  destruct (Z.ltb_spec 100 nworkers); [split; [discriminate | intros; lia]|];
  cbn [orb];
  (destruct devices as [|dev rest];
   [cbn; split; [discriminate | intros (_ & Hne & _); contradiction]|]);
  cbn [List.length Nat.eqb];
  rewrite validateDevices_accepts;
  (split;
   [intros Hall; repeat split; try lia; try discriminate; try exact Hall; cbn; auto
   |intros (_ & _ & Hall); exact Hall]).
Qed.

(** X1: [validate] returns no error exactly for a configuration whose
    interval is at least 1, port in 1..65535, log level one of debug, info,
    warn, error, timeout in 1..30, workers in 1..100, and whose device list
    is not empty and has, for every device, a url that is not empty and
    parses, a username and a password. *)
Theorem validate_accepts_exactly (urlError : string -> option string)
        (cfg : Settings.Config) :
  Settings.validate urlError cfg = None
  <-> globalOK (Settings.Global cfg)
      /\ Settings.Devices cfg <> []
      /\ Forall (deviceOK urlError) (Settings.Devices cfg).
Proof. exact (validate_accepts urlError cfg). Qed.

Lemma validate_with_good_globals (urlError : string -> option string)
      (cfg : Settings.Config) :
  globalOK (Settings.Global cfg) -> Settings.Devices cfg <> [] ->
  Settings.validate urlError cfg
  = Settings.validateDevices urlError 0 (Settings.Devices cfg).
Proof.
unfold Settings.validate, globalOK.
destruct cfg as [[interval port level timeout nworkers] devices].
cbn [Settings.Global Settings.Devices Settings.Interval Settings.Port Settings.LogLevel
     Settings.Timeout Settings.Workers].
intros (Hi & Hp & Hl & Ht & Hw) Hd.
destruct (Z.ltb_spec interval 1); [lia|].
destruct (Z.ltb_spec port 1); [lia|].
destruct (Z.ltb_spec 65535 port); [lia|].
destruct (Z.ltb_spec timeout 1); [lia|].
destruct (Z.ltb_spec 30 timeout); [lia|].
destruct (Z.ltb_spec nworkers 1); [lia|].
destruct (Z.ltb_spec 100 nworkers); [lia|].
cbn [orb].
assert (Hlevel : (String.eqb level "debug" || String.eqb level "info"
                  || String.eqb level "warn" || String.eqb level "error") = true).
{ cbn in Hl. destruct Hl as [<- | [<- | [<- | [<- | []]]]]; reflexivity. }
rewrite Hlevel. cbn [negb].
destruct devices; [contradiction | reflexivity].
Qed.

Lemma validateDevices_first_bad (urlError : string -> option string)
      (good rest : list Config.Device) (bad : Config.Device) (i : Z) :
  Forall (deviceOK urlError) good -> ~ deviceOK urlError bad ->
  exists reason,
    Settings.validateDevices urlError i (good ++ bad :: rest)%list
    = Some ("device " ++ formatInt (i + Z.of_nat (List.length good)) ++ ": " ++ reason).
Proof.
revert i. induction good as [|dev good IH]; intros i Hgood Hbad.
- cbn [app List.length Settings.validateDevices]. rewrite Z.add_0_r.
  unfold deviceOK in Hbad.
  destruct (String.eqb_spec (Config.URL bad) ""); [eexists; reflexivity|].
  destruct (urlError (Config.URL bad)); [eexists; reflexivity|].
  destruct (String.eqb_spec (Config.Username bad) ""); [eexists; reflexivity|].
  destruct (String.eqb_spec (Config.Password bad) ""); [eexists; reflexivity|].
  exfalso. apply Hbad. auto.
- inversion Hgood as [|? ? Hdev Hrest]; subst.
  destruct Hdev as (Hu & Hparse & Hn & Hp).
  cbn [app List.length Settings.validateDevices].
  destruct (String.eqb_spec (Config.URL dev) ""); [contradiction|].
  rewrite Hparse.
  destruct (String.eqb_spec (Config.Username dev) ""); [contradiction|].
  destruct (String.eqb_spec (Config.Password dev) ""); [contradiction|].
  destruct (IH (i + 1)%Z Hrest Hbad) as (reason & ->).
  exists reason. do 4 f_equal. lia.
Qed.

(** X2: when the global settings are in range, the error of [validate] is
    about the first device entry that is not acceptable, and names its
    index in the list, counted from 0. *)
Theorem validate_reports_first_bad_device
        (urlError : string -> option string) (cfg : Settings.Config)
        (good rest : list Config.Device) (bad : Config.Device)
        (Hglobal : globalOK (Settings.Global cfg))
        (Hdevices : Settings.Devices cfg = (good ++ bad :: rest)%list)
        (Hgood : Forall (deviceOK urlError) good)
        (Hbad : ~ deviceOK urlError bad) :
  exists reason,
    Settings.validate urlError cfg
    = Some ("device " ++ formatInt (Z.of_nat (List.length good)) ++ ": " ++ reason).
Proof.
rewrite validate_with_good_globals; [|exact Hglobal|].
- rewrite Hdevices.
  destruct (validateDevices_first_bad urlError good rest bad 0 Hgood Hbad) as (reason & ->).
  exists reason. reflexivity.
- rewrite Hdevices. destruct good; discriminate.
Qed.

Lemma validate_reports_first_bad_device_witness :
  exists reason,
    Settings.validate allParse
      (Settings.mkConfig Settings.defaultGlobal
         [kitchen; Config.mkDevice "http://10.0.0.8" "" "secret"; kitchen])
    = Some ("device 1: " ++ reason).
Proof.
refine (validate_reports_first_bad_device allParse
          (Settings.mkConfig Settings.defaultGlobal
             [kitchen; Config.mkDevice "http://10.0.0.8" "" "secret"; kitchen])
          [kitchen] [kitchen] (Config.mkDevice "http://10.0.0.8" "" "secret")
          _ eq_refl _ _).
- unfold globalOK. cbn. repeat split; try lia. auto.
- constructor; [|constructor]. unfold deviceOK, allParse. cbn.
  repeat split; discriminate.
- unfold deviceOK. cbn. intros (_ & _ & Hn & _). apply Hn. reflexivity.
Defined.

(** ** Configuration and the fetcher *)

(** The one error [FetchAndParse] returns is the one of [http.NewRequest]. *)
Lemma FetchAndParse_error (env : Env) (device : Config.Device) (w : World) (err : string) :
  fst (FetchAndParse env device w) = Error err ->
  exists reason,
    urlError env (Config.URL device) = Some reason
    /\ err = "error creating request: " ++ reason.
Proof.
unfold FetchAndParse, bind, AddInt64, Do, parseBody, ret, fail, lift, NewRequest.
destruct (urlError env (Config.URL device)) as [reason|]; cbn.
- intros H; inversion H. eauto.
- destruct (answer env _) as [e | code [content | e]]; cbn; try discriminate.
  + destruct (code =? StatusOK)%Z.
    * destruct (ParseHTML content); cbn; discriminate.
    * repeat match goal with |- context [if ?b then _ else _] => destruct b end;
        cbn; discriminate.
  + destruct (code =? StatusOK)%Z.
    * destruct (Contains e "malformed chunked encoding"); cbn; try discriminate.
      destruct (answer env _) as [e' | code' [content' | e']]; cbn; try discriminate.
      destruct (ParseHTML content'); cbn; discriminate.
    * repeat match goal with |- context [if ?b then _ else _] => destruct b end;
        cbn; discriminate.
Qed.

(** X3: [FetchAndParse] returns an error only when the url of the target
    does not parse, and then the error is "error creating request: ..."; for
    a target of a configuration that [validate] accepted (with the same url
    parser) it never returns an error, so the worker never has to make up
    an "Error: ..." record for it. *)
Theorem validated_targets_never_fail_to_build
        (urlErr : string -> option string) (cfg : Settings.Config)
        (env : Env) (device : Config.Device)
        (Hvalid : Settings.validate urlErr cfg = None)
        (Hin : In device (Settings.Devices cfg))
        (Hsame : forall url, urlError env url = urlErr url) :
  (forall w err, fst (FetchAndParse env device w) <> Error err)
  /\ (forall w, workerBody env device w = FetchAndParse env device w)
  /\ (forall env' device' w err,
         fst (FetchAndParse env' device' w) = Error err ->
         exists reason,
           urlError env' (Config.URL device') = Some reason
           /\ err = "error creating request: " ++ reason).
Proof.
assert (Hparse : urlError env (Config.URL device) = None).
{ apply validate_accepts in Hvalid. destruct Hvalid as (_ & _ & Hall).
  rewrite Forall_forall in Hall. destruct (Hall device Hin) as (_ & Hp & _).
  rewrite Hsame. exact Hp. }
assert (Hno : forall w err, fst (FetchAndParse env device w) <> Error err).
{ intros w err H. apply FetchAndParse_error in H. destruct H as (reason & Hr & _).
  congruence. }
split; [exact Hno|]. split; [|exact FetchAndParse_error].
intros w. unfold workerBody.
destruct (FetchAndParse env device w) as [[info | err | msg] w'] eqn:E; try reflexivity.
exfalso. apply (Hno w err). rewrite E. reflexivity.
Qed.

Lemma validated_targets_never_fail_to_build_witness :
  fst (FetchAndParse unreachable kitchen world0) <> Error "error creating request: "
  /\ workerBody unreachable kitchen world0 = FetchAndParse unreachable kitchen world0.
Proof.
destruct (validated_targets_never_fail_to_build allParse sampleConfig unreachable kitchen
            eq_refl (or_introl eq_refl) (fun _ => eq_refl)) as (Hno & Hsame & _).
split; [apply Hno | apply Hsame].
Defined.

(** ** A loaded configuration and the pool *)

(** X4: a configuration that [LoadConfig] returns has passed [validate]:
    it has between 1 and 100 workers and at least one device; so a cycle of
    the pool run with it cannot block: from any state of a run in which
    nothing has panicked the main goroutine can still return, with as many
    records as there are devices. *)
Theorem loaded_configuration_runs_the_pool
        (out : Settings.Outside) (filename : string) (cfg : Settings.Config)
        (w0 : World) (s : PoolState)
        (Hload : Settings.LoadConfig out filename = Return cfg)
        (Hrun : steps (Settings.Devices cfg) (Settings.Workers (Settings.Global cfg))
                      (init w0) s)
        (Hlive : crashed s = false) :
  Settings.validate (Settings.parseURL out) cfg = None
  /\ (1 <= Settings.Workers (Settings.Global cfg) <= 100)%Z
  /\ Settings.Devices cfg <> []
  /\ exists s' infos,
       steps (Settings.Devices cfg) (Settings.Workers (Settings.Global cfg)) s s'
       /\ main s' = Returned infos
       /\ List.length infos = List.length (Settings.Devices cfg).
Proof.
assert (Hvalid : Settings.validate (Settings.parseURL out) cfg = None).
{ unfold Settings.LoadConfig in Hload.
  destruct (Settings.ReadFile out filename) as [data| |]; try discriminate.
  destruct (Settings.Unmarshal out data _) as [c| |]; try discriminate.
  destruct (Settings.validate (Settings.parseURL out) c) eqn:Ev; try discriminate.
  inversion Hload; subst. exact Ev. }
split; [exact Hvalid|].
pose proof (proj1 (validate_accepts _ _) Hvalid) as ((_ & _ & _ & _ & Hw) & Hne & _).
split; [exact Hw|]. split; [exact Hne|].
pose proof (invariant_steps _ _ _ _ (invariant_init (Settings.Devices cfg)
              (Settings.Workers (Settings.Global cfg)) w0) Hrun) as Hinv.
destruct (can_return (Settings.Devices cfg) (Settings.Workers (Settings.Global cfg))
            (measure (Settings.Devices cfg) (Settings.Workers (Settings.Global cfg)) s)
            ltac:(lia) s (le_n _) Hinv Hlive) as (s' & infos & Hto & _ & Hret).
exists s', infos. split; [exact Hto|]. split; [exact Hret|].
pose proof (invariant_steps _ _ _ _ Hinv Hto) as Hinv'.
destruct (returned_all _ _ s' infos Hinv' Hret) as (Hlen & _). exact Hlen.
Qed.

Lemma loaded_configuration_runs_the_pool_witness :
  Settings.LoadConfig sampleOutside "config/config.yaml" = Return sampleConfig
  /\ exists s' infos,
       steps [kitchen] 5 (init world0) s'
       /\ main s' = Returned infos /\ List.length infos = 1.
Proof.
split; [reflexivity|].
destruct (loaded_configuration_runs_the_pool sampleOutside "config/config.yaml" sampleConfig
            world0 (init world0) eq_refl (steps_refl _ _ _) eq_refl)
  as (_ & _ & _ & s' & infos & Hto & Hret & Hlen).
exists s', infos. auto.
Defined.

(** X5: for a configuration that [validate] accepted, [GetTimeout] is its
    timeout in nanoseconds, without overflow, between one and thirty
    seconds; while no configuration is set, [GetTimeout] is five seconds
    and [GetWorkers] is 5, the defaults; after [Set], [Get] returns what was
    set. *)
Theorem timeout_of_a_validated_configuration
        (urlError : string -> option string) (cfg : Settings.Config)
        (Hvalid : Settings.validate urlError cfg = None) :
  Settings.GetTimeout (Settings.Set_ (Some cfg) None)
  = (Settings.Timeout (Settings.Global cfg) * 1000000000)%Z
  /\ (1000000000 <= Settings.GetTimeout (Settings.Set_ (Some cfg) None) <= 30000000000)%Z
  /\ Settings.GetWorkers (Settings.Set_ (Some cfg) None)
     = Settings.Workers (Settings.Global cfg)
  /\ (forall g, Settings.Get (Settings.Set_ (Some cfg) g) = cfg)
  /\ Settings.GetTimeout None = 5000000000%Z
  /\ Settings.GetWorkers None = 5%Z.
Proof.
pose proof (proj1 (validate_accepts _ _) Hvalid) as ((_ & _ & _ & Ht & _) & _ & _).
assert (Heq : Settings.GetTimeout (Settings.Set_ (Some cfg) None)
              = (Settings.Timeout (Settings.Global cfg) * 1000000000)%Z).
{ unfold Settings.GetTimeout, Settings.Set_, Settings.Get, Settings.Second.
  rewrite (wrap64_small (Settings.Timeout (Settings.Global cfg))) by lia.
  apply wrap64_small. lia. }
split; [exact Heq|]. split; [rewrite Heq; lia|].
repeat split.
Qed.

Lemma timeout_of_a_validated_configuration_witness :
  Settings.GetTimeout (Settings.Set_ (Some sampleConfig) None) = 5000000000%Z.
Proof.
exact (proj1 (timeout_of_a_validated_configuration allParse sampleConfig eq_refl)).
Defined.

(** ** The fetcher, the successful path *)

Lemma FetchAndParse_parsed (env : Env) (device : Config.Device) (w : World)
      (doc : Document) (extracted : SuplaInfo) :
  urlError env (Config.URL device) = None ->
  ParseHTML (Parsed doc) = Return extracted ->
  (answer env (firstRequest device) = DoOK 200 (ReadOK (Parsed doc))
   \/ exists err code,
       answer env (firstRequest device) = DoOK 200 (ReadError err)
       /\ Contains err "malformed chunked encoding" = true
       /\ answer env (retryRequest device) = DoOK code (ReadOK (Parsed doc))) ->
  fst (FetchAndParse env device w)
  = Return (setUp true (setURL (Config.URL device) extracted)).
Proof.
intros Hurl Hparse Hans.
unfold FetchAndParse, bind, AddInt64.
rewrite (NewRequest_ok env device Hurl).
unfold Do at 1. fold (firstRequest device).
destruct Hans as [Hans | (err & code & Hans & Hchunk & Hretry)]; rewrite Hans;
  change (200 =? StatusOK)%Z with true; cbv iota.
- unfold parseBody. rewrite Hparse. reflexivity.
- rewrite Hchunk. unfold bind, Do. fold (retryRequest device). rewrite Hretry.
  unfold parseBody. rewrite Hparse. reflexivity.
Qed.

(** X6: a record with [up = true] comes from exactly one situation: the
    first response had status 200, its body (or, after a "malformed chunked
    encoding" read error, the body of the one retry, whatever the status of
    that second response) was read and parsed, [ParseHTML] returned, and
    the record is what [ParseHTML] extracted with the url of the target and
    [up] set.  Conversely every such situation gives that record. *)
Theorem up_exactly_for_a_parsed_page
        (env : Env) (device : Config.Device) (w : World) (info : SuplaInfo)
        (Hret : fst (FetchAndParse env device w) = Return info)
        (Hup : Up info = true) :
  (exists doc extracted,
      ParseHTML (Parsed doc) = Return extracted
      /\ info = setUp true (setURL (Config.URL device) extracted)
      /\ urlError env (Config.URL device) = None
      /\ (answer env (firstRequest device) = DoOK 200 (ReadOK (Parsed doc))
          \/ exists err code,
              answer env (firstRequest device) = DoOK 200 (ReadError err)
              /\ Contains err "malformed chunked encoding" = true
              /\ answer env (retryRequest device) = DoOK code (ReadOK (Parsed doc))))
  /\ (forall env' device' w' doc extracted,
         urlError env' (Config.URL device') = None ->
         ParseHTML (Parsed doc) = Return extracted ->
         (answer env' (firstRequest device') = DoOK 200 (ReadOK (Parsed doc))
          \/ exists err code,
              answer env' (firstRequest device') = DoOK 200 (ReadError err)
              /\ Contains err "malformed chunked encoding" = true
              /\ answer env' (retryRequest device') = DoOK code (ReadOK (Parsed doc))) ->
         fst (FetchAndParse env' device' w')
         = Return (setUp true (setURL (Config.URL device') extracted))).
Proof.
split; [|exact FetchAndParse_parsed].
revert Hret. unfold FetchAndParse, bind, AddInt64, NewRequest.
destruct (urlError env (Config.URL device)) as [reason|] eqn:Hurl; [discriminate|].
unfold Do at 1. fold (firstRequest device).
destruct (answer env (firstRequest device)) as [e | code body] eqn:Hans.
{ cbn. intros H; inversion H; subst. discriminate. }
unfold StatusOK, StatusUnauthorized, StatusForbidden, StatusNotFound,
  StatusInternalServerError.
destruct (Z.eqb_spec code 200) as [-> | Hcode].
2:{ repeat match goal with |- context [if ?b then _ else _] => destruct b end;
    cbn; intros H; inversion H; subst; discriminate. }
destruct body as [content | err].
- unfold parseBody.
  destruct content as [doc | perr]; [|cbn; intros H; inversion H; subst; discriminate].
  destruct (ParseHTML (Parsed doc)) as [extracted | perr | msg] eqn:Hparse;
    cbn; intros H; inversion H; subst; try discriminate.
  exists doc, extracted. auto.
- destruct (Contains err "malformed chunked encoding") eqn:Hchunk;
    [|cbn; intros H; inversion H; subst; discriminate].
  unfold bind, Do. fold (retryRequest device).
  destruct (answer env (retryRequest device)) as [e' | code' [content' | e']] eqn:Hretry;
    try (cbn; intros H; inversion H; subst; discriminate).
  unfold parseBody.
  destruct content' as [doc | perr]; [|cbn; intros H; inversion H; subst; discriminate].
  destruct (ParseHTML (Parsed doc)) as [extracted | perr | msg] eqn:Hparse;
    cbn; intros H; inversion H; subst; try discriminate.
  exists doc, extracted. split; [exact Hparse|]. split; [reflexivity|].
  split; [reflexivity|]. right. exists err, code'. auto.
Qed.

Lemma up_exactly_for_a_parsed_page_witness :
  exists doc extracted,
    ParseHTML (Parsed doc) = Return extracted
    /\ Name extracted = "Kitchen"
    /\ answer (answering 200 (ReadOK (Parsed [ElementNode "h1" [TextNode "Kitchen"]])))
              (firstRequest kitchen)
       = DoOK 200 (ReadOK (Parsed doc)).
Proof.
destruct (up_exactly_for_a_parsed_page
            (answering 200 (ReadOK (Parsed [ElementNode "h1" [TextNode "Kitchen"]])))
            kitchen world0
            (setUp true (setURL "http://10.0.0.7" (setName "Kitchen" zero)))
            eq_refl eq_refl) as [(doc & extracted & Hparse & Hinfo & _ & Hans) _].
exists doc, extracted. split; [exact Hparse|].
destruct Hans as [Hans | (err & code & Hans & _)]; [|discriminate].
split; [|exact Hans].
apply (f_equal Name) in Hinfo. cbn in Hinfo. symmetry. exact Hinfo.
Defined.

(** X7: whatever the device answers, a call of [FetchAndParse] puts on the
    wire nothing, the first request, or the first request and the retry;
    nothing when the url does not parse, something otherwise; and every
    request it sends is a GET to the url of the target with the basic-auth
    credentials of that target. *)
Theorem requests_carry_the_target_credentials
        (env : Env) (device : Config.Device) (w : World) :
  exists sent,
    wire (snd (FetchAndParse env device w)) = (wire w ++ sent)%list
    /\ (sent = [] \/ sent = [firstRequest device]
        \/ sent = [firstRequest device; retryRequest device])
    /\ Forall (addressedTo device) sent
    /\ (sent = [] <-> urlError env (Config.URL device) <> None).
Proof.
assert (Hfirst : addressedTo device (firstRequest device)) by (repeat split).
assert (Hretry : addressedTo device (retryRequest device)) by (repeat split).
unfold FetchAndParse, bind, AddInt64, NewRequest.
destruct (urlError env (Config.URL device)) as [reason|] eqn:Hurl.
{ exists []. cbn. rewrite app_nil_r. repeat split; auto; discriminate. }
unfold Do at 1. fold (firstRequest device).
assert (Hone : forall r : outcome SuplaInfo * World,
           wire (snd r) = (wire w ++ [firstRequest device])%list ->
           exists sent,
             wire (snd r) = (wire w ++ sent)%list
             /\ (sent = [] \/ sent = [firstRequest device]
                 \/ sent = [firstRequest device; retryRequest device])
             /\ Forall (addressedTo device) sent
             /\ (sent = [] <-> @None string <> None)).
{ intros r Hr. exists [firstRequest device]. split; [exact Hr|].
  split; [auto|]. split; [constructor; auto|].
  split; [discriminate | intros H; contradiction]. }
assert (Htwo : forall r : outcome SuplaInfo * World,
           wire (snd r) = ((wire w ++ [firstRequest device]) ++ [retryRequest device])%list ->
           exists sent,
             wire (snd r) = (wire w ++ sent)%list
             /\ (sent = [] \/ sent = [firstRequest device]
                 \/ sent = [firstRequest device; retryRequest device])
             /\ Forall (addressedTo device) sent
             /\ (sent = [] <-> @None string <> None)).
{ intros r Hr. exists [firstRequest device; retryRequest device].
  rewrite Hr, <- app_assoc. split; [reflexivity|].
  split; [auto|]. split; [repeat constructor; auto|].
  split; [discriminate | intros H; contradiction]. }
destruct (answer env (firstRequest device)) as [e | code [content | err]];
  cbv iota beta; try (apply Hone; reflexivity).
- destruct (code =? StatusOK)%Z.
  + unfold parseBody. destruct (ParseHTML content); apply Hone; reflexivity.
  + repeat match goal with |- context [if ?b then _ else _] => destruct b end;
      apply Hone; reflexivity.
- destruct (code =? StatusOK)%Z.
  + destruct (Contains err "malformed chunked encoding"); [|apply Hone; reflexivity].
    unfold bind, Do. fold (retryRequest device).
    destruct (answer env (retryRequest device)) as [e' | code' [content' | e']];
      cbv iota beta; try (apply Htwo; reflexivity).
    unfold parseBody. destruct (ParseHTML content'); apply Htwo; reflexivity.
  + repeat match goal with |- context [if ?b then _ else _] => destruct b end;
      apply Hone; reflexivity.
Qed.

(** ** The extractor: when it returns, and what it leaves alone *)

Lemma partialBlock_false (text : string) :
  partialBlock text = false ->
  Contains text "LAST STATE:" = false
  \/ (Contains text "LAST STATE:" = true /\ Contains text "Firmware:" = true
      /\ Contains text "GUID:" = true).
Proof.
unfold partialBlock.
destruct (Contains text "LAST STATE:"); [|auto].
destruct (Contains text "Firmware:"); destruct (Contains text "GUID:");
  cbn; intros H; try discriminate. auto.
Qed.

Lemma partialBlock_true (text : string) :
  partialBlock text = true ->
  Contains text "LAST STATE:" = true
  /\ (Contains text "Firmware:" = false \/ Contains text "GUID:" = false).
Proof.
unfold partialBlock.
destruct (Contains text "LAST STATE:"); [|discriminate].
destruct (Contains text "Firmware:"); destruct (Contains text "GUID:");
  cbn; intros H; try discriminate; auto.
Qed.

Lemma eachSpan_returns (text : string) (info : SuplaInfo) :
  partialBlock text = false -> exists info', eachSpan text info = Return info'.
Proof.
intros H. destruct (partialBlock_false text H) as [Hno | (Hs & Hf & Hg)].
- unfold eachSpan. rewrite Hno. cbn [obind]. apply freeMemBlock_returns.
- destruct (eachSpan_MAC text info Hs Hf Hg) as (info' & Hrun & _). eauto.
Qed.

Lemma spans_return (spans : list Node) (i : nat) (info : SuplaInfo) :
  existsb partialBlock (map nodeText spans) = false ->
  exists info', rangeLoop (fun _ s info => eachSpan (nodeText s) info) i spans info
                = Return info'.
Proof.
revert i info. induction spans as [|s spans IH]; intros i info Hnone; cbn [rangeLoop].
- eauto.
- cbn [map existsb] in Hnone. apply orb_false_iff in Hnone. destruct Hnone as [Hs Hrest].
  destruct (eachSpan_returns (nodeText s) info Hs) as (info1 & ->). cbn [obind].
  apply IH. exact Hrest.
Qed.

(** X8: on a parsed page [ParseHTML] either returns a record or panics with
    an index out of range, never an error; and it panics exactly when some
    span has "LAST STATE:" in its text without both "Firmware:" and "GUID:". *)
Theorem ParseHTML_panics_exactly_on_partial_blocks (doc : Document) :
  (existsb partialBlock (spanTexts doc) = true
   <-> ParseHTML (Parsed doc) = Panic indexPanic)
  /\ (existsb partialBlock (spanTexts doc) = false
      <-> exists info, ParseHTML (Parsed doc) = Return info)
  /\ (forall err, ParseHTML (Parsed doc) <> Error err).
Proof.
assert (Hpanic : existsb partialBlock (spanTexts doc) = true ->
                 ParseHTML (Parsed doc) = Panic indexPanic).
{ intros H. unfold spanTexts in H. apply existsb_exists in H.
  destruct H as (text & Hin & Hpart). apply in_map_iff in Hin.
  destruct Hin as (n & <- & Hn). apply partialBlock_true in Hpart.
  destruct Hpart as [Hs Hp]. unfold ParseHTML.
  apply (rangeLoop_panics (fun _ s info => eachSpan (nodeText s) info) _ n).
  - intros. apply noError_eachSpan.
  - exact Hn.
  - intros _ s. apply eachSpan_panics; assumption. }
assert (Hreturn : existsb partialBlock (spanTexts doc) = false ->
                  exists info, ParseHTML (Parsed doc) = Return info).
{ intros H. unfold ParseHTML. apply spans_return. exact H. }
split; [|split].
- split; [exact Hpanic|]. intros H.
  destruct (existsb partialBlock (spanTexts doc)) eqn:E; [reflexivity|].
  destruct (Hreturn eq_refl) as (info & Hr). congruence.
- split; [exact Hreturn|]. intros (info & Hr).
  destruct (existsb partialBlock (spanTexts doc)) eqn:E; [|reflexivity].
  rewrite (Hpanic eq_refl) in Hr. discriminate.
- intros err H.
  destruct (existsb partialBlock (spanTexts doc)) eqn:E.
  + rewrite (Hpanic eq_refl) in H. discriminate.
  + destruct (Hreturn eq_refl) as (info & Hr). congruence.
Qed.

Lemma eachSpan_without_block (text : string) (info info' : SuplaInfo) :
  Contains text "LAST STATE:" = false ->
  eachSpan text info = Return info' ->
  State info' = State info /\ Firmware info' = Firmware info
  /\ GUID info' = GUID info /\ MAC info' = MAC info.
Proof.
intros Hno. unfold eachSpan. rewrite Hno. cbn [obind]. intros H.
apply freeMemBlock_frame in H. tauto.
Qed.

Lemma eachSpan_without_memory (text : string) (info info' : SuplaInfo) :
  Contains text "Free Mem:" = false ->
  eachSpan text info = Return info' ->
  FreeMem info' = FreeMem info /\ Mode info' = Mode info.
Proof.
intros Hno. unfold eachSpan.
destruct (Contains text "LAST STATE:").
- destruct (rangeLoop (sectionBody text) 0 sections info) as [i1| |] eqn:E;
    cbn [obind]; try discriminate.
  apply sections_loop_frame in E. unfold freeMemBlock. rewrite Hno.
  intros H; inversion H; subst. tauto.
- cbn [obind]. unfold freeMemBlock. rewrite Hno. intros H; inversion H; subst. tauto.
Qed.

Lemma spans_without_block (spans : list Node) (i : nat) (info info' : SuplaInfo) :
  (forall n, In n spans -> Contains (nodeText n) "LAST STATE:" = false) ->
  rangeLoop (fun _ s info => eachSpan (nodeText s) info) i spans info = Return info' ->
  State info' = State info /\ Firmware info' = Firmware info
  /\ GUID info' = GUID info /\ MAC info' = MAC info.
Proof.
revert i info. induction spans as [|s spans IH]; intros i info Hno; cbn [rangeLoop].
- intros H; inversion H; subst. tauto.
- destruct (eachSpan (nodeText s) info) as [i1| |] eqn:E; cbn [obind]; try discriminate.
  intros H. apply IH in H; [|intros n Hn; apply Hno; right; exact Hn].
  apply eachSpan_without_block in E; [|apply Hno; left; reflexivity].
  intuition congruence.
Qed.

Lemma spans_without_memory (spans : list Node) (i : nat) (info info' : SuplaInfo) :
  (forall n, In n spans -> Contains (nodeText n) "Free Mem:" = false) ->
  rangeLoop (fun _ s info => eachSpan (nodeText s) info) i spans info = Return info' ->
  FreeMem info' = FreeMem info /\ Mode info' = Mode info.
Proof.
revert i info. induction spans as [|s spans IH]; intros i info Hno; cbn [rangeLoop].
- intros H; inversion H; subst. tauto.
- destruct (eachSpan (nodeText s) info) as [i1| |] eqn:E; cbn [obind]; try discriminate.
  intros H. apply IH in H; [|intros n Hn; apply Hno; right; exact Hn].
  apply eachSpan_without_memory in E; [|apply Hno; left; reflexivity].
  intuition congruence.
Qed.

(** X9: a page none of whose spans has "LAST STATE:" always gives a
    record, with state, firmware, guid and mac empty; if moreover no span
    has "Free Mem:", the free memory is 0 and the mode is empty, so the
    record is the name alone.  Fetched with status 200, such a page gives
    [up = true]. *)
Theorem page_without_markers_gives_defaults
        (doc : Document)
        (Hblock : forall n, In n (Find doc "span") ->
                            Contains (nodeText n) "LAST STATE:" = false) :
  (exists info,
      ParseHTML (Parsed doc) = Return info
      /\ State info = "" /\ Firmware info = "" /\ GUID info = "" /\ MAC info = ""
      /\ ((forall n, In n (Find doc "span") ->
                     Contains (nodeText n) "Free Mem:" = false) ->
          info = setName (Text (Find doc "h1")) zero))
  /\ (forall env device w,
         urlError env (Config.URL device) = None ->
         answer env (firstRequest device) = DoOK 200 (ReadOK (Parsed doc)) ->
         exists info,
           fst (FetchAndParse env device w) = Return info
           /\ Up info = true /\ URL info = Config.URL device /\ State info = "").
Proof.
assert (Hnone : existsb partialBlock (spanTexts doc) = false).
{ destruct (existsb partialBlock (spanTexts doc)) eqn:E; [|reflexivity].
  unfold spanTexts in E. apply existsb_exists in E. destruct E as (text & Hin & Hp).
  apply in_map_iff in Hin. destruct Hin as (n & <- & Hn).
  apply partialBlock_true in Hp. destruct Hp as [Hs _].
  rewrite (Hblock n Hn) in Hs. discriminate. }
destruct (spans_return (Find doc "span") 0 (setName (Text (Find doc "h1")) zero) Hnone)
  as (info & Hrun).
pose proof (spans_without_block _ _ _ _ Hblock Hrun) as (Hst & Hfw & Hg & Hmac).
cbn in Hst, Hfw, Hg, Hmac.
split.
- exists info. split; [exact Hrun|]. repeat (split; [assumption|]).
  intros Hmem.
  pose proof (spans_without_memory _ _ _ _ Hmem Hrun) as (Hfree & Hmode).
  pose proof (spans_identity _ _ _ _ Hrun) as (Hname & Hup & Hurl).
  cbn in Hfree, Hmode, Hname, Hup, Hurl.
  destruct info. cbn in *. subst. reflexivity.
- intros env device w Hurl Hans.
  exists (setUp true (setURL (Config.URL device) info)).
  split; [|repeat split; exact Hst].
  apply (FetchAndParse_parsed env device w doc info Hurl Hrun). left. exact Hans.
Qed.

Lemma page_without_markers_gives_defaults_witness :
  exists info,
    ParseHTML (Parsed [ElementNode "h1" [TextNode "Kitchen"];
                       ElementNode "span" [TextNode "uptime 3 days"]]) = Return info
    /\ State info = "".
Proof.
assert (Hblock : forall n,
           In n (Find [ElementNode "h1" [TextNode "Kitchen"];
                       ElementNode "span" [TextNode "uptime 3 days"]] "span") ->
           Contains (nodeText n) "LAST STATE:" = false).
{ intros n [<- | []]. reflexivity. }
destruct (page_without_markers_gives_defaults _ Hblock)
  as [(info & Hrun & Hst & _) _].
exists info. split; [exact Hrun | exact Hst].
Defined.

(** ** The extractor on a well-formed block *)

Lemma drop_app_le (j : nat) (a s : string) :
  j <= String.length a -> drop j (a ++ s) = drop j a ++ s.
Proof.
revert j. induction a as [|c a IH]; intros j Hj.
- cbn in Hj. assert (j = 0) as -> by lia. rewrite drop_0. reflexivity.
- destruct j; [reflexivity|]. cbn. apply IH. cbn in Hj. lia.
Qed.

Lemma drop_app_ge (k : nat) (a s : string) :
  drop (String.length a + k) (a ++ s) = drop k s.
Proof. induction a as [|c a IH]; cbn; [reflexivity | exact IH]. Qed.

Lemma take_app_ge (k : nat) (a s : string) :
  take (String.length a + k) (a ++ s) = a ++ take k s.
Proof. induction a as [|c a IH]; cbn; [reflexivity | now rewrite IH]. Qed.

Lemma append_assoc (a b c : string) : (a ++ b) ++ c = a ++ b ++ c.
Proof. induction a as [|x a IH]; cbn; [reflexivity | now rewrite IH]. Qed.

Lemma prefix_app (m t : string) : prefix m (m ++ t) = true.
Proof.
induction m as [|c m IH]; cbn; [destruct t; reflexivity|].
destruct (ascii_dec c c); [exact IH | contradiction].
Qed.

Lemma noColon_app (a b : string) :
  noColon (a ++ b) = noColon a && noColon b.
Proof.
induction a as [|c a IH]; cbn; [reflexivity|]. rewrite IH. apply andb_assoc.
Qed.

Lemma noColon_drop (j : nat) (a : string) : noColon a = true -> noColon (drop j a) = true.
Proof.
revert a. induction j as [|j IH]; intros a H; [now rewrite drop_0|].
destruct a as [|c a]; [reflexivity|]. cbn in *.
apply andb_true_iff in H. apply IH. tauto.
Qed.

Lemma isMarker_nonempty (m : string) : isMarker m = true -> m <> "".
Proof. destruct m; [discriminate | discriminate]. Qed.

Lemma isMarker_cons (c : ascii) (s : string) :
  s <> "" -> isMarker (String c s) = negb (Ascii.eqb c ":") && isMarker s.
Proof. destruct s; [contradiction | reflexivity]. Qed.

Lemma isMarker_app (a m : string) :
  noColon a = true -> isMarker m = true -> isMarker (a ++ m) = true.
Proof.
intros Ha Hm. induction a as [|c a IH]; [exact Hm|].
cbn in Ha. apply andb_true_iff in Ha. destruct Ha as [Hc Ha].
cbn [append]. rewrite isMarker_cons.
- rewrite Hc, (IH Ha). reflexivity.
- intros E. apply (f_equal String.length) in E. rewrite append_length in E.
  pose proof (isMarker_nonempty m Hm). destruct m; [contradiction | cbn in E; lia].
Qed.

Lemma isMarker_drop (k : nat) (m : string) :
  isMarker m = true -> k < String.length m -> isMarker (drop k m) = true.
Proof.
revert m. induction k as [|k IH]; intros m Hm Hk; [now rewrite drop_0|].
destruct m as [|c m]; [discriminate|]. cbn [drop].
destruct m as [|d m]; [cbn in Hk; lia|].
cbn [isMarker] in Hm. apply andb_true_iff in Hm. destruct Hm as [_ Hm].
apply IH; [exact Hm | cbn in *; lia].
Qed.

(** A marker at the start of a text that starts with a marker is that
    marker: their colons fall together. *)
Lemma prefix_marker (x y t : string) :
  isMarker x = true -> isMarker y = true -> prefix x (y ++ t) = true -> x = y.
Proof.
revert y. induction x as [|c x IH]; intros y Hx Hy Hp; [discriminate|].
destruct y as [|d y]; [discriminate|].
cbn [append prefix] in Hp. destruct (ascii_dec c d) as [<- | ]; [|discriminate].
destruct x as [|c' x].
- cbn in Hx. destruct y as [|d' y]; [reflexivity|].
  cbn [isMarker] in Hy. rewrite Hx in Hy. discriminate.
- cbn [isMarker] in Hx. apply andb_true_iff in Hx. destruct Hx as [Hc Hx].
  destruct y as [|d' y].
  + cbn in Hy. rewrite Hy in Hc. discriminate.
  + cbn [isMarker] in Hy. apply andb_true_iff in Hy. destruct Hy as [_ Hy].
    f_equal. apply IH; assumption.
Qed.

Lemma isSuffixOf_drop (k : nat) (y : string) :
  k <= String.length y -> isSuffixOf (drop k y) y = true.
Proof.
intros Hk. unfold isSuffixOf. apply existsb_exists. exists k. split.
- apply in_seq. lia.
- apply String.eqb_refl.
Qed.

Lemma isSuffixOf_app (p x : string) : isSuffixOf x (p ++ x) = true.
Proof.
rewrite <- (drop_app p x) at 1. apply isSuffixOf_drop.
rewrite append_length. lia.
Qed.

Lemma option_map_add_0 (o : option nat) : option_map (Nat.add 0) o = o.
Proof. destruct o; reflexivity. Qed.

(** The search passes over a stretch where the text does not start. *)
Lemma Index_skip (n : nat) (s sub : string) :
  (forall j, j < n -> prefix sub (drop j s) = false) ->
  n <= String.length s ->
  Index s sub = option_map (Nat.add n) (Index (drop n s) sub).
Proof.
revert s. induction n as [|n IH]; intros s Hnone Hlen.
- rewrite drop_0. symmetry. apply option_map_add_0.
- destruct s as [|c s]; [cbn in Hlen; lia|].
  cbn [Index drop].
  pose proof (Hnone 0 ltac:(lia)) as H0. rewrite drop_0 in H0. rewrite H0.
  rewrite (IH s).
  + destruct (Index (drop n s) sub); reflexivity.
  + intros j Hj. apply (Hnone (S j)). lia.
  + cbn in Hlen. lia.
Qed.

Lemma Index_here (m t : string) : Index (m ++ t) m = Some 0.
Proof.
destruct (m ++ t) eqn:E; cbn [Index]; rewrite <- E, prefix_app; reflexivity.
Qed.

(** In [a ++ m ++ t], with no colon in [a], the marker [m] is first found
    right after [a]. *)
Lemma Index_same_marker (a m t : string) :
  noColon a = true -> isMarker m = true ->
  Index (a ++ m ++ t) m = Some (String.length a).
Proof.
intros Ha Hm.
rewrite (Index_skip (String.length a)).
- rewrite drop_app, Index_here. cbn. f_equal. lia.
- intros j Hj.
  destruct (prefix m (drop j (a ++ m ++ t))) eqn:E; [|reflexivity].
  exfalso. rewrite drop_app_le in E by lia. rewrite <- append_assoc in E.
  apply prefix_marker in E; [|exact Hm|apply isMarker_app; [apply noColon_drop|]; assumption].
  apply (f_equal String.length) in E. rewrite append_length, drop_length in E. lia.
- rewrite append_length. lia.
Qed.

(** Another marker is not found before the end of [m]. *)
Lemma Index_other_marker (a m m' t : string) :
  noColon a = true -> isMarker m = true -> isMarker m' = true ->
  apart m m' = true ->
  Index (a ++ m ++ t) m'
  = option_map (Nat.add (String.length a + String.length m)) (Index t m').
Proof.
intros Ha Hm Hm' Hapart.
unfold apart in Hapart. apply andb_true_iff in Hapart.
destruct Hapart as [H1 H2]. apply negb_true_iff in H1. apply negb_true_iff in H2.
rewrite (Index_skip (String.length a + String.length m)).
- rewrite drop_app_ge.
  replace (String.length m) with (String.length m + 0) at 2 by lia.
  rewrite drop_app_ge, drop_0. reflexivity.
- intros j Hj.
  destruct (prefix m' (drop j (a ++ m ++ t))) eqn:E; [|reflexivity].
  exfalso. destruct (le_lt_dec j (String.length a)) as [Hle | Hgt].
  + rewrite drop_app_le in E by lia. rewrite <- append_assoc in E.
    apply prefix_marker in E;
      [|exact Hm'|apply isMarker_app; [apply noColon_drop|]; assumption].
    rewrite E, isSuffixOf_app in H1. discriminate.
  + replace j with (String.length a + (j - String.length a)) in E by lia.
    rewrite drop_app_ge in E. rewrite drop_app_le in E by lia.
    apply prefix_marker in E; [|exact Hm'|apply isMarker_drop; [exact Hm | lia]].
    rewrite E, isSuffixOf_drop in H2 by lia. discriminate.
- rewrite !append_length. lia.
Qed.

(** A text without a colon holds no marker. *)
Lemma Index_noColon (s m : string) :
  noColon s = true -> isMarker m = true -> Index s m = None.
Proof.
intros Hs Hm. induction s as [|c s IH].
- cbn. destruct m; [discriminate | reflexivity].
- cbn in Hs. apply andb_true_iff in Hs. destruct Hs as [Hc Hs].
  cbn [Index]. rewrite (IH Hs).
  destruct (prefix m (String c s)) eqn:E; [|reflexivity].
  exfalso. apply prefix_split in E.
  apply (f_equal noColon) in E. rewrite noColon_app in E.
  cbn [noColon] in E. rewrite Hc, Hs in E. cbn in E.
  symmetry in E. apply andb_true_iff in E. destruct E as [E _].
  clear -E Hm. induction m as [|d m IHm]; [discriminate|].
  cbn in E. apply andb_true_iff in E. destruct E as [Hd E].
  destruct m as [|d' m]; [cbn in Hm; rewrite Hm in Hd; discriminate|].
  cbn [isMarker] in Hm. apply andb_true_iff in Hm. apply IHm; tauto.
Qed.

(** *** Split on a marker *)

Lemma Split_at (s sep : string) (m : nat) :
  sep <> "" -> Index s sep = Some m ->
  Split s sep = take m s :: Split (drop (m + String.length sep) s) sep.
Proof.
intros Hsep Hi. unfold Split at 1.
destruct s as [|c s]; [apply Index_in_empty in Hi; contradiction|].
cbn [String.length genSplit]. rewrite Hi. f_equal.
apply Split_fuel; [exact Hsep|].
rewrite drop_length. destruct sep; [contradiction|]. cbn [String.length]. lia.
Qed.

Lemma Split_none (s sep : string) : Index s sep = None -> Split s sep = [s].
Proof. intros H. apply Split_absent. unfold Contains. now rewrite H. Qed.

(** The first piece after a marker starts with the value and the next
    marker, whatever follows. *)
Lemma Split_head_keeps (v n r m : string) :
  noColon v = true -> isMarker n = true -> isMarker m = true -> apart n m = true ->
  exists r' rest, Split (v ++ n ++ r) m = (v ++ n ++ r') :: rest.
Proof.
intros Hv Hn Hm Hap.
pose proof (Index_other_marker v n m r Hv Hn Hm Hap) as Hi.
destruct (Index r m) as [k|] eqn:Er; cbn [option_map] in Hi.
- rewrite (Split_at _ _ _ (isMarker_nonempty m Hm) Hi).
  exists (take k r). eexists. f_equal.
  rewrite <- Nat.add_assoc, take_app_ge, take_app_ge. reflexivity.
- rewrite (Split_none _ _ Hi). exists r, []. reflexivity.
Qed.

(** The value between two markers, when the first marker is first found
    at the end of [x] and the value has no colon. *)
Lemma between_value (x m v n r : string) :
  isMarker m = true -> isMarker n = true -> apart n m = true ->
  noColon v = true ->
  Index (x ++ m ++ v ++ n ++ r) m = Some (String.length x) ->
  between (x ++ m ++ v ++ n ++ r) m n = Return (TrimSpace v).
Proof.
intros Hm Hn Hap Hv Hi. unfold between.
rewrite (Split_at _ _ _ (isMarker_nonempty m Hm) Hi).
rewrite drop_app_ge, drop_app.
destruct (Split_head_keeps v n r m Hv Hn Hm Hap) as (r' & rest & ->).
cbn [index nth_error obind].
rewrite (Split_at _ _ _ (isMarker_nonempty n Hn) (Index_same_marker v n r' Hv Hn)).
cbn [index nth_error obind]. rewrite take_app. reflexivity.
Qed.

Lemma firstAt_noColon (a m : string) :
  noColon a = true -> isMarker m = true -> firstAt a m.
Proof. intros Ha Hm t. apply Index_same_marker; assumption. Qed.

Lemma firstAt_after (a m1 x m : string) :
  noColon a = true -> isMarker m1 = true -> isMarker m = true -> apart m1 m = true ->
  firstAt x m -> firstAt (a ++ m1 ++ x) m.
Proof.
intros Ha Hm1 Hm Hap Hx t.
rewrite !append_assoc.
rewrite (Index_other_marker a m1 m (x ++ m ++ t) Ha Hm1 Hm Hap), (Hx t).
cbn [option_map]. rewrite !append_length. f_equal. lia.
Qed.

Lemma Contains_firstAt (x m t : string) : firstAt x m -> Contains (x ++ m ++ t) m = true.
Proof. intros H. unfold Contains. now rewrite (H t). Qed.

Lemma firmwareCase_Firmware (value : string) (info : SuplaInfo) :
  Firmware (firmwareCase value info) = versionOf value.
Proof.
unfold firmwareCase, versionOf. cbn [Firmware setFirmware].
destruct (FindStringIndex firmwareVersion value); reflexivity.
Qed.

Lemma firmwareCase_others (value : string) (info : SuplaInfo) :
  State (firmwareCase value info) = State info
  /\ GUID (firmwareCase value info) = GUID info.
Proof.
unfold firmwareCase.
destruct (FindStringIndex firmwareVersion (Firmware (setFirmware value info)));
  split; reflexivity.
Qed.

(** The block, once the three values are known. *)
Lemma eachSpan_values (text v1 v2 v3 : string) (info0 : SuplaInfo) :
  Contains text "LAST STATE:" = true ->
  between text "LAST STATE:" "Firmware:" = Return v1 ->
  between text "Firmware:" "GUID:" = Return v2 ->
  between text "GUID:" "MAC:" = Return v3 ->
  exists info,
    eachSpan text info0 = Return info
    /\ State info = v1 /\ Firmware info = versionOf v2 /\ GUID info = v3
    /\ MAC info = match macText text with
                  | Some part =>
                      if String.eqb (FindString macRegex part) ""
                      then MAC info0 else FindString macRegex part
                  | None => MAC info0
                  end.
Proof.
intros Hc H1 H2 H3. unfold eachSpan. rewrite Hc, sections_loop, H1, H2, H3.
cbn [obind].
destruct (macCase_MAC text (setGUID v3 (firmwareCase v2 (setState v1 info0))))
  as (i4 & Hmac & Hm).
rewrite Hmac. cbn [obind].
destruct (freeMemBlock_returns text i4) as (info & Hfree).
exists info. split; [exact Hfree|].
apply freeMemBlock_frame in Hfree.
destruct Hfree as (_ & -> & -> & -> & -> & _).
apply macCase_frame in Hmac.
rewrite Hm. rewrite Hmac. cbn [State Firmware GUID MAC setMAC setGUID].
rewrite firmwareCase_Firmware, firmwareCase_MAC.
destruct (firmwareCase_others v2 (setState v1 info0)) as (-> & _).
cbn [State setState MAC]. repeat split.
Qed.

(** X10: in a span whose text is, in this order, some text, "LAST STATE:",
    a state, "Firmware:", a firmware, "GUID:", a guid, "MAC:" and anything
    at all, where the text before and the three values have no colon, the
    record gets the trimmed state, the trimmed firmware cut at its first
    v<digit>, and the trimmed guid; and when "MAC:" does not come again, the
    mac is searched in all that follows the marker. *)
Theorem well_formed_block_is_extracted
        (pre state firmware guid rest : string) (info0 : SuplaInfo)
        (Hpre : noColon pre = true) (Hstate : noColon state = true)
        (Hfirmware : noColon firmware = true) (Hguid : noColon guid = true) :
  exists info,
    eachSpan (pre ++ "LAST STATE:" ++ state ++ "Firmware:" ++ firmware
                  ++ "GUID:" ++ guid ++ "MAC:" ++ rest) info0 = Return info
    /\ State info = TrimSpace state
    /\ Firmware info = versionOf (TrimSpace firmware)
    /\ GUID info = TrimSpace guid
    /\ (Contains rest "MAC:" = false ->
        MAC info = if String.eqb (FindString macRegex (TrimSpace rest)) ""
                   then MAC info0 else FindString macRegex (TrimSpace rest)).
Proof.
set (text := pre ++ "LAST STATE:" ++ state ++ "Firmware:" ++ firmware
                 ++ "GUID:" ++ guid ++ "MAC:" ++ rest).
assert (F1 : firstAt pre "LAST STATE:") by (apply firstAt_noColon; auto).
assert (F2 : firstAt (pre ++ "LAST STATE:" ++ state) "Firmware:")
  by (apply firstAt_after; auto; apply firstAt_noColon; auto).
assert (F3 : firstAt (pre ++ "LAST STATE:" ++ state ++ "Firmware:" ++ firmware) "GUID:")
  by (repeat (apply firstAt_after; auto); apply firstAt_noColon; auto).
assert (F4 : firstAt (pre ++ "LAST STATE:" ++ state ++ "Firmware:" ++ firmware
                          ++ "GUID:" ++ guid) "MAC:")
  by (repeat (apply firstAt_after; auto); apply firstAt_noColon; auto).
assert (E2 : text = (pre ++ "LAST STATE:" ++ state) ++ "Firmware:" ++ firmware
                      ++ "GUID:" ++ guid ++ "MAC:" ++ rest)
  by (unfold text; rewrite !append_assoc; reflexivity).
assert (E3 : text = (pre ++ "LAST STATE:" ++ state ++ "Firmware:" ++ firmware)
                      ++ "GUID:" ++ guid ++ "MAC:" ++ rest)
  by (unfold text; rewrite !append_assoc; reflexivity).
assert (E4 : text = (pre ++ "LAST STATE:" ++ state ++ "Firmware:" ++ firmware
                         ++ "GUID:" ++ guid) ++ "MAC:" ++ rest)
  by (unfold text; rewrite !append_assoc; reflexivity).
assert (B1 : between text "LAST STATE:" "Firmware:" = Return (TrimSpace state)).
{ unfold text. apply between_value; auto; apply F1. }
assert (B2 : between text "Firmware:" "GUID:" = Return (TrimSpace firmware)).
{ rewrite E2. apply between_value; auto; apply F2. }
assert (B3 : between text "GUID:" "MAC:" = Return (TrimSpace guid)).
{ rewrite E3. apply between_value; auto; apply F3. }
destruct (eachSpan_values text _ _ _ info0 (Contains_firstAt _ _ _ F1) B1 B2 B3)
  as (info & Hrun & Hs & Hf & Hg & Hm).
exists info. repeat (split; [assumption|]).
intros Hrest. rewrite Hm. unfold macText.
rewrite E4.
rewrite (Split_at _ "MAC:" _ ltac:(discriminate) (F4 rest)).
rewrite drop_app_ge, drop_app, (Split_absent _ _ Hrest). reflexivity.
Qed.

Lemma well_formed_block_is_extracted_witness :
  exists info,
    eachSpan ("LAST STATE:" ++ " Ready " ++ "Firmware:" ++ " GG v1.2.3 "
                ++ "GUID:" ++ " ABC123 " ++ "MAC:" ++ " AA:BB:CC:DD:EE:FF") zero
    = Return info
    /\ State info = "Ready" /\ Firmware info = "v1.2.3" /\ GUID info = "ABC123"
    /\ MAC info = "AA:BB:CC:DD:EE:FF".
Proof.
destruct (well_formed_block_is_extracted "" " Ready " " GG v1.2.3 " " ABC123 "
            " AA:BB:CC:DD:EE:FF" zero eq_refl eq_refl eq_refl eq_refl)
  as (info & Hrun & Hs & Hf & Hg & Hm).
exists info. split; [exact Hrun|]. split; [exact Hs|]. split; [exact Hf|].
split; [exact Hg|]. exact (Hm eq_refl).
Defined.

(** X11: in a span whose text is some text, "Free Mem:", a memory portion
    and, optionally, "Mode:" and a mode, all without a colon, the mode of
    the record is the trimmed mode (it stays as it was without "Mode:") and
    the free memory is the number of the memory portion, or stays as it was
    when the portion is no number. *)
Theorem memory_and_mode_are_extracted
        (pre mem mode : string) (info0 : SuplaInfo)
        (Hpre : noColon pre = true) (Hmem : noColon mem = true)
        (Hmode : noColon mode = true) :
  freeMemBlock (pre ++ "Free Mem:" ++ mem ++ "Mode:" ++ mode) info0
  = Return (setMode (TrimSpace mode) (setFreeMem (memoryOf mem (FreeMem info0)) info0))
  /\ freeMemBlock (pre ++ "Free Mem:" ++ mem) info0
     = Return (setFreeMem (memoryOf mem (FreeMem info0)) info0).
Proof.
assert (F1 : firstAt pre "Free Mem:") by (apply firstAt_noColon; auto).
split.
- unfold freeMemBlock. rewrite (Contains_firstAt _ _ _ F1).
  rewrite (Split_at _ "Free Mem:" _ ltac:(discriminate) (F1 (mem ++ "Mode:" ++ mode))).
  rewrite drop_app_ge, drop_app.
  assert (Hnone : Index (mem ++ "Mode:" ++ mode) "Free Mem:" = None).
  { rewrite (Index_other_marker mem "Mode:" "Free Mem:" mode); auto.
    rewrite (Index_noColon mode "Free Mem:"); auto. }
  rewrite (Split_none _ _ Hnone). cbn [index nth_error obind].
  rewrite (Split_at _ "Mode:" _ ltac:(discriminate) (Index_same_marker mem "Mode:" mode Hmem eq_refl)).
  rewrite drop_app_ge, drop_app, take_app.
  rewrite (Split_none _ _ (Index_noColon mode "Mode:" Hmode eq_refl)).
  cbn [index nth_error obind List.length Nat.ltb Nat.leb].
  unfold memoryOf.
  destruct (Strconv.ParseFloat _); destruct info0; reflexivity.
- unfold freeMemBlock.
  replace (pre ++ "Free Mem:" ++ mem) with (pre ++ "Free Mem:" ++ mem ++ "")
    by (now rewrite append_empty_r).
  rewrite (Contains_firstAt _ _ _ F1).
  rewrite (Split_at _ "Free Mem:" _ ltac:(discriminate) (F1 (mem ++ ""))).
  rewrite drop_app_ge, drop_app, append_empty_r.
  rewrite (Split_none _ _ (Index_noColon mem "Free Mem:" Hmem eq_refl)).
  cbn [index nth_error obind].
  rewrite (Split_none _ _ (Index_noColon mem "Mode:" Hmem eq_refl)).
  cbn [index nth_error obind List.length Nat.ltb Nat.leb].
  unfold memoryOf.
  destruct (Strconv.ParseFloat _); destruct info0; reflexivity.
Qed.

Lemma memory_and_mode_are_extracted_witness :
  freeMemBlock ("" ++ "Free Mem:" ++ " 28.34kB " ++ "Mode:" ++ " NORMAL") zero
  = Return (setMode "NORMAL" (setFreeMem (Strconv.Finite (Qred 28.34%Q)) zero)).
Proof.
exact (proj1 (memory_and_mode_are_extracted "" " 28.34kB " " NORMAL" zero
                eq_refl eq_refl eq_refl)).
Defined.

(** * The gauges *)

Section MetricsFacts.
Import Strconv Metrics.
Local Open Scope list_scope.

Lemma sameValues_refl (a : list string) : sameValues a a = true.
Proof. unfold sameValues. destruct (list_eq_dec string_dec a a); congruence. Qed.

Lemma sameValues_true (a b : list string) : sameValues a b = true -> a = b.
Proof. unfold sameValues. destruct (list_eq_dec string_dec a b); congruence. Qed.

Lemma sameValues_false (a b : list string) : a <> b -> sameValues a b = false.
Proof. unfold sameValues. destruct (list_eq_dec string_dec a b); congruence. Qed.

Lemma lookup_setSeries_same (s : Series) (k : list string) (v : float64) :
  lookup (setSeries s k v) k = Some v.
Proof.
induction s as [|[k' v'] s IH]; cbn [setSeries lookup].
- now rewrite sameValues_refl.
- destruct (sameValues k' k) eqn:E; cbn [lookup].
  + now rewrite sameValues_refl.
  + rewrite E. exact IH.
Qed.

Lemma lookup_setSeries_other (s : Series) (k k' : list string) (v : float64) :
  k' <> k -> lookup (setSeries s k v) k' = lookup s k'.
Proof.
intros Hk. induction s as [|[k0 v0] s IH]; cbn [setSeries lookup].
- rewrite sameValues_false; [reflexivity | congruence].
- destruct (sameValues k0 k) eqn:E; cbn [lookup].
  + apply sameValues_true in E. subst k0.
    rewrite sameValues_false; [reflexivity | congruence].
  + destruct (sameValues k0 k'); [reflexivity | exact IH].
Qed.

Lemma setSeries_absent (s : Series) (k : list string) (v : float64) :
  lookup s k = None -> setSeries s k v = s ++ [(k, v)].
Proof.
induction s as [|[k0 v0] s IH]; cbn [setSeries lookup app]; [reflexivity|].
destruct (sameValues k0 k); [discriminate|]. intros H. now rewrite IH.
Qed.

Lemma matchesAll_url (labels values : list string) (url : string) :
  urlFirst labels ->
  matchesAll labels [("url", url)] values
  = match values with u :: _ => String.eqb u url | [] => false end.
Proof.
intros H. unfold matchesAll. cbn [forallb fst snd]. rewrite H.
destruct values; cbn [nth_error]; [reflexivity | apply andb_true_r].
Qed.

Lemma ofURL_delete_same (labels : list string) (s : Series) (url : string) :
  urlFirst labels -> ofURL (DeletePartialMatch labels s [("url", url)]) url = [].
Proof.
intros H. unfold ofURL, DeletePartialMatch.
induction s as [|[k v] s IH]; [reflexivity|].
cbn [filter fst]. rewrite (matchesAll_url labels k url H).
destruct k as [|u t]; cbn [negb filter fst]; [exact IH|].
destruct (String.eqb u url) eqn:E; cbn [negb filter fst]; [exact IH|].
rewrite E. exact IH.
Qed.

Lemma ofURL_delete_other (labels : list string) (s : Series) (url u : string) :
  urlFirst labels -> u <> url ->
  ofURL (DeletePartialMatch labels s [("url", url)]) u = ofURL s u.
Proof.
intros H Hu. unfold ofURL, DeletePartialMatch.
induction s as [|[k v] s IH]; [reflexivity|].
cbn [filter fst]. rewrite (matchesAll_url labels k url H).
destruct k as [|u0 t]; cbn [negb filter fst]; [exact IH|].
destruct (String.eqb u0 url) eqn:E; cbn [negb filter fst].
- apply String.eqb_eq in E. subst u0.
  destruct (String.eqb url u) eqn:E'; [apply String.eqb_eq in E'; congruence | exact IH].
- destruct (String.eqb u0 u); [now rewrite IH | exact IH].
Qed.

Lemma lookup_delete (labels : list string) (s : Series) (url : string) (vals : list string) :
  urlFirst labels ->
  lookup (DeletePartialMatch labels s [("url", url)]) (url :: vals) = None.
Proof.
intros H. unfold DeletePartialMatch.
induction s as [|[k v] s IH]; [reflexivity|].
cbn [filter fst]. rewrite (matchesAll_url labels k url H).
destruct k as [|u0 t]; cbn [negb filter lookup].
- rewrite sameValues_false by discriminate. exact IH.
- destruct (String.eqb u0 url) eqn:E; cbn [negb lookup]; [exact IH|].
  rewrite sameValues_false; [exact IH|].
  intros Heq. inversion Heq; subst. rewrite String.eqb_refl in E. discriminate.
Qed.

Lemma delete_delete (labels : list string) (s : Series) (wanted : list (string * string)) :
  DeletePartialMatch labels (DeletePartialMatch labels s wanted) wanted
  = DeletePartialMatch labels s wanted.
Proof.
unfold DeletePartialMatch.
induction s as [|a s IH]; [reflexivity|]. cbn [filter].
destruct (negb (matchesAll labels wanted (fst a))) eqn:E; [|exact IH].
cbn [filter]. rewrite E, IH. reflexivity.
Qed.

Lemma delete_app (labels : list string) (s t : Series) (wanted : list (string * string)) :
  DeletePartialMatch labels (s ++ t) wanted
  = DeletePartialMatch labels s wanted ++ DeletePartialMatch labels t wanted.
Proof. apply filter_app. Qed.

Lemma delete_fresh (labels : list string) (url : string) (vals : list string) (v : float64) :
  urlFirst labels ->
  DeletePartialMatch labels [(url :: vals, v)] [("url", url)] = [].
Proof.
intros H. unfold DeletePartialMatch. cbn [filter fst].
rewrite (matchesAll_url labels _ url H), String.eqb_refl. reflexivity.
Qed.

Lemma ofURL_app (s t : Series) (u : string) : ofURL (s ++ t) u = ofURL s u ++ ofURL t u.
Proof. apply filter_app. Qed.

(** After the deletion the new series is the only one of its url. *)
Lemma ofURL_refreshed (labels : list string) (s : Series) (url : string)
      (vals : list string) (v : float64) :
  urlFirst labels ->
  ofURL (setSeries (DeletePartialMatch labels s [("url", url)]) (url :: vals) v) url
  = [(url :: vals, v)].
Proof.
intros H. rewrite setSeries_absent by (apply lookup_delete; exact H).
rewrite ofURL_app, ofURL_delete_same by exact H.
unfold ofURL. cbn [filter fst app]. now rewrite String.eqb_refl.
Qed.

Lemma ofURL_refreshed_other (labels : list string) (s : Series) (url u : string)
      (vals : list string) (v : float64) :
  urlFirst labels -> u <> url ->
  ofURL (setSeries (DeletePartialMatch labels s [("url", url)]) (url :: vals) v) u
  = ofURL s u.
Proof.
intros H Hu. rewrite setSeries_absent by (apply lookup_delete; exact H).
rewrite ofURL_app, ofURL_delete_other by assumption.
unfold ofURL at 2. cbn [filter fst].
destruct (String.eqb url u) eqn:E; [apply String.eqb_eq in E; congruence|].
apply app_nil_r.
Qed.

(** Deleting and setting again gives the same vector. *)
Lemma refreshed_again (labels : list string) (s : Series) (url : string)
      (vals : list string) (v : float64) :
  urlFirst labels ->
  DeletePartialMatch labels
    (setSeries (DeletePartialMatch labels s [("url", url)]) (url :: vals) v)
    [("url", url)]
  = DeletePartialMatch labels s [("url", url)].
Proof.
intros H. rewrite setSeries_absent by (apply lookup_delete; exact H).
rewrite delete_app, delete_delete, delete_fresh by exact H. apply app_nil_r.
Qed.

Lemma setSeries_again (s : Series) (k : list string) (v : float64) :
  setSeries (setSeries s k v) k v = setSeries s k v.
Proof.
induction s as [|[k0 v0] s IH]; cbn [setSeries].
- now rewrite sameValues_refl.
- destruct (sameValues k0 k) eqn:E; cbn [setSeries].
  + now rewrite sameValues_refl.
  + rewrite E, IH. reflexivity.
Qed.

Lemma isZero_one : isZero (Finite 1%Q) = false.
Proof. vm_compute. reflexivity. Qed.

Lemma isZero_zero : isZero (Finite 0%Q) = true.
Proof. vm_compute. reflexivity. Qed.

Lemma ValidString_getOrDefault (v : string) :
  Utf8.ValidString (getOrDefault v UnknownValue) = Utf8.ValidString v.
Proof.
unfold getOrDefault. destruct (String.eqb v "") eqn:E; [|reflexivity].
apply String.eqb_eq in E. subst v. reflexivity.
Qed.

(** What [UpdateMetrics] leaves for a device that is down. *)
Lemma UpdateMetrics_down (info : SuplaInfo) (w : World) (r : Registry) :
  Up info = false -> Utf8.ValidString (URL info) = true ->
  UpdateMetrics info w r
  = Return (mkRegistry (SuplaDeviceInfo r) (SuplaDeviceState r) (SuplaDeviceNetwork r)
              (SuplaDeviceFirmware r) (SuplaDeviceMemory r)
              (setSeries (SuplaDeviceUp r) [URL info] (Finite 0%Q))
              (SuplaDeviceCount r)).
Proof.
intros Hup Hurl. unfold UpdateMetrics, WithLabelValuesSet.
rewrite Hup. cbn [List.length upLabels Nat.eqb negb forallb]. rewrite Hurl.
cbn [andb obind]. rewrite isZero_zero. reflexivity.
Qed.

(** What it leaves for a device that is up. *)
Lemma UpdateMetrics_up (info : SuplaInfo) (w : World) (r : Registry) :
  Up info = true -> forallb Utf8.ValidString (labelsOf info) = true ->
  UpdateMetrics info w r
  = Return (mkRegistry
      (setSeries (DeletePartialMatch infoLabels (SuplaDeviceInfo r) [("url", URL info)])
                 [URL info; nameLabel info] (Finite 1%Q))
      (setSeries (DeletePartialMatch stateLabels (SuplaDeviceState r) [("url", URL info)])
                 [URL info; stateLabel info] (Finite 1%Q))
      (setSeries (DeletePartialMatch networkLabels (SuplaDeviceNetwork r) [("url", URL info)])
                 [URL info; macLabel info] (Finite 1%Q))
      (setSeries (DeletePartialMatch firmwareLabels (SuplaDeviceFirmware r) [("url", URL info)])
                 [URL info; firmwareLabel info; nameLabel info] (Finite 1%Q))
      (if isPositive (FreeMem info)
       then setSeries (DeletePartialMatch memoryLabels (SuplaDeviceMemory r)
                         [("url", URL info)])
                      [URL info; nameLabel info] (FreeMem info)
       else DeletePartialMatch memoryLabels (SuplaDeviceMemory r) [("url", URL info)])
      (setSeries (SuplaDeviceUp r) [URL info] (Finite 1%Q))
      (ofInt64 (deviceCount w))).
Proof.
intros Hup Hvalid. unfold labelsOf in Hvalid. rewrite Hup in Hvalid.
cbn [forallb] in Hvalid.
apply andb_true_iff in Hvalid. destruct Hvalid as [Hu Hvalid].
apply andb_true_iff in Hvalid. destruct Hvalid as [Hn Hvalid].
apply andb_true_iff in Hvalid. destruct Hvalid as [Hs Hvalid].
apply andb_true_iff in Hvalid. destruct Hvalid as [Hm Hvalid].
apply andb_true_iff in Hvalid. destruct Hvalid as [Hf _].
unfold UpdateMetrics, WithLabelValuesSet, nameLabel, stateLabel, macLabel, firmwareLabel.
rewrite Hup.
cbn [List.length upLabels infoLabels stateLabels networkLabels firmwareLabels memoryLabels
     Nat.eqb negb forallb].
rewrite !ValidString_getOrDefault, Hu, Hn, Hs, Hm, Hf.
cbn [andb obind]. rewrite isZero_one.
destruct (isPositive (FreeMem info)); reflexivity.
Qed.

(** With a label value that is not valid UTF-8 it panics. *)
Lemma UpdateMetrics_invalid (info : SuplaInfo) (w : World) (r : Registry) :
  forallb Utf8.ValidString (labelsOf info) = false ->
  exists msg, UpdateMetrics info w r = Panic msg.
Proof.
intros Hinvalid. unfold labelsOf in Hinvalid.
unfold UpdateMetrics, WithLabelValuesSet.
destruct (Up info); cbn [forallb] in Hinvalid;
  cbn [List.length upLabels infoLabels stateLabels networkLabels firmwareLabels memoryLabels
       Nat.eqb negb forallb].
- rewrite !ValidString_getOrDefault.
  destruct (Utf8.ValidString (URL info)); cbn [andb obind];
    [|eexists; reflexivity].
  rewrite isZero_one.
  destruct (Utf8.ValidString (Name info)); cbn [andb obind];
    [|eexists; reflexivity].
  destruct (Utf8.ValidString (State info)); cbn [andb obind];
    [|eexists; reflexivity].
  destruct (Utf8.ValidString (MAC info)); cbn [andb obind];
    [|eexists; reflexivity].
  destruct (Utf8.ValidString (Firmware info)); cbn [andb obind];
    [discriminate | eexists; reflexivity].
- destruct (Utf8.ValidString (URL info)); cbn [andb obind];
    [discriminate | eexists; reflexivity].
Qed.

Lemma UpdateMetrics_valid (info : SuplaInfo) (w : World) (r r' : Registry) :
  UpdateMetrics info w r = Return r' ->
  forallb Utf8.ValidString (labelsOf info) = true.
Proof.
intros Hrun. destruct (forallb Utf8.ValidString (labelsOf info)) eqn:E; [reflexivity|].
destruct (UpdateMetrics_invalid info w r E) as (msg & Hp). congruence.
Qed.

Lemma valid_url (info : SuplaInfo) :
  forallb Utf8.ValidString (labelsOf info) = true -> Utf8.ValidString (URL info) = true.
Proof.
unfold labelsOf. destruct (Up info); cbn [forallb]; intros H;
  apply andb_true_iff in H; tauto.
Qed.

(** X12: [UpdateMetrics] returns when the url of the record and, for a
    device that is up, its name, state, mac and firmware are valid UTF-8;
    otherwise [WithLabelValues] panics. *)
Theorem UpdateMetrics_panics_exactly_on_invalid_label_values
        (info : SuplaInfo) (w : World) (r : Registry) :
  (forallb Utf8.ValidString (labelsOf info) = true ->
   exists r', UpdateMetrics info w r = Return r')
  /\ (forallb Utf8.ValidString (labelsOf info) = false ->
      exists msg, UpdateMetrics info w r = Panic msg).
Proof.
split; [|apply UpdateMetrics_invalid].
intros Hvalid. destruct (Up info) eqn:Hup.
- eexists. apply UpdateMetrics_up; assumption.
- eexists. apply UpdateMetrics_down; [assumption | apply valid_url; assumption].
Qed.

(** X13: after [UpdateMetrics] on a device that is up, each of the info,
    state, network and firmware vectors has exactly one series for its
    url, with the values of this record and "UNKNOWN" for an empty one;
    the memory vector has one with the free memory when that is positive
    and none otherwise; the up gauge reads 1, and the count gauge the
    attempt counter. *)
Theorem up_record_leaves_one_fresh_series_per_vector
        (info : SuplaInfo) (w : World) (r : Registry)
        (Hup : Up info = true)
        (Hvalid : forallb Utf8.ValidString (labelsOf info) = true) :
  exists r',
    UpdateMetrics info w r = Return r'
    /\ ofURL (SuplaDeviceInfo r') (URL info)
       = [([URL info; nameLabel info], Finite 1%Q)]
    /\ ofURL (SuplaDeviceState r') (URL info)
       = [([URL info; stateLabel info], Finite 1%Q)]
    /\ ofURL (SuplaDeviceNetwork r') (URL info)
       = [([URL info; macLabel info], Finite 1%Q)]
    /\ ofURL (SuplaDeviceFirmware r') (URL info)
       = [([URL info; firmwareLabel info; nameLabel info], Finite 1%Q)]
    /\ ofURL (SuplaDeviceMemory r') (URL info)
       = (if isPositive (FreeMem info)
          then [([URL info; nameLabel info], FreeMem info)] else [])
    /\ lookup (SuplaDeviceUp r') [URL info] = Some (Finite 1%Q)
    /\ SuplaDeviceCount r' = ofInt64 (deviceCount w).
Proof.
eexists. split; [apply UpdateMetrics_up; assumption|].
cbn [SuplaDeviceInfo SuplaDeviceState SuplaDeviceNetwork SuplaDeviceFirmware
     SuplaDeviceMemory SuplaDeviceUp SuplaDeviceCount].
repeat split; try (apply ofURL_refreshed; reflexivity).
- destruct (isPositive (FreeMem info));
    [apply ofURL_refreshed | apply ofURL_delete_same]; reflexivity.
- apply lookup_setSeries_same.
Qed.

Lemma up_record_leaves_one_fresh_series_per_vector_witness :
  exists r',
    UpdateMetrics upRecord (mkWorld 3 []) empty = Return r'
    /\ ofURL (SuplaDeviceInfo r') "http://10.0.0.7"
       = [(["http://10.0.0.7"; "SUPLA-GATE"], Finite 1%Q)]
    /\ ofURL (SuplaDeviceState r') "http://10.0.0.7"
       = [(["http://10.0.0.7"; "UNKNOWN"], Finite 1%Q)]
    /\ ofURL (SuplaDeviceMemory r') "http://10.0.0.7" = []
    /\ SuplaDeviceCount r' = Finite 3%Q.
Proof.
destruct (up_record_leaves_one_fresh_series_per_vector upRecord (mkWorld 3 []) empty
            eq_refl eq_refl) as (r' & Hrun & Hi & Hs & _ & _ & Hm & _ & Hc).
exists r'. split; [exact Hrun|]. split; [exact Hi|]. split; [exact Hs|].
split; [exact Hm | exact Hc].
Defined.

(** X14: [UpdateMetrics] on a record touches no series of another url:
    in the six vectors the series of every other url are as before. *)
Theorem UpdateMetrics_leaves_other_devices_alone
        (info : SuplaInfo) (w : World) (r r' : Registry) (u : string)
        (Hrun : UpdateMetrics info w r = Return r')
        (Hother : u <> URL info) :
  ofURL (SuplaDeviceInfo r') u = ofURL (SuplaDeviceInfo r) u
  /\ ofURL (SuplaDeviceState r') u = ofURL (SuplaDeviceState r) u
  /\ ofURL (SuplaDeviceNetwork r') u = ofURL (SuplaDeviceNetwork r) u
  /\ ofURL (SuplaDeviceFirmware r') u = ofURL (SuplaDeviceFirmware r) u
  /\ ofURL (SuplaDeviceMemory r') u = ofURL (SuplaDeviceMemory r) u
  /\ lookup (SuplaDeviceUp r') [u] = lookup (SuplaDeviceUp r) [u].
Proof.
pose proof (UpdateMetrics_valid _ _ _ _ Hrun) as Hvalid.
assert (Hkey : [u] <> [URL info]) by congruence.
destruct (Up info) eqn:Hup.
- rewrite (UpdateMetrics_up info w r Hup Hvalid) in Hrun.
  inversion Hrun; subst r'; clear Hrun.
  cbn [SuplaDeviceInfo SuplaDeviceState SuplaDeviceNetwork SuplaDeviceFirmware
       SuplaDeviceMemory SuplaDeviceUp].
  repeat split; try (apply ofURL_refreshed_other; [reflexivity | assumption]).
  + destruct (isPositive (FreeMem info));
      [apply ofURL_refreshed_other | apply ofURL_delete_other];
      solve [reflexivity | assumption].
  + apply lookup_setSeries_other. exact Hkey.
- rewrite (UpdateMetrics_down info w r Hup (valid_url _ Hvalid)) in Hrun.
  inversion Hrun; subst r'; clear Hrun.
  cbn [SuplaDeviceInfo SuplaDeviceState SuplaDeviceNetwork SuplaDeviceFirmware
       SuplaDeviceMemory SuplaDeviceUp].
  repeat split. apply lookup_setSeries_other. exact Hkey.
Qed.

Lemma UpdateMetrics_leaves_other_devices_alone_witness :
  exists r',
    UpdateMetrics upRecord world0
      (mkRegistry [(["http://10.0.0.9"; "OTHER"], Finite 1%Q)] [] [] [] [] [] (Finite 0%Q))
    = Return r'
    /\ ofURL (SuplaDeviceInfo r') "http://10.0.0.9"
       = [(["http://10.0.0.9"; "OTHER"], Finite 1%Q)].
Proof.
eexists. split; [reflexivity|].
refine (proj1 (UpdateMetrics_leaves_other_devices_alone upRecord world0 _ _
                 "http://10.0.0.9" eq_refl _)).
discriminate.
Defined.

(** X15: when a device that was up is found down, [UpdateMetrics] sets
    its up gauge to 0 and deletes nothing: the info, state, network,
    firmware and memory series of its last good record stay exported,
    and the count gauge keeps its value. *)
Theorem down_record_keeps_the_last_good_series
        (good bad : SuplaInfo) (w w' : World) (r r1 r2 : Registry)
        (Hsame : URL bad = URL good)
        (Hup : Up good = true) (Hdown : Up bad = false)
        (Hfirst : UpdateMetrics good w r = Return r1)
        (Hthen : UpdateMetrics bad w' r1 = Return r2) :
  lookup (SuplaDeviceUp r2) [URL good] = Some (Finite 0%Q)
  /\ ofURL (SuplaDeviceInfo r2) (URL good)
     = [([URL good; nameLabel good], Finite 1%Q)]
  /\ ofURL (SuplaDeviceState r2) (URL good)
     = [([URL good; stateLabel good], Finite 1%Q)]
  /\ ofURL (SuplaDeviceNetwork r2) (URL good)
     = [([URL good; macLabel good], Finite 1%Q)]
  /\ ofURL (SuplaDeviceFirmware r2) (URL good)
     = [([URL good; firmwareLabel good; nameLabel good], Finite 1%Q)]
  /\ ofURL (SuplaDeviceMemory r2) (URL good)
     = (if isPositive (FreeMem good)
        then [([URL good; nameLabel good], FreeMem good)] else [])
  /\ SuplaDeviceCount r2 = SuplaDeviceCount r1.
Proof.
pose proof (UpdateMetrics_valid _ _ _ _ Hfirst) as Hv1.
pose proof (UpdateMetrics_valid _ _ _ _ Hthen) as Hv2.
rewrite (UpdateMetrics_down bad w' r1 Hdown (valid_url _ Hv2)) in Hthen.
inversion Hthen; subst r2; clear Hthen.
rewrite (UpdateMetrics_up good w r Hup Hv1) in Hfirst.
inversion Hfirst; subst r1; clear Hfirst.
cbn [SuplaDeviceInfo SuplaDeviceState SuplaDeviceNetwork SuplaDeviceFirmware
     SuplaDeviceMemory SuplaDeviceUp SuplaDeviceCount].
rewrite Hsame.
repeat split; try (apply ofURL_refreshed; reflexivity).
- apply lookup_setSeries_same.
- destruct (isPositive (FreeMem good));
    [apply ofURL_refreshed | apply ofURL_delete_same]; reflexivity.
Qed.

Lemma down_record_keeps_the_last_good_series_witness :
  exists r1 r2,
    UpdateMetrics upRecord world0 empty = Return r1
    /\ UpdateMetrics sampleRecord world0 r1 = Return r2
    /\ lookup (SuplaDeviceUp r2) ["http://10.0.0.7"] = Some (Finite 0%Q)
    /\ ofURL (SuplaDeviceInfo r2) "http://10.0.0.7"
       = [(["http://10.0.0.7"; "SUPLA-GATE"], Finite 1%Q)].
Proof.
eexists. eexists. split; [reflexivity|]. split; [reflexivity|].
destruct (down_record_keeps_the_last_good_series upRecord sampleRecord world0 world0
            empty _ _ eq_refl eq_refl eq_refl eq_refl eq_refl) as (H0 & H1 & _).
split; [exact H0 | exact H1].
Defined.

(** X16: [UpdateMetrics] with the same record and the same counter a
    second time changes nothing. *)
Theorem UpdateMetrics_twice_is_once
        (info : SuplaInfo) (w : World) (r r' : Registry)
        (Hrun : UpdateMetrics info w r = Return r') :
  UpdateMetrics info w r' = Return r'.
Proof.
pose proof (UpdateMetrics_valid _ _ _ _ Hrun) as Hvalid.
destruct (Up info) eqn:Hup.
- rewrite (UpdateMetrics_up info w r Hup Hvalid) in Hrun.
  rewrite (UpdateMetrics_up info w r' Hup Hvalid).
  inversion Hrun; subst r'; clear Hrun.
  cbn [SuplaDeviceInfo SuplaDeviceState SuplaDeviceNetwork SuplaDeviceFirmware
       SuplaDeviceMemory SuplaDeviceUp SuplaDeviceCount].
  rewrite !refreshed_again by reflexivity. rewrite setSeries_again.
  destruct (isPositive (FreeMem info)).
  + rewrite refreshed_again by reflexivity. reflexivity.
  + rewrite delete_delete. reflexivity.
- rewrite (UpdateMetrics_down info w r Hup (valid_url _ Hvalid)) in Hrun.
  rewrite (UpdateMetrics_down info w r' Hup (valid_url _ Hvalid)).
  inversion Hrun; subst r'; clear Hrun.
  cbn [SuplaDeviceInfo SuplaDeviceState SuplaDeviceNetwork SuplaDeviceFirmware
       SuplaDeviceMemory SuplaDeviceUp SuplaDeviceCount].
  rewrite setSeries_again. reflexivity.
Qed.

Lemma UpdateMetrics_twice_is_once_witness :
  exists r',
    UpdateMetrics upRecord world0 empty = Return r'
    /\ UpdateMetrics upRecord world0 r' = Return r'.
Proof.
eexists. split; [reflexivity|].
exact (UpdateMetrics_twice_is_once upRecord world0 empty _ eq_refl).
Defined.

End MetricsFacts.

(** * The pool, continued *)

Section PoolMore.
Variable devices : list Config.Device.
Variable numWorkers : Z.

Local Open Scope list_scope.

Local Abbreviation step := (Pool.step devices numWorkers).
Local Abbreviation steps := (Pool.steps devices numWorkers).

Lemma held_length (ws1 ws2 : list WorkerPC) (info : SuplaInfo) :
  1 <= List.length (flat_map heldBy (ws1 ++ Delivering info :: ws2)).
Proof. rewrite flat_map_app, length_app. cbn [flat_map heldBy app List.length]. lia. Qed.

(** The buffers have room whenever a goroutine is about to send. *)
Lemma room_to_send (s : PoolState) :
  conserved devices s ->
  (forall device rest,
      main s = Sending (device :: rest) -> List.length (jobs s) < List.length devices)
  /\ (forall ws1 info ws2,
         workers s = ws1 ++ Delivering info :: ws2 ->
         List.length (results s) < List.length devices).
Proof.
intros Hc. pose proof (conserved_length devices s Hc) as Hlen. split.
- intros device rest Hm. rewrite Hm in Hlen. cbn [pendingOf List.length] in Hlen. lia.
- intros ws1 info ws2 Hws. rewrite Hws in Hlen.
  pose proof (held_length ws1 ws2 info). lia.
Qed.

(** *** After the return *)

Lemma nothing_held (ws : list WorkerPC) :
  flat_map heldBy ws = [] -> Forall (fun w => w = Receiving \/ w = Exited) ws.
Proof.
induction ws as [|w ws IH]; intros H; [constructor|].
destruct w; cbn [flat_map heldBy app] in H; try discriminate;
  constructor; auto.
Qed.

Lemma exited_not_crashed (ws : list WorkerPC) :
  Forall (fun w => w = Receiving \/ w = Exited) ws -> existsb isPanicked ws = false.
Proof.
induction 1 as [|w ws [-> | ->] _ IH]; cbn [existsb isPanicked orb]; auto.
Qed.

(** The workers still in their loop leave it one after the other. *)
Lemma drain (todo : list WorkerPC) :
  Forall (fun w => w = Receiving \/ w = Exited) todo ->
  forall (done : list WorkerPC) (infos : list SuplaInfo) (rs : list SuplaInfo) (w0 : World),
    Forall (fun w => w = Exited) done ->
    steps (mkState (Returned infos) (done ++ todo) [] true rs w0)
          (mkState (Returned infos)
                   (done ++ repeat Exited (List.length todo)) [] true rs w0).
Proof.
induction 1 as [|w todo Hw Htodo IH]; intros done infos rs w0 Hdone.
- apply steps_refl.
- cbn [List.length repeat].
  replace (done ++ Exited :: repeat Exited (List.length todo))
    with ((done ++ [Exited]) ++ repeat Exited (List.length todo))
    by (rewrite <- app_assoc; reflexivity).
  destruct Hw as [-> | ->].
  + eapply steps_cons.
    * apply (step_drained devices numWorkers
               (mkState (Returned infos) (done ++ Receiving :: todo) [] true rs w0)
               done todo); try reflexivity.
      unfold crashed. cbn [workers]. apply exited_not_crashed.
      apply Forall_app. split.
      -- eapply Forall_impl; [|exact Hdone]. intros a ->. now right.
      -- constructor; [now left | exact Htodo].
    * cbn [main jobs closed results world].
      replace (done ++ Exited :: todo) with ((done ++ [Exited]) ++ todo)
        by (rewrite <- app_assoc; reflexivity).
      apply IH. apply Forall_app. split; [exact Hdone | repeat constructor].
  + replace (done ++ Exited :: todo) with ((done ++ [Exited]) ++ todo)
      by (rewrite <- app_assoc; reflexivity).
    apply IH. apply Forall_app. split; [exact Hdone | repeat constructor].
Qed.

Lemma all_exited_in (n : nat) (ws1 ws2 : list WorkerPC) (w : WorkerPC) :
  repeat Exited n = ws1 ++ w :: ws2 -> w = Exited.
Proof.
intros H. apply (repeat_spec n Exited w).
rewrite H. apply in_or_app. right. left. reflexivity.
Qed.

(** With the main goroutine back and every worker out of its loop nothing
    moves any more. *)
Lemma quiet (infos : list SuplaInfo) (n : nat) (js : list Config.Device) (cl : bool)
      (rs : list SuplaInfo) (w0 : World) (s' : PoolState) :
  ~ step (mkState (Returned infos) (repeat Exited n) js cl rs w0) s'.
Proof.
intros Hstep. inversion Hstep; subst; cbn [main workers] in *; try discriminate;
  match goal with
  | H : repeat Exited _ = _ ++ _ :: _ |- _ => apply all_exited_in in H; discriminate
  end.
Qed.

Lemma leave_after_return (s : PoolState) (infos : list SuplaInfo) :
  invariant devices numWorkers s ->
  main s = Returned infos ->
  steps s (mkState (Returned infos) (repeat Exited (List.length (workers s)))
                   [] true [] (world s)).
Proof.
intros Hinv Hret.
destruct (returned_all devices numWorkers s infos Hinv Hret) as (_ & _ & Hj & Hh & Hr).
destruct Hinv as (_ & Hp & _). unfold phaseOK in Hp. rewrite Hret in Hp.
destruct Hp as [Hcl _].
destruct s as [m ws js cl rs w0]. cbn [main workers jobs closed results world] in *.
subst. apply (drain ws (nothing_held ws Hh) [] infos [] w0). constructor.
Qed.

(** *** One worker *)

Lemma alone (ws1 ws2 : list WorkerPC) (w : WorkerPC) :
  List.length (ws1 ++ w :: ws2) <= 1 -> ws1 = [] /\ ws2 = [].
Proof.
rewrite length_app. cbn [List.length]. intros H.
destruct ws1; [|cbn [List.length] in H; lia].
destruct ws2; [auto | cbn [List.length] in H; lia].
Qed.

Lemma step_inLine (s s' : PoolState) :
  (numWorkers <= 1)%Z ->
  phaseOK devices numWorkers s ->
  List.length (workers s) <= 1 ->
  step s s' ->
  inLine devices s' = inLine devices s /\ List.length (workers s') <= 1.
Proof.
intros Hone Hp Hws Hstep. unfold phaseOK in Hp.
destruct Hstep; destruct s as [m ws js cl rs w0];
  cbn [main workers jobs closed results world] in *; subst;
  unfold inLine; cbn [main workers jobs results pendingOf infosOf];
  try match goal with
      | H : List.length (_ ++ _ :: _) <= 1 |- _ =>
          let H1 := fresh in let H2 := fresh in
          pose proof (alone _ _ _ H) as [H1 H2]; subst
      end;
  try match goal with
      | H : workerBody _ _ _ = (Return _, _) |- _ => apply workerBody_url in H
      end;
  cbn [app flat_map heldBy map List.length];
  repeat rewrite ?map_app, ?app_nil_r, <- ?app_assoc;
  cbn [app map]; try (split; [congruence | lia]).
- (* go *)
  destruct Hp as (Hw & _ & _ & _ & ->).
  rewrite flat_map_app. cbn [flat_map heldBy app]. rewrite app_nil_r.
  split; [reflexivity|].
  rewrite length_app, repeat_length. cbn [List.length]. lia.
Qed.

Lemma inLine_steps (w0 : World) (s : PoolState) :
  (numWorkers <= 1)%Z ->
  steps (init w0) s ->
  inLine devices s = map Config.URL devices /\ List.length (workers s) <= 1.
Proof.
intros Hone Hrun.
pose proof (invariant_init devices numWorkers w0) as Hinit.
remember (init w0) as s0 eqn:E.
induction Hrun as [s | a b c Hab IH Hbc].
- subst. unfold inLine, init. cbn. auto.
- specialize (IH E Hinit). destruct IH as [Hl Hw].
  pose proof (invariant_steps devices numWorkers _ _ Hinit Hab) as (_ & Hp & _).
  destruct (step_inLine b c Hone Hp Hw Hbc) as [Hl' Hw'].
  split; [congruence | exact Hw'].
Qed.

Lemma in_order (w0 : World) (s : PoolState) (infos : list SuplaInfo) :
  (numWorkers <= 1)%Z ->
  steps (init w0) s ->
  main s = Returned infos ->
  map URL infos = map Config.URL devices.
Proof.
intros Hone Hrun Hret.
pose proof (invariant_steps devices numWorkers _ _ (invariant_init devices numWorkers w0) Hrun)
  as Hinv.
destruct (returned_all devices numWorkers s infos Hinv Hret) as (_ & _ & Hj & Hh & Hr).
destruct (inLine_steps w0 s Hone Hrun) as [Hl _].
unfold inLine in Hl. rewrite Hret, Hj, Hh, Hr in Hl.
cbn [infosOf pendingOf map app] in Hl. rewrite app_nil_r in Hl. exact Hl.
Qed.

End PoolMore.

Lemma aboutToSend_steps : steps [kitchen] 1 (init world0) aboutToSend.
Proof.
eapply steps_snoc; [eapply steps_snoc; [apply steps_refl|]|].
- apply (step_go [kitchen] 1 (init world0) 0 eq_refl eq_refl). lia.
- apply (step_spawned [kitchen] 1
           (mkState (Spawning 1) [Receiving] [] false [] world0) 1 eq_refl eq_refl). lia.
Qed.

(** X17: the two channels are buffered for as many values as there are
    targets, and that is enough: in every state of a run, when the main
    goroutine is about to send a target the jobs buffer has room, and when
    a worker is about to deliver a record the results buffer has room; no
    send of the pool ever blocks. *)
Theorem no_send_of_the_pool_blocks
        (devices : list Config.Device) (numWorkers : Z) (w0 : World) (s : PoolState)
        (Hrun : steps devices numWorkers (init w0) s) :
  (forall device rest,
      main s = Sending (device :: rest) -> List.length (jobs s) < List.length devices)
  /\ (forall ws1 info ws2,
         workers s = (ws1 ++ Delivering info :: ws2)%list ->
         List.length (results s) < List.length devices).
Proof.
apply room_to_send.
apply (invariant_steps devices numWorkers _ _ (invariant_init devices numWorkers w0) Hrun).
Qed.

Lemma no_send_of_the_pool_blocks_witness :
  List.length (jobs aboutToSend) < List.length [kitchen].
Proof.
exact (proj1 (no_send_of_the_pool_blocks [kitchen] 1 world0 aboutToSend aboutToSend_steps)
             kitchen [] eq_refl).
Defined.

(** X18: no worker is left behind: once the main goroutine has returned,
    every worker is waiting in its loop or has left it, and the run goes
    on to the state in which every worker has left its loop and both
    buffers are empty; there nothing can move any more. *)
Theorem workers_leave_after_the_return
        (devices : list Config.Device) (numWorkers : Z) (w0 : World) (s : PoolState)
        (infos : list SuplaInfo)
        (Hrun : steps devices numWorkers (init w0) s)
        (Hret : main s = Returned infos) :
  Forall (fun w => w = Receiving \/ w = Exited) (workers s)
  /\ steps devices numWorkers s
           (mkState (Returned infos) (repeat Exited (List.length (workers s)))
                    [] true [] (world s))
  /\ forall s'',
       ~ step devices numWorkers
              (mkState (Returned infos) (repeat Exited (List.length (workers s)))
                       [] true [] (world s)) s''.
Proof.
pose proof (invariant_steps devices numWorkers _ _ (invariant_init devices numWorkers w0) Hrun)
  as Hinv.
destruct (returned_all devices numWorkers s infos Hinv Hret) as (_ & _ & _ & Hh & _).
split; [apply nothing_held; exact Hh|].
split; [apply leave_after_return; assumption|].
intros s''. apply quiet.
Qed.

Lemma workers_leave_after_the_return_witness :
  steps [kitchen] 1 sampleEnd sampleQuiet
  /\ forall s'', ~ step [kitchen] 1 sampleQuiet s''.
Proof.
exact (proj2 (workers_leave_after_the_return [kitchen] 1 world0 sampleEnd [sampleRecord]
                sampleRun_steps eq_refl)).
Defined.

(** X19: with one worker the records come back in the order of the
    targets: the urls of the batch are, position by position, the urls of
    the device list. *)
Theorem one_worker_keeps_the_order
        (devices : list Config.Device) (numWorkers : Z) (w0 : World) (s : PoolState)
        (infos : list SuplaInfo)
        (Hone : (numWorkers <= 1)%Z)
        (Hrun : steps devices numWorkers (init w0) s)
        (Hret : main s = Returned infos) :
  map URL infos = map Config.URL devices.
Proof. eapply in_order; eassumption. Qed.

Lemma one_worker_keeps_the_order_witness :
  map URL [sampleRecord] = map Config.URL [kitchen].
Proof.
exact (one_worker_keeps_the_order [kitchen] 1 world0 sampleEnd [sampleRecord]
         (Z.le_refl 1) sampleRun_steps eq_refl).
Defined.

(** * One cycle of [updateMetrics] *)

Section CycleFacts.
Import Strconv Metrics.
Local Open Scope list_scope.

(** What one call leaves in the up gauge and the count gauge. *)
Lemma UpdateMetrics_flag (info : SuplaInfo) (w : World) (r r1 : Registry) :
  UpdateMetrics info w r = Return r1 ->
  lookup (SuplaDeviceUp r1) [URL info]
  = Some (if Up info then Finite 1%Q else Finite 0%Q)
  /\ (forall u, u <> URL info ->
                lookup (SuplaDeviceUp r1) [u] = lookup (SuplaDeviceUp r) [u])
  /\ SuplaDeviceCount r1
     = (if Up info then ofInt64 (deviceCount w) else SuplaDeviceCount r).
Proof.
intros Hrun. pose proof (UpdateMetrics_valid _ _ _ _ Hrun) as Hvalid.
destruct (Up info) eqn:Hup.
- rewrite (UpdateMetrics_up info w r Hup Hvalid) in Hrun.
  inversion Hrun; subst r1; clear Hrun. cbn [SuplaDeviceUp SuplaDeviceCount].
  split; [apply lookup_setSeries_same|]. split; [|reflexivity].
  intros u Hu. apply lookup_setSeries_other. congruence.
- rewrite (UpdateMetrics_down info w r Hup (valid_url _ Hvalid)) in Hrun.
  inversion Hrun; subst r1; clear Hrun. cbn [SuplaDeviceUp SuplaDeviceCount].
  split; [apply lookup_setSeries_same|]. split; [|reflexivity].
  intros u Hu. apply lookup_setSeries_other. congruence.
Qed.

Lemma updateAll_flags (infos : list SuplaInfo) (w : World) :
  forall r r',
    Main.updateAll infos w r = Return r' ->
    (forall u, In u (map URL infos) -> isFlag (lookup (SuplaDeviceUp r') [u]))
    /\ (forall u, ~ In u (map URL infos) ->
                  lookup (SuplaDeviceUp r') [u] = lookup (SuplaDeviceUp r) [u])
    /\ (SuplaDeviceCount r' = SuplaDeviceCount r
        \/ SuplaDeviceCount r' = ofInt64 (deviceCount w))
    /\ (forall u, In u (map URL infos) ->
                  lookup (SuplaDeviceUp r') [u] = Some (Finite 1%Q) ->
                  SuplaDeviceCount r' = ofInt64 (deviceCount w)).
Proof.
induction infos as [|info rest IH]; intros r r' Hrun.
- cbn [Main.updateAll] in Hrun. inversion Hrun; subst.
  cbn [map In]. repeat split; auto; intros ? [].
- cbn [Main.updateAll] in Hrun.
  destruct (UpdateMetrics info w r) as [r1 | err | msg] eqn:E1;
    cbn [obind] in Hrun; try discriminate.
  destruct (UpdateMetrics_flag info w r r1 E1) as (Hset & Hkeep & Hcount).
  destruct (IH r1 r' Hrun) as (HA & HB & HC & HD).
  cbn [map In].
  split; [|split; [|split]].
  + intros u Hu.
    destruct (in_dec string_dec u (map URL rest)) as [Hin | Hout]; [apply HA; exact Hin|].
    destruct Hu as [<- | Hu]; [|contradiction].
    rewrite (HB _ Hout), Hset. unfold isFlag.
    destruct (Up info); auto.
  + intros u Hu. rewrite HB by tauto. apply Hkeep. intros ->. tauto.
  + rewrite Hcount in HC. destruct (Up info); tauto.
  + intros u Hu Hone.
    destruct (in_dec string_dec u (map URL rest)) as [Hin | Hout]; [apply (HD u Hin Hone)|].
    destruct Hu as [<- | Hu]; [|contradiction].
    rewrite (HB _ Hout), Hset in Hone.
    destruct (Up info); [|discriminate].
    rewrite Hcount in HC. tauto.
Qed.

(** The counter when the pool returns, after a start from 0. *)
Lemma counter_at_return (devices : list Config.Device) (numWorkers : Z) (w0 : World)
      (s : PoolState) (infos : list SuplaInfo) :
  deviceCount w0 = 0%Z ->
  steps devices numWorkers (init w0) s ->
  main s = Returned infos ->
  deviceCount (world s) = wrap64 (Z.of_nat (List.length devices)).
Proof.
intros H0 Hrun Hret.
pose proof (invariant_steps devices numWorkers _ _
              (invariant_init devices numWorkers w0) Hrun) as Hinv.
assert (Hc0 : counted (init w0)) by exact H0.
pose proof (counted_steps devices numWorkers _ _ Hc0 Hrun) as Hc.
destruct (returned_all devices numWorkers s infos Hinv Hret)
  as (Hlen & _ & _ & Hheld & Hres).
unfold counted, attempts in Hc.
rewrite (no_attempt_pending _ Hheld), Hres, Hret in Hc.
cbn [infosOf List.length Nat.add] in Hc. rewrite Hlen in Hc. exact Hc.
Qed.

End CycleFacts.

(** X20: after a cycle of [updateMetrics] over the configured devices the
    up gauge has a series, 0 or 1, for the url of every one of them, and
    the series of any other url are as before; when one of them reads 1
    the count gauge is the number of devices; and the attempt counter is
    back at 0. *)
Theorem cycle_reports_every_target
        (devices : list Config.Device) (cfg : Settings.Config)
        (w w' : World) (r r' : Metrics.Registry)
        (Hint : (Z.of_nat (List.length devices) < 2 ^ 63)%Z)
        (Hcycle : Main.updateMetrics devices cfg (w, r) (w', r')) :
  (forall d, In d devices ->
             isFlag (Metrics.lookup (Metrics.SuplaDeviceUp r') [Config.URL d]))
  /\ (forall u, ~ In u (map Config.URL devices) ->
                Metrics.lookup (Metrics.SuplaDeviceUp r') [u]
                = Metrics.lookup (Metrics.SuplaDeviceUp r) [u])
  /\ ((exists d, In d devices
                 /\ Metrics.lookup (Metrics.SuplaDeviceUp r') [Config.URL d]
                    = Some (Strconv.Finite 1%Q)) ->
      Metrics.SuplaDeviceCount r'
      = Metrics.ofInt64 (Z.of_nat (List.length devices)))
  /\ deviceCount w' = 0%Z.
Proof.
inversion Hcycle as [w1 r1 s infos r2 Hrun Hret Hall Ew Er]; subst.
pose proof (invariant_steps devices _ _ _
              (invariant_init devices _ _) Hrun) as Hinv.
destruct (returned_all devices _ s infos Hinv Hret) as (_ & Hperm & _).
pose proof (counter_at_return devices _ (snd (GetAndResetDeviceCount w)) s infos
              eq_refl Hrun Hret) as Hcount.
rewrite wrap64_small in Hcount by lia.
destruct (updateAll_flags infos (world s) r r' Hall) as (HA & HB & _ & HD).
rewrite Hcount in HD.
split; [|split; [|split]].
- intros d Hd. apply HA.
  apply (Permutation_in _ (Permutation_sym Hperm)). apply in_map. exact Hd.
- intros u Hu. apply HB. intros Hin. apply Hu.
  apply (Permutation_in _ Hperm). exact Hin.
- intros (d & Hd & Hone). apply (HD (Config.URL d)); [|exact Hone].
  apply (Permutation_in _ (Permutation_sym Hperm)). apply in_map. exact Hd.
- reflexivity.
Qed.

Lemma cycle_reports_every_target_witness :
  exists w' r',
    Main.updateMetrics [kitchen] oneWorker (world0, Metrics.empty) (w', r')
    /\ isFlag (Metrics.lookup (Metrics.SuplaDeviceUp r') ["http://10.0.0.7"])
    /\ deviceCount w' = 0%Z.
Proof.
assert (Hcycle : Main.updateMetrics [kitchen] oneWorker (world0, Metrics.empty)
                   (snd (GetAndResetDeviceCount (world sampleEnd)),
                    Metrics.mkRegistry [] [] [] [] []
                      [(["http://10.0.0.7"], Strconv.Finite 0%Q)] (Strconv.Finite 0%Q))).
{ apply (Main.cycle [kitchen] oneWorker world0 Metrics.empty sampleEnd [sampleRecord]).
  - exact sampleRun_steps.
  - reflexivity.
  - reflexivity. }
eexists. eexists. split; [exact Hcycle|].
destruct (cycle_reports_every_target [kitchen] oneWorker _ _ _ _ eq_refl Hcycle)
  as (Hflag & _ & _ & Hzero).
split; [exact (Hflag kitchen (or_introl eq_refl)) | exact Hzero].
Defined.

(** * The start of [main] *)

Section StartupFacts.
Import Settings.
Variable out : Outside.
Variable stat : string -> bool.

Local Open Scope list_scope.

(** The loop over the paths, from any state in which [cfg] and
    [globalConfig] agree. *)
Lemma loadLoop_ends (paths : list string) :
  forall cfg0 : option Config,
    match Main.loadLoop out stat paths cfg0 cfg0 with
    | Main.Loaded c g =>
        g = Some c
        /\ ((Forall (fun q => stat q = false) paths /\ cfg0 = Some c)
            \/ exists before p after,
                 paths = before ++ p :: after /\ stat p = true
                 /\ Forall (fun q => stat q = false) after
                 /\ LoadConfig out p = Return c)
    | Main.NilDereference =>
        cfg0 = None /\ Forall (fun q => stat q = false) paths
    | Main.ExitStatus code =>
        code = 1%Z
        /\ exists p err, In p paths /\ stat p = true /\ LoadConfig out p = Error err
    | Main.Panicking msg =>
        exists p, In p paths /\ stat p = true /\ LoadConfig out p = Panic msg
    end.
Proof.
induction paths as [|path rest IH]; intros cfg0; cbn [Main.loadLoop].
- destruct cfg0 as [c|]; [|split; [reflexivity | constructor]].
  split; [reflexivity|]. left. split; [constructor | reflexivity].
- destruct (stat path) eqn:Es.
  + destruct (LoadConfig out path) as [c | err | msg] eqn:El.
    * unfold Set_. specialize (IH (Some c)).
      destruct (Main.loadLoop out stat rest (Some c) (Some c)) as [c' g | code | | msg].
      -- destruct IH as [Hg [[Hall Hc] | (before & p & after & -> & Hp & Hafter & Hload)]].
         ++ inversion Hc; subst c'. split; [exact Hg|]. right.
            exists [], path, rest. repeat split; assumption.
         ++ split; [exact Hg|]. right.
            exists (path :: before), p, after. repeat split; assumption.
      -- destruct IH as [Hcode (p & err & Hin & Hp & Hload)].
         split; [exact Hcode|]. exists p, err. repeat split; auto. now right.
      -- destruct IH as [Hnone _]. discriminate.
      -- destruct IH as (p & Hin & Hp & Hload).
         exists p. repeat split; auto. now right.
    * split; [reflexivity|]. exists path, err. repeat split; auto. now left.
    * exists path. repeat split; auto. now left.
  + specialize (IH cfg0).
    destruct (Main.loadLoop out stat rest cfg0 cfg0) as [c' g | code | | msg].
    * destruct IH as [Hg [[Hall Hc] | (before & p & after & -> & Hp & Hafter & Hload)]].
      -- split; [exact Hg|]. left. split; [constructor; assumption | exact Hc].
      -- split; [exact Hg|]. right.
         exists (path :: before), p, after. repeat split; assumption.
    * destruct IH as [Hcode (p & err & Hin & Hp & Hload)].
      split; [exact Hcode|]. exists p, err. repeat split; auto. now right.
    * destruct IH as [Hnone Hall]. split; [exact Hnone | constructor; assumption].
    * destruct IH as (p & Hin & Hp & Hload).
      exists p. repeat split; auto. now right.
Qed.

Lemma LoadConfig_validated (filename : string) (cfg : Config) :
  LoadConfig out filename = Return cfg -> validate (parseURL out) cfg = None.
Proof.
unfold LoadConfig. intros Hload.
destruct (ReadFile out filename) as [data| |]; try discriminate.
destruct (Unmarshal out data _) as [c| |]; try discriminate.
destruct (validate (parseURL out) c) eqn:Ev; try discriminate.
inversion Hload; subst. exact Ev.
Qed.

End StartupFacts.

(** X21: [main] goes through all four paths and does not stop at the
    first file it can load: the configuration it goes on with, which is
    also the one [config.Set] has stored, is that of the last path that
    [os.Stat] finds, and it has passed [validate]; a path that is found
    and does not load ends the process with status 1; and [main]
    dereferences a nil configuration exactly when no path is found. *)
Theorem startup_uses_the_last_path_found
        (out : Settings.Outside) (stat : string -> bool) (configFile : string) :
  (forall cfg g,
      Main.loadConfiguration out stat configFile = Main.Loaded cfg g ->
      g = Some cfg
      /\ Settings.validate (Settings.parseURL out) cfg = None
      /\ exists before p after,
           Main.configPaths configFile = (before ++ p :: after)%list
           /\ stat p = true
           /\ Forall (fun q => stat q = false) after
           /\ Settings.LoadConfig out p = Return cfg)
  /\ (forall code,
         Main.loadConfiguration out stat configFile = Main.ExitStatus code ->
         code = 1%Z
         /\ exists p err,
              In p (Main.configPaths configFile) /\ stat p = true
              /\ Settings.LoadConfig out p = Error err)
  /\ (Main.loadConfiguration out stat configFile = Main.NilDereference
      <-> Forall (fun q => stat q = false) (Main.configPaths configFile)).
Proof.
unfold Main.loadConfiguration.
pose proof (loadLoop_ends out stat (Main.configPaths configFile) None) as H.
destruct (Main.loadLoop out stat (Main.configPaths configFile) None None)
  as [c g | code | | msg].
- destruct H as [Hg [[_ Hc] | (before & p & after & Hpaths & Hp & Hafter & Hload)]];
    [discriminate|].
  split; [|split; [discriminate|]].
  + intros cfg g' Heq. inversion Heq; subst.
    split; [reflexivity|]. split; [eapply LoadConfig_validated; exact Hload|].
    exists before, p, after. repeat split; assumption.
  + split; [discriminate|]. intros Hall. rewrite Hpaths in Hall.
    apply Forall_app in Hall. destruct Hall as [_ Hall].
    inversion Hall; subst. congruence.
- destruct H as [Hcode (p & err & Hin & Hp & Hload)].
  split; [discriminate|]. split.
  + intros code' Heq. inversion Heq; subst. split; [reflexivity|].
    exists p, err. repeat split; assumption.
  + split; [discriminate|]. intros Hall.
    rewrite Forall_forall in Hall. specialize (Hall p Hin). congruence.
- destruct H as [_ Hall].
  split; [discriminate|]. split; [discriminate|]. split; auto.
- destruct H as (p & Hin & Hp & Hload).
  split; [discriminate|]. split; [discriminate|].
  split; [discriminate|]. intros Hall.
  rewrite Forall_forall in Hall. specialize (Hall p Hin). congruence.
Qed.

(** X22: the log level of a configuration that [validate] accepts is one
    of the four names in lower case, so [getLogLevel] never takes its
    default branch for it and never lowers a letter: the level is the one
    named. *)
Theorem validated_log_level_is_the_one_named
        (urlError : string -> option string) (mapLower : string -> string)
        (cfg : Settings.Config)
        (Hvalid : Settings.validate urlError cfg = None) :
  let level := Settings.LogLevel (Settings.Global cfg) in
  (level = "debug" /\ Main.getLogLevel mapLower level = Main.LevelDebug)
  \/ (level = "info" /\ Main.getLogLevel mapLower level = Main.LevelInfo)
  \/ (level = "warn" /\ Main.getLogLevel mapLower level = Main.LevelWarn)
  \/ (level = "error" /\ Main.getLogLevel mapLower level = Main.LevelError).
Proof.
pose proof (proj1 (validate_accepts _ _) Hvalid) as ((_ & _ & Hlevel & _) & _).
cbv zeta. cbn [In] in Hlevel.
destruct Hlevel as [<- | [<- | [<- | [<- | []]]]]; auto 6.
Qed.

Lemma validated_log_level_is_the_one_named_witness :
  Main.getLogLevel (fun s => s) (Settings.LogLevel (Settings.Global sampleConfig))
  = Main.LevelInfo.
Proof.
destruct (validated_log_level_is_the_one_named allParse (fun s => s) sampleConfig eq_refl)
  as [[H _] | [[_ H] | [[H _] | [H _]]]]; try discriminate H. exact H.
Defined.
